(** * sharaq: serve decision, fan-out materialisation, dedup guard,
    invalidation and storage reaper, embedded from the Go sources.

    Conventions of the embedding.
    - A Go [error] is its message ([string]); [nil] is [None].
    - A function with side effects takes the objects it mutates and returns
      their new values next to its result.
    - [go f(...)] does not run [f]: the spawning function returns the list of
      tasks it has spawned; the caller decides when to run them.
    - Ranging over a Go map and letting one goroutine per entry run gives no
      order.  A preset table is therefore an association list, read as "the
      entries in the order in which their branches finish"; statements
      quantify over all such lists, hence over all orders.
    - The branches of a fan-out have their own variables and are run one
      after the other.  The goroutines of [Guardian.HandleDelete] are the
      exception: they assign and read a variable of the handler, and are run
      step by step under every interleaving. *)

From Stdlib Require Import ZArith.
From stdpp Require Import gmap strings list fin_maps pretty.

Local Open Scope string_scope.
Local Open Scope list_scope.
Local Open Scope Z_scope.

(** ** Values shared by all components *)

Definition error := string.

Inductive result (A : Type) : Type :=
| Ok (a : A)
| Fail (e : error).
Arguments Ok {A} a.
Arguments Fail {A} e.

(** The line feed written by the [\n] of a Go format string. *)
Definition nl : string := String (Ascii.ascii_of_nat 10) "".

(** [net/url.URL], with the fields the handlers read. *)
Record URL := mkURL {
  Scheme : string;
  Host : string;
  Path : string;
  RawQuery : string
}.

(** [u.String()] for a URL with a host. *)
Definition URL_String (u : URL) : string :=
  (if String.eqb (Scheme u) "" then "" else Scheme u +:+ ":") +:+
  (if String.eqb (Host u) "" then "" else "//" +:+ Host u) +:+
  Path u +:+
  (if String.eqb (RawQuery u) "" then "" else "?" +:+ RawQuery u).

(** [net/http.Request]: the method and the parsed form. *)
Record Request := mkRequest {
  Method : string;
  Form : list (string * string)
}.

Fixpoint assoc (k : string) (l : list (string * string)) : option string :=
  match l with
  | [] => None
  | (k', v) :: l' => if String.eqb k k' then Some v else assoc k l'
  end.

(** [r.FormValue(key)]: the first value of [key], or the empty string. *)
Definition FormValue (r : Request) (key : string) : string :=
  default "" (assoc key (Form r)).

(** [transformer.Result]. *)
Record TransformResult := mkResult {
  Content : string;
  Size : Z;
  ContentType : string
}.

(** What the sources take from outside: the standard library's URL parser
    and HTTP client, the transformer, the S3 client, and the helpers of
    [internal/util] and [internal/urlcache].  Failures of the outside world
    are oracles on the arguments of the failing call. *)
Class Externals := {
  (** [url.Parse] *)
  url_Parse : string -> result URL;
  (** [util.GetTargetURL] and [util.GetPresetFromRequest] *)
  GetTargetURL : Request -> result URL;
  GetPresetFromRequest : Request -> result string;
  (** [urlcache.MakeCacheKey(v ...string)]: called with two and with three
      arguments in the sources, hence variadic. *)
  MakeCacheKey : list string -> string;
  (** [util.HashedPath(preset, urlstr)] *)
  HashedPath : string -> string -> string;
  (** [crc64Table], indexed by a byte *)
  crc64Table : Z -> Z;
  (** [Transformer.Transform(rule, url)] *)
  Transform : string -> string -> result TransformResult;
  (** [http.Head(url)]: a transport error, or the status code *)
  http_Head : string -> result Z;
  (** errors of [Bucket.PutReader(path, ...)] and [Bucket.Del(path)] *)
  s3_put_err : string -> option error;
  s3_del_err : string -> option error;
  (** I/O error of [io.Copy] into the file at the path *)
  fs_write_err : string -> option error
}.

(** ** [hash/crc64] *)

Module crc64.

Definition mask64 : Z := Z.ones 64.

(** [^crc] on a [uint64]. *)
Definition not64 (crc : Z) : Z := Z.lxor crc mask64.

Definition ISO : Z := 0xD800000000000000.

Definition table_step (poly crc : Z) : Z :=
  if Z.testbit crc 0 then Z.lxor (Z.shiftr crc 1) poly else Z.shiftr crc 1.

(** [crc64.MakeTable(poly)], entry [i]. *)
Definition MakeTable (poly : Z) (i : Z) : Z :=
  Nat.iter 8 (table_step poly) i.

Definition bytes_of (s : string) : list Z :=
  map (fun c => Z.of_N (Ascii.N_of_ascii c)) (String.list_ascii_of_string s).

(** [update]: [crc = tab[byte(crc)^v] ^ (crc >> 8)] for every byte. *)
Definition update (tab : Z -> Z) (crc : Z) (p : list Z) : Z :=
  not64 (fold_left
    (fun crc v => Z.lxor (tab (Z.lxor (Z.land crc 255) v)) (Z.shiftr crc 8))
    p (not64 crc)).

(** [h := crc64.New(tab); io.WriteString(h, s); h.Sum64()] *)
Definition Sum64 (tab : Z -> Z) (s : string) : Z := update tab 0 (bytes_of s).

End crc64.

(** ** [urlcache.URLCache], as the handlers use it *)

Module urlcache.

Definition Lookup (c : gmap string string) (key : string) : string :=
  default "" (c !! key).

Definition Set_ (c : gmap string string) (key value : string) : gmap string string :=
  <[key := value]> c.

Definition Delete (c : gmap string string) (key : string) : gmap string string :=
  delete key c.

End urlcache.

(** ** [http.ResponseWriter] *)

Inductive body_item :=
| BodyText (s : string)
| BodyFile (path : string) (content : string)
| BodyListing (names : list string).

Record ResponseWriter := mkRW {
  header : list (string * string);
  status : option Z;
  sent_header : list (string * string);
  body : list body_item
}.

Definition newResponseWriter : ResponseWriter := mkRW [] None [] [].

(** [w.Header().Add(k, v)] *)
Definition Header_Add (k v : string) (w : ResponseWriter) : ResponseWriter :=
  mkRW (header w ++ [(k, v)]) (status w) (sent_header w) (body w).

(** [w.Header().Set(k, v)] *)
Definition Header_Set (k v : string) (w : ResponseWriter) : ResponseWriter :=
  mkRW (filter (fun kv => kv.1 ≠ k) (header w) ++ [(k, v)])
       (status w) (sent_header w) (body w).

(** [w.WriteHeader(code)]: the first call sends the status line and the
    header as it is then; later calls are ignored. *)
Definition WriteHeader (code : Z) (w : ResponseWriter) : ResponseWriter :=
  match status w with
  | Some _ => w
  | None => mkRW (header w) (Some code) (header w) (body w)
  end.

(** [w.Write]: sends the header with status 200 if none was sent. *)
Definition Write_ (b : body_item) (w : ResponseWriter) : ResponseWriter :=
  let w := WriteHeader 200 w in
  mkRW (header w) (status w) (sent_header w) (body w ++ [b]).

(** [http.Error(w, msg, code)] *)
Definition http_Error (w : ResponseWriter) (msg : string) (code : Z) : ResponseWriter :=
  Write_ (BodyText (msg +:+ nl))
    (WriteHeader code
      (Header_Set "X-Content-Type-Options" "nosniff"
        (Header_Set "Content-Type" "text/plain; charset=utf-8" w))).

(** The [Location] a client is sent to. *)
Definition Location (w : ResponseWriter) : option string :=
  assoc "Location" (sent_header w).

(** [fmt.Fprintf(buf, "Err: %s\n", err)] for every error of the channel. *)
Definition err_line (e : error) : string := "Err: " +:+ e +:+ nl.

Fixpoint err_lines (errs : list error) : string :=
  match errs with
  | [] => ""
  | e :: errs' => err_line e +:+ err_lines errs'
  end.

(** ** The guardian (PUT and DELETE entry points, dedup guard) *)

Module Guardian.

Record Guardian := mkGuardian {
  Bucket : gmap string TransformResult;
  Cache : gmap string string;
  processing : gmap Z bool
}.

Definition presets : list (string * string) :=
  [("pc-thumb", "360x216"); ("ticket-thumb", "170x230");
   ("wando-thumb", "596x450"); ("email-thumb", "596x450")].

Section WithExternals.
Context {ext : Externals}.

Definition url_key (u : URL) : Z := crc64.Sum64 crc64Table (URL_String u).

Definition MarkProcessing (g : Guardian) (u : URL) : bool * Guardian :=
  let k := url_key u in
  (true, mkGuardian (Bucket g) (Cache g) (<[k := true]> (processing g))).

Definition UnmarkProcessing (g : Guardian) (u : URL) : Guardian :=
  let k := url_key u in
  mkGuardian (Bucket g) (Cache g) (delete k (processing g)).

(** One goroutine of [transformAllAndStore]: the bucket after it, and the
    error it sends to the channel, if any. *)
Definition storeBranch (u : URL) (bucket : gmap string TransformResult)
    (preset rule : string) : gmap string TransformResult * option error :=
  match Transform rule (URL_String u) with
  | Fail e => (bucket, Some e)
  | Ok res =>
      let path := "/" +:+ preset +:+ Path u in
      match s3_put_err path with
      | Some e => (bucket, Some e)
      | None => (<[path := res]> bucket, None)
      end
  end.

(** [sched] lists [presets] in the order in which the goroutines finish. *)
Fixpoint transformAllAndStore_loop (u : URL) (sched : list (string * string))
    (bucket : gmap string TransformResult)
    : gmap string TransformResult * list error :=
  match sched with
  | [] => (bucket, [])
  | (preset, rule) :: sched' =>
      let '(bucket1, e) := storeBranch u bucket preset rule in
      let '(bucket2, errs) := transformAllAndStore_loop u sched' bucket1 in
      (bucket2, option_list e ++ errs)
  end.

Definition transformAllAndStore (g : Guardian) (sched : list (string * string))
    (u : URL) : Guardian * list error :=
  let '(bucket, errCh) := transformAllAndStore_loop u sched (Bucket g) in
  (mkGuardian bucket (Cache g) (processing g), errCh).

(** [elapsed] is the formatted [time.Since(start).Seconds()]. *)
Definition HandleStore (g : Guardian) (sched : list (string * string))
    (elapsed : string) (w : ResponseWriter) (r : Request)
    : ResponseWriter * Guardian :=
  let rawValue := FormValue r "url" in
  if String.eqb rawValue "" then (http_Error w "Bad url" 500, g) else
  match url_Parse rawValue with
  | Fail _ => (http_Error w "Bad url" 500, g)
  | Ok u =>
      let '(ok, g1) := MarkProcessing g u in
      if negb ok then (http_Error w "url is being processed" 500, g1) else
      (* from here on, [defer g.UnmarkProcessing(u)] runs at every return *)
      let '(g2, errCh) := transformAllAndStore g1 sched u in
      let buf := err_lines errCh in
      if negb (String.eqb buf "")
      then (http_Error w buf 500, UnmarkProcessing g2 u)
      else (Header_Add "X-Peatix-Elapsed-Time" elapsed w, UnmarkProcessing g2 u)
  end.

(** The goroutines of [HandleDelete].  They declare no [err] of their own:
    [err = g.Bucket.Del(path)] assigns the [err] of the handler, the one of
    [u, err := url.Parse(rawValue)], and every goroutine reads that variable
    again in [if err != nil] and in [errCh <- err].  What one goroutine
    reads may be what another has written, so these goroutines are not run
    one after the other: they are run step by step, every read and every
    write of [err] a step of its own, in the order a schedule gives.  (A
    read returns the value of the latest write, whole; the torn reads that
    Go allows for a racy interface value are not modelled.)  A goroutine is
    at one of the following places. *)
Inductive pc :=
| AtDel
| AtTest
| AtSend
| Sending (v : option error)
| AtCacheDelete
| Returned.

(** The handler while its goroutines run: the guardian, the shared [err],
    what [errCh] holds, and the place of every goroutine. *)
Record fanout := mkFanout {
  state : Guardian;
  err : option error;
  errCh : list (option error);
  pcs : list pc
}.

(** One step of the goroutine of [preset], which is at [p]; [cap] is the
    capacity of [errCh].
    - [AtDel]: [err = g.Bucket.Del(path)].
    - [AtTest]: [if err != nil].
    - [AtSend]: the operand of [errCh <- err] is read.
    - [Sending v]: the send itself, which must wait while the channel is
      full.
    - [AtCacheDelete]: [g.Cache.Delete(MakeCacheKey(preset, u.String()))]. *)
Definition goroutine (u : URL) (cap : nat) (preset : string) (p : pc) (st : fanout)
    : pc * fanout :=
  let path := "/" +:+ preset +:+ Path u in
  let g := state st in
  match p with
  | AtDel =>
      match s3_del_err path with
      | Some e => (AtTest, mkFanout g (Some e) (errCh st) (pcs st))
      | None =>
          (AtTest,
           mkFanout (mkGuardian (delete path (Bucket g)) (Cache g) (processing g))
             None (errCh st) (pcs st))
      end
  | AtTest =>
      (match err st with Some _ => AtSend | None => AtCacheDelete end, st)
  | AtSend => (Sending (err st), st)
  | Sending v =>
      if (length (errCh st) <? cap)%nat
      then (AtCacheDelete, mkFanout g (err st) (errCh st ++ [v]) (pcs st))
      else (Sending v, st)
  | AtCacheDelete =>
      (Returned,
       mkFanout
         (mkGuardian (Bucket g)
            (urlcache.Delete (Cache g) (MakeCacheKey [preset; URL_String u]))
            (processing g))
         (err st) (errCh st) (pcs st))
  | Returned => (Returned, st)
  end.

(** The goroutine started for entry [i] of the table takes a step. *)
Definition step (u : URL) (cap : nat) (sched : list (string * string)) (i : nat)
    (st : fanout) : fanout :=
  match sched !! i, pcs st !! i with
  | Some (preset, _), Some p =>
      let '(p', st') := goroutine u cap preset p st in
      mkFanout (state st') (err st') (errCh st') (<[i := p']> (pcs st'))
  | _, _ => st
  end.

(** The goroutines move as [steps] says. *)
Definition run (u : URL) (cap : nat) (sched : list (string * string))
    (steps : list nat) (st : fanout) : fanout :=
  fold_left (fun st i => step u cap sched i st) steps st.

(** A goroutine is at most five steps from its end. *)
Definition finish (u : URL) (cap : nat) (sched : list (string * string)) (i : nat)
    (st : fanout) : fanout :=
  Nat.iter 5 (step u cap sched i) st.

(** [wg.Wait()]: the goroutines that have not returned get the steps they
    still need. *)
Definition Wait (u : URL) (cap : nat) (sched : list (string * string))
    (st : fanout) : fanout :=
  fold_left (fun st i => finish u cap sched i st) (seq 0 (length sched)) st.

Definition returned (p : pc) : bool :=
  match p with Returned => true | _ => false end.

(** The handler after the loop that starts the goroutines; [err] is [nil]
    since the check after [url.Parse]. *)
Definition spawned (g : Guardian) (sched : list (string * string)) : fanout :=
  mkFanout g None [] (map (fun _ => AtDel) sched).

(** [%s] applied to an [error]; a nil one is printed as a bad operand. *)
Definition format_s (v : option error) : string :=
  match v with
  | Some e => e
  | None => "%!s(<nil>)"
  end.

(** The goroutines that may still send: those that have not passed
    [errCh <- err].  This and the definitions after it, up to [HandleDelete],
    are not in the sources: they are what the proofs keep track of. *)
Fixpoint senders (l : list pc) : nat :=
  match l with
  | [] => 0
  | (AtDel | AtTest | AtSend | Sending _) :: l' => S (senders l')
  | (AtCacheDelete | Returned) :: l' => senders l'
  end.

(** There is room in the channel for every goroutine that may still send. *)
Definition roomy (sched : list (string * string)) (st : fanout) : Prop :=
  length (pcs st) = length sched /\
  (length (errCh st) + senders (pcs st) <= length sched)%nat.

(** The steps a goroutine is from its end. *)
Definition togo (p : pc) : nat :=
  match p with
  | AtDel => 5
  | AtTest => 4
  | AtSend => 3
  | Sending _ => 2
  | AtCacheDelete => 1
  | Returned => 0
  end.

(** The cache while the goroutines run, [c0] being the cache they started
    with: a key holds what it held or is gone, only keys of the table go,
    and the key of a goroutine that has returned is gone. *)
Definition cleared (u : URL) (sched : list (string * string)) (c0 : gmap string string)
    (st : fanout) : Prop :=
  (forall k,
     Cache (state st) !! k = c0 !! k \/
     (Cache (state st) !! k = None /\
      k ∈ map (fun pr : string * string => MakeCacheKey [pr.1; URL_String u]) sched)) /\
  (forall i preset rule,
     sched !! i = Some (preset, rule) -> pcs st !! i = Some Returned ->
     Cache (state st) !! MakeCacheKey [preset; URL_String u] = None).

(** A value of [err] that is nil or the error of a deletion of the table. *)
Definition from_Del (u : URL) (sched : list (string * string)) (v : option error) : Prop :=
  forall e, v = Some e ->
  exists preset rule,
    (preset, rule) ∈ sched /\ s3_del_err ("/" +:+ preset +:+ Path u) = Some e.

(** Nothing but such values is in [err], in the channel, or about to be
    sent. *)
Definition sound (u : URL) (sched : list (string * string)) (st : fanout) : Prop :=
  from_Del u sched (err st) /\
  Forall (from_Del u sched) (errCh st) /\
  Forall (fun p => forall v, p = Sending v -> from_Del u sched v) (pcs st).

(** No error has been seen: [err] is nil, the channel is empty and no
    goroutine is on its way to a send. *)
Definition quiet (st : fanout) : Prop :=
  err st = None /\ errCh st = [] /\
  Forall (fun p => p <> AtSend /\ forall v, p <> Sending v) (pcs st).

(** [sched] is the table in the order of the [range] loop, [steps] the order
    in which the goroutines move before [wg.Wait()] gives the rest their
    turn, and the channel is made with room for [len(presets)] errors.
    While a goroutine is blocked, [wg.Wait()] does not return: the handler
    has answered nothing and released nothing. *)
Definition HandleDelete (g : Guardian) (sched : list (string * string))
    (steps : list nat) (elapsed : string) (w : ResponseWriter) (r : Request)
    : ResponseWriter * Guardian :=
  let rawValue := FormValue r "url" in
  if String.eqb rawValue "" then (http_Error w "Bad url" 500, g) else
  match url_Parse rawValue with
  | Fail _ => (http_Error w "Bad url" 500, g)
  | Ok u =>
      let '(ok, g1) := MarkProcessing g u in
      if negb ok then (http_Error w "url is being processed" 500, g1) else
      (* from here on, [defer g.UnmarkProcessing(u)] runs at every return *)
      let cap := length sched in
      let st := Wait u cap sched (run u cap sched steps (spawned g1 sched)) in
      if forallb returned (pcs st) then
        let buf := err_lines (map format_s (errCh st)) in
        if negb (String.eqb buf "")
        then (http_Error w buf 500, UnmarkProcessing (state st) u)
        else (Header_Add "X-Peatix-Elapsed-Time" elapsed w, UnmarkProcessing (state st) u)
      else (w, state st)
  end.

(** Two guarded requests at once.  For the in-flight set a guarded handler
    is an acquire on entry and, if that succeeded, a release on return; in
    between it does not touch the set.  A request has arrived, is running
    between the two, was refused by the guard, or is done. *)
Inductive phase := Arrived | Running | Refused | Done.

Definition advance (g : Guardian) (u : URL) (ph : phase) : Guardian * phase :=
  match ph with
  | Arrived =>
      let '(ok, g1) := MarkProcessing g u in
      (g1, if ok then Running else Refused)
  | Running => (UnmarkProcessing g u, Done)
  | Refused => (g, Refused)
  | Done => (g, Done)
  end.

(** The schedule says which request moves next ([false]: the first). *)
Fixpoint race (u1 u2 : URL) (schedule : list bool) (g : Guardian) (p1 p2 : phase)
    : Guardian * phase * phase :=
  match schedule with
  | [] => (g, p1, p2)
  | false :: schedule' =>
      let '(g1, p1') := advance g u1 p1 in race u1 u2 schedule' g1 p1' p2
  | true :: schedule' =>
      let '(g1, p2') := advance g u2 p2 in race u1 u2 schedule' g1 p1 p2'
  end.

End WithExternals.
End Guardian.

(** ** The S3 backend ([aws/backend.go]) *)

Module aws.

Record S3Backend := mkS3Backend {
  bucketName : string;
  bucket : gmap string TransformResult;
  cache : gmap string string;
  presets : list (string * string)
}.

(** What a [go] statement of this backend starts. *)
Inductive task :=
| GoCacheSet (key value : string)
| GoStoreTransformedContent (u : URL).

Section WithExternals.
Context {ext : Externals}.

Definition Serve (s : S3Backend) (w : ResponseWriter) (r : Request)
    : ResponseWriter * list task :=
  match GetTargetURL r with
  | Fail _ => (http_Error w "Bad url" 500, [])
  | Ok u =>
  match GetPresetFromRequest r with
  | Fail _ => (http_Error w "Bad preset" 500, [])
  | Ok preset =>
      let cacheKey := MakeCacheKey ["s3"; preset; URL_String u] in
      let cachedURL := urlcache.Lookup (cache s) cacheKey in
      if negb (String.eqb cachedURL "")
      then (WriteHeader 301 (Header_Add "Location" cachedURL w), [])
      else
        let specificURL :=
          "http://" +:+ bucketName s +:+ ".s3.amazonaws.com/" +:+ preset +:+ Path u in
        match http_Head specificURL with
        | Fail _ =>
            (* goto FALLBACK *)
            (WriteHeader 302 (Header_Add "Location" (URL_String u) w), [])
        | Ok code =>
            if code =? 200
            then (WriteHeader 301 (Header_Add "Location" specificURL w),
                  [GoCacheSet cacheKey specificURL])
            else (WriteHeader 302 (Header_Add "Location" (URL_String u) w),
                  [GoStoreTransformedContent u])
        end
  end
  end.

(** One goroutine of [StoreTransformedContent]. *)
Definition storeBranch (u : URL) (s : S3Backend) (preset rule : string)
    : S3Backend * option error :=
  match Transform rule (URL_String u) with
  | Fail e => (s, Some e)
  | Ok res =>
      let path := "/" +:+ preset +:+ Path u in
      match s3_put_err path with
      | Some e => (s, Some e)
      | None =>
          (mkS3Backend (bucketName s) (<[path := res]> (bucket s)) (cache s) (presets s),
           None)
      end
  end.

(** The goroutines, in the order of [sched]; the errors sent to [errCh]. *)
Fixpoint storeAll (u : URL) (sched : list (string * string)) (s : S3Backend)
    : S3Backend * list error :=
  match sched with
  | [] => (s, [])
  | (preset, rule) :: sched' =>
      let '(s1, e) := storeBranch u s preset rule in
      let '(s2, errs) := storeAll u sched' s1 in
      (s2, option_list e ++ errs)
  end.

Definition StoreTransformedContent (s : S3Backend) (u : URL)
    : S3Backend * option error :=
  let '(s1, errCh) := storeAll u (presets s) s in
  let buf := err_lines errCh in
  if negb (String.eqb buf "")
  then (s1, Some ("error while transforming: " +:+ buf))
  else (s1, None).

(** One goroutine of [Delete]. *)
Definition deleteBranch (u : URL) (s : S3Backend) (preset : string)
    : S3Backend * option error :=
  let path := "/" +:+ preset +:+ Path u in
  let '(bucket1, e) :=
    match s3_del_err path with
    | Some e => (bucket s, Some e)
    | None => (delete path (bucket s), None)
    end in
  (mkS3Backend (bucketName s) bucket1
     (urlcache.Delete (cache s) (MakeCacheKey [preset; URL_String u]))
     (presets s), e).

Fixpoint deleteAll (u : URL) (sched : list (string * string)) (s : S3Backend)
    : S3Backend * list error :=
  match sched with
  | [] => (s, [])
  | (preset, _) :: sched' =>
      let '(s1, e) := deleteBranch u s preset in
      let '(s2, errs) := deleteAll u sched' s1 in
      (s2, option_list e ++ errs)
  end.

Definition Delete (s : S3Backend) (u : URL) : S3Backend * option error :=
  let '(s1, errCh) := deleteAll u (presets s) s in
  let buf := err_lines errCh in
  if negb (String.eqb buf "")
  then (s1, Some ("error while deleting: " +:+ buf))
  else (s1, None).

(** Running a spawned task to its end.  The goroutine around
    [StoreTransformedContent] only logs the error. *)
Definition run (s : S3Backend) (t : task) : S3Backend :=
  match t with
  | GoCacheSet key value =>
      mkS3Backend (bucketName s) (bucket s) (urlcache.Set_ (cache s) key value) (presets s)
  | GoStoreTransformedContent u => (StoreTransformedContent s u).1
  end.

End WithExternals.
End aws.

(** ** The file system, as package [os] shows it

    A file path is the list of its components, in the form [filepath.Clean]
    leaves it; the disk is the tree below [/], where every path starts
    (there is no working directory).  [ModTime] of an entry is the
    time (nanoseconds) of its creation or last write; adding or removing an
    entry of a directory does not advance the directory's time here.
    [stat_err] and [remove_err] are the faults (permissions, I/O) that make
    [os.Lstat] and [os.Remove] fail on this entry. *)

Module os.

Record inode := mkInode {
  ModTime : Z;
  stat_err : option error;
  remove_err : option error
}.

#[warnings="-register-all"] Inductive node :=
| File (i : inode) (content : string)
| Dir (i : inode) (entries : list (string * node)).

Definition stat_of (n : node) : inode :=
  match n with File i _ => i | Dir i _ => i end.

Definition IsDir (n : node) : bool :=
  match n with File _ _ => false | Dir _ _ => true end.

Definition fresh (now : Z) : inode := mkInode now None None.

Fixpoint lookup_entry (x : string) (es : list (string * node)) : option node :=
  match es with
  | [] => None
  | (y, c) :: es' => if String.eqb x y then Some c else lookup_entry x es'
  end.

Fixpoint replace_entry (x : string) (c : node) (es : list (string * node))
    : list (string * node) :=
  match es with
  | [] => []
  | (y, d) :: es' =>
      if String.eqb x y then (y, c) :: es' else (y, d) :: replace_entry x c es'
  end.

Fixpoint del_entry (x : string) (es : list (string * node)) : list (string * node) :=
  match es with
  | [] => []
  | (y, d) :: es' => if String.eqb x y then es' else (y, d) :: del_entry x es'
  end.

(** A new entry goes to its place in the order of names. *)
Fixpoint add_entry (x : string) (c : node) (es : list (string * node))
    : list (string * node) :=
  match es with
  | [] => [(x, c)]
  | (y, d) :: es' =>
      if String.ltb x y then (x, c) :: (y, d) :: es' else (y, d) :: add_entry x c es'
  end.

Fixpoint find (p : list string) (n : node) : option node :=
  match p with
  | [] => Some n
  | x :: p' =>
      match n with
      | File _ _ => None
      | Dir _ es =>
          match lookup_entry x es with
          | Some c => find p' c
          | None => None
          end
      end
  end.

Definition render (p : list string) : string := "/" +:+ String.concat "/" p.

(** The separator, [/]. *)
Definition slash : Ascii.ascii := Ascii.ascii_of_nat 47.

Fixpoint split_from (s cur : string) : list string :=
  match s with
  | "" => if String.eqb cur "" then [] else [cur]
  | String c s' =>
      if Ascii.eqb c slash
      then (if String.eqb cur "" then [] else [cur]) ++ split_from s' ""
      else split_from s' (cur +:+ String c "")
  end.

(** The components of a path given as a string. *)
Definition split (s : string) : list string := split_from s "".

(** A component: not empty, and without separator. *)
Fixpoint no_slash (s : string) : bool :=
  match s with
  | "" => true
  | String c s' => negb (Ascii.eqb c slash) && no_slash s'
  end.

Definition component (x : string) : bool := negb (String.eqb x "") && no_slash x.

(** [errors.Is(err, fs.ErrNotExist)] and [errors.Is(err, fs.ErrPermission)],
    read off the text of the system error ([ENOENT]; [EACCES], [EPERM]). *)
Definition IsNotExist (e : error) : bool :=
  String.eqb e "no such file or directory".

Definition IsPermission (e : error) : bool :=
  String.eqb e "permission denied" || String.eqb e "operation not permitted".

(** [os.Stat] and [os.Lstat] (there are no symbolic links here). *)
Definition Stat (p : list string) (disk : node) : result inode :=
  match find p disk with
  | None => Fail ("stat " +:+ render p +:+ ": no such file or directory")
  | Some n =>
      match stat_err (stat_of n) with
      | Some e => Fail ("stat " +:+ render p +:+ ": " +:+ e)
      | None => Ok (stat_of n)
      end
  end.

(** Why [unlink]/[rmdir] refuses the entry, if it does. *)
Definition unremovable (n : node) : option error :=
  match remove_err (stat_of n) with
  | Some e => Some e
  | None =>
      match n with
      | Dir _ (_ :: _) => Some "directory not empty"
      | _ => None
      end
  end.

Fixpoint remove_at (p : list string) (n : node) : result node :=
  match p with
  | [] => Fail "device or resource busy"
  | x :: p' =>
      match n with
      | File _ _ => Fail "not a directory"
      | Dir i es =>
          match lookup_entry x es with
          | None => Fail "no such file or directory"
          | Some c =>
              match p' with
              | [] =>
                  match unremovable c with
                  | Some e => Fail e
                  | None => Ok (Dir i (del_entry x es))
                  end
              | _ :: _ =>
                  match remove_at p' c with
                  | Ok c' => Ok (Dir i (replace_entry x c' es))
                  | Fail e => Fail e
                  end
              end
          end
      end
  end.

Definition removable (n : node) : bool :=
  match unremovable n with None => true | Some _ => false end.

(** [os.Remove(path)]: a file, or an empty directory. *)
Definition Remove (p : list string) (disk : node) : result node :=
  match remove_at p disk with
  | Ok disk' => Ok disk'
  | Fail e => Fail ("remove " +:+ render p +:+ ": " +:+ e)
  end.

Fixpoint mkdir_all (p : list string) (now : Z) (n : node) : result node :=
  match p with
  | [] =>
      match n with
      | Dir _ _ => Ok n
      | File _ _ => Fail "not a directory"
      end
  | x :: p' =>
      match n with
      | File _ _ => Fail "not a directory"
      | Dir i es =>
          match lookup_entry x es with
          | Some c =>
              match mkdir_all p' now c with
              | Ok c' => Ok (Dir i (replace_entry x c' es))
              | Fail e => Fail e
              end
          | None =>
              match mkdir_all p' now (Dir (fresh now) []) with
              | Ok c' => Ok (Dir i (add_entry x c' es))
              | Fail e => Fail e
              end
          end
      end
  end.

(** [os.MkdirAll(path, perm)] *)
Definition MkdirAll (p : list string) (now : Z) (disk : node) : result node :=
  match mkdir_all p now disk with
  | Ok disk' => Ok disk'
  | Fail e => Fail ("mkdir " +:+ render p +:+ ": " +:+ e)
  end.

(** Apply [f] to what is at [p] ([None]: nothing, in an existing directory). *)
Fixpoint alter_at (f : option node -> result node) (p : list string) (n : node)
    : result node :=
  match p with
  | [] => f (Some n)
  | x :: p' =>
      match n with
      | File _ _ => Fail "not a directory"
      | Dir i es =>
          match lookup_entry x es with
          | Some c =>
              match alter_at f p' c with
              | Ok c' => Ok (Dir i (replace_entry x c' es))
              | Fail e => Fail e
              end
          | None =>
              match p' with
              | [] =>
                  match f None with
                  | Ok c' => Ok (Dir i (add_entry x c' es))
                  | Fail e => Fail e
                  end
              | _ :: _ => Fail "no such file or directory"
              end
          end
      end
  end.

(** [os.OpenFile(path, os.O_CREATE|os.O_WRONLY, perm)]: creates the file when
    it is missing; an existing file is opened as it is (no [O_TRUNC]). *)
Definition OpenFile (p : list string) (now : Z) (disk : node) : result node :=
  match alter_at (fun o =>
          match o with
          | None => Ok (File (fresh now) "")
          | Some (File i c) => Ok (File i c)
          | Some (Dir _ _) => Fail "is a directory"
          end) p disk with
  | Ok disk' => Ok disk'
  | Fail e => Fail ("open " +:+ render p +:+ ": " +:+ e)
  end.

(** Writing [buf] from offset 0 over [old]. *)
Definition overwrite (old buf : string) : string :=
  buf +:+ String.substring (String.length buf)
            (String.length old - String.length buf)%nat old.

(** The entries that [g] keeps, as [g] leaves them. *)
Fixpoint keep_entries (g : node -> option node) (es : list (string * node))
    : list (string * node) :=
  match es with
  | [] => []
  | (name, c) :: es' =>
      match g c with
      | Some c' => (name, c') :: keep_entries g es'
      | None => keep_entries g es'
      end
  end.

(** A disk is well formed when no directory holds a name twice. *)
Fixpoint wf (n : node) : bool :=
  match n with
  | File _ _ => true
  | Dir _ es =>
      bool_decide (NoDup (map fst es)) && forallb (fun e => wf e.2) es
  end.

(** Whether a walk that starts at [n] comes to call its function for the
    entry at [p] with that entry's [FileInfo]: the entry exists, and [Lstat]
    fails neither on it nor on a directory above it. *)
Fixpoint entered (p : list string) (n : node) : bool :=
  match stat_err (stat_of n) with
  | Some _ => false
  | None =>
      match p with
      | [] => true
      | x :: p' =>
          match n with
          | File _ _ => false
          | Dir _ es =>
              match lookup_entry x es with
              | Some c => entered p' c
              | None => false
              end
          end
      end
  end.

(** The tree [d] with [o] in the place of the entry at [p] ([None]: with
    that entry gone).  [None] is returned for [d] itself gone. *)
Fixpoint put (p : list string) (o : option node) (d : node) : option node :=
  match p with
  | [] => o
  | x :: p' =>
      match d with
      | File _ _ => Some d
      | Dir i es =>
          match lookup_entry x es with
          | None => Some d
          | Some c =>
              match put p' o c with
              | Some c' => Some (Dir i (replace_entry x c' es))
              | None => Some (Dir i (del_entry x es))
              end
          end
      end
  end.

(** The disk [d] after that replacement; the root itself does not go. *)
Definition graft (p : list string) (o : option node) (d : node) : node :=
  default d (put p o d).

End os.

(** ** [path/filepath] and [time] *)

Module filepath.

(** [filepath.Join(a, b)] *)
Definition Join (a b : string) : list string := os.split a ++ os.split b.

(** [filepath.Dir(path)] *)
Definition Dir (p : list string) : list string := removelast p.

(** [filepath.Walk(root, walkFn)] for a [walkFn] that returns [nil]: the
    root, then for a directory its entries in the order of their names, each
    walked in turn.  An entry whose [Lstat] fails is reported to [walkFn]
    with the error and not entered.  The walk follows the tree it finds at
    [root] when it starts: [walkFn] may act on the entry it is called for,
    not on entries still to come. *)
Fixpoint walk {S : Type}
    (walkFn : list string -> option os.inode -> option error -> S -> S)
    (path : list string) (n : os.node) (st : S) {struct n} : S :=
  match os.stat_err (os.stat_of n) with
  | Some e => walkFn path None (Some e) st
  | None =>
      match n with
      | os.File i _ => walkFn path (Some i) None st
      | os.Dir i es =>
          fold_left (fun st e => walk walkFn (path ++ [e.1]) e.2 st) es
            (walkFn path (Some i) None st)
      end
  end.

Definition Walk {S : Type} (root : list string) (disk : os.node)
    (walkFn : list string -> option os.inode -> option error -> S -> S)
    (st : S) : S :=
  match os.find root disk with
  | None =>
      walkFn root None
        (Some ("lstat " +:+ os.render root +:+ ": no such file or directory")) st
  | Some n => walk walkFn root n st
  end.

End filepath.

Module time.

Definition minDuration : Z := - 2 ^ 63.
Definition maxDuration : Z := 2 ^ 63 - 1.

(** [t.Sub(u)]: a [Duration] ([int64] nanoseconds), saturating. *)
Definition Sub (t u : Z) : Z :=
  Z.max minDuration (Z.min maxDuration (t - u)).

(** [time.Since(t)], the clock reading [now]. *)
Definition Since (now t : Z) : Z := Sub now t.

End time.

(** [toHTTPError(err)]: the answer of [net/http] to a file that cannot be
    opened or stat'ed. *)
Definition toHTTPError (e : error) : string * Z :=
  if os.IsNotExist e then ("404 page not found", 404)
  else if os.IsPermission e then ("403 Forbidden", 403)
  else ("500 Internal Server Error", 500).

(** [http.ServeFile(w, r, name)] of the standard library, for the requests
    this model has: a GET without [If-...] and [Range] headers whose URL
    path ends in [/] and holds no [..] element.  (To other requests
    [ServeFile] answers 304, 412, 206 or 416, redirects with 301, or
    refuses with 400; a [Request] here carries neither header nor path.)
    The file is opened and stat'ed: a missing entry and an entry with a
    fault are answered by [toHTTPError]; a file is sent; for a directory
    the [index.html] in it is sent if it can be opened, or else the listing
    of the directory. *)
Definition http_ServeFile (w : ResponseWriter) (name : string) (disk : os.node)
    : ResponseWriter :=
  match os.find (os.split name) disk with
  | None => http_Error w "404 page not found" 404
  | Some n =>
      match os.stat_err (os.stat_of n) with
      | Some e => http_Error w (toHTTPError e).1 (toHTTPError e).2
      | None =>
          match n with
          | os.File _ content => Write_ (BodyFile name content) w
          | os.Dir _ es =>
              match os.lookup_entry "index.html" es with
              | Some index =>
                  match os.stat_err (os.stat_of index) with
                  | Some _ => Write_ (BodyListing (map fst es)) w
                  | None =>
                      match index with
                      | os.File _ content =>
                          Write_ (BodyFile (os.render (os.split name ++ ["index.html"]))
                                    content) w
                      | os.Dir _ es' => Write_ (BodyListing (map fst es')) w
                      end
                  end
              | None => Write_ (BodyListing (map fst es)) w
              end
          end
      end
  end.

(** ** The file system backend ([fs/backend.go]) *)

Module fs.

Record Backend := mkBackend {
  root : string;
  cache : gmap string string;
  imageTTL : Z;
  presets : list (string * string)
}.

Inductive task :=
| GoStoreTransformedContent (u : URL)
| GoCleanStorageRoot.

Section WithExternals.
Context {ext : Externals}.

Definition EncodeFilename (f : Backend) (preset urlstr : string) : list string :=
  filepath.Join (root f) (HashedPath preset urlstr).

Definition Serve (f : Backend) (disk : os.node) (w : ResponseWriter) (r : Request)
    : ResponseWriter * Backend * list task :=
  match GetTargetURL r with
  | Fail _ => (http_Error w "Bad url" 500, f, [])
  | Ok u =>
  match GetPresetFromRequest r with
  | Fail _ => (http_Error w "Bad preset" 500, f, [])
  | Ok preset =>
      let cacheKey := MakeCacheKey ["fs"; preset; URL_String u] in
      let cachedFile := urlcache.Lookup (cache f) cacheKey in
      if negb (String.eqb cachedFile "")
      then (http_ServeFile w cachedFile disk, f, [])
      else
        let path := EncodeFilename f preset (URL_String u) in
        let '(w1, f1) :=
          match os.Stat path disk with
          | Ok _ =>
              (http_ServeFile w (os.render path) disk,
               mkBackend (root f) (urlcache.Set_ (cache f) cacheKey (os.render path))
                         (imageTTL f) (presets f))
          | Fail _ => (w, f)
          end in
        (WriteHeader 302 (Header_Add "Location" (URL_String u) w1), f1,
         [GoStoreTransformedContent u])
  end
  end.

(** [errors.Wrap(err, msg)] *)
Definition Wrap (e : error) (msg : string) : error := msg +:+ ": " +:+ e.

(** One function of the group of [StoreTransformedContent]. *)
Definition storeBranch (f : Backend) (u : URL) (now : Z) (disk : os.node)
    (preset rule : string) : os.node * option error :=
  match Transform rule (URL_String u) with
  | Fail e => (disk, Some (Wrap e "failed to transform"))
  | Ok res =>
      let path := EncodeFilename f preset (URL_String u) in
      let dir := filepath.Dir path in
      let made :=
        match os.Stat dir disk with
        | Fail _ => os.MkdirAll (filepath.Dir path) now disk
        | Ok _ => Ok disk
        end in
      match made with
      | Fail e =>
          (disk, Some (Wrap e ("failed to create directory " +:+ os.render (filepath.Dir path))))
      | Ok disk1 =>
          match os.OpenFile path now disk1 with
          | Fail e => (disk1, Some (Wrap e ("failed to open file " +:+ os.render path)))
          | Ok disk2 =>
              match fs_write_err (os.render path) with
              | Some e =>
                  (disk2, Some (Wrap e ("failed to write content to " +:+ os.render path)))
              | None =>
                  match os.alter_at (fun o =>
                          match o with
                          | Some (os.File i old) =>
                              Ok (os.File (os.mkInode now (os.stat_err i) (os.remove_err i))
                                          (os.overwrite old (Content res)))
                          | _ => Fail "bad file descriptor"
                          end) path disk2 with
                  | Ok disk3 => (disk3, None)
                  | Fail e =>
                      (disk2, Some (Wrap e ("failed to write content to " +:+ os.render path)))
                  end
              end
          end
      end
  end.

(** The functions of the group, in the order of [sched], and what each
    returns. *)
Fixpoint storeAll (f : Backend) (u : URL) (now : Z) (sched : list (string * string))
    (disk : os.node) : os.node * list (option error) :=
  match sched with
  | [] => (disk, [])
  | (preset, rule) :: sched' =>
      let '(disk1, e) := storeBranch f u now disk preset rule in
      let '(disk2, es) := storeAll f u now sched' disk1 in
      (disk2, e :: es)
  end.

(** [grp.Wait()] of an [errgroup.Group]: the first error returned by one of
    its functions, [nil] if none returned one. *)
Fixpoint Wait (returned : list (option error)) : option error :=
  match returned with
  | [] => None
  | Some e :: _ => Some e
  | None :: returned' => Wait returned'
  end.

Definition StoreTransformedContent (f : Backend) (u : URL) (now : Z) (disk : os.node)
    : Backend * os.node * option error * list task :=
  let '(disk1, returned) := storeAll f u now (presets f) disk in
  (f, disk1, Wait returned, [GoCleanStorageRoot]).

(** One function of the group of [Delete]. *)
Definition deleteBranch (f : Backend) (u : URL) (disk : os.node) (preset : string)
    : Backend * os.node * option error :=
  let path := EncodeFilename f preset (URL_String u) in
  match os.Remove path disk with
  | Fail e => (f, disk, Some (Wrap e ("failed to remove path " +:+ os.render path)))
  | Ok disk1 =>
      (mkBackend (root f)
         (urlcache.Delete (cache f) (MakeCacheKey ["fs"; preset; URL_String u]))
         (imageTTL f) (presets f),
       disk1, None)
  end.

Fixpoint deleteAll (u : URL) (sched : list (string * string)) (f : Backend)
    (disk : os.node) : Backend * os.node * list (option error) :=
  match sched with
  | [] => (f, disk, [])
  | (preset, _) :: sched' =>
      let '(f1, disk1, e) := deleteBranch f u disk preset in
      let '(f2, disk2, es) := deleteAll u sched' f1 disk1 in
      (f2, disk2, e :: es)
  end.

Definition Delete (f : Backend) (u : URL) (disk : os.node)
    : Backend * os.node * option error :=
  let '(f1, disk1, returned) := deleteAll u (presets f) f disk in
  (f1, disk1,
   match Wait returned with
   | None => None
   | Some e => Some (Wrap e "deleting from file system")
   end).

(** [time.Since(info.ModTime()) > f.imageTTL] *)
Definition expired (f : Backend) (now : Z) (info : os.inode) : bool :=
  time.Since now (os.ModTime info) >? imageTTL f.

(** The function literal handed to [filepath.Walk]. *)
Definition cleanEntry (f : Backend) (now : Z)
    (path : list string) (info : option os.inode) (err : option error)
    (disk : os.node) : os.node :=
  match err with
  | Some _ => disk
  | None =>
      match info with
      | None => disk
      | Some i =>
          if expired f now i
          then match os.Remove path disk with
               | Ok disk' => disk'
               | Fail _ => disk
               end
          else disk
      end
  end.

Definition CleanStorageRoot (f : Backend) (now : Z) (disk : os.node) : os.node :=
  if imageTTL f <=? 0 then disk
  else filepath.Walk (os.split (root f)) disk (cleanEntry f now) disk.

(** What a sweep at time [now] leaves of the tree [n] it walks ([None]: the
    entry is gone).  This is not in the sources: it describes the outcome of
    [filepath.Walk] with [cleanEntry], and [CleanStorageRoot] is proved to
    produce it. *)
Fixpoint swept (f : Backend) (now : Z) (n : os.node) : option os.node :=
  match os.stat_err (os.stat_of n) with
  | Some _ => Some n
  | None =>
      if expired f now (os.stat_of n) && os.removable n then None
      else Some match n with
                | os.File _ _ => n
                | os.Dir i es => os.Dir i (os.keep_entries (swept f now) es)
                end
  end.

(** Running a spawned task to its end; the tasks it spawns in turn are
    returned. *)
Definition run (f : Backend) (now : Z) (disk : os.node) (t : task)
    : Backend * os.node * list task :=
  match t with
  | GoStoreTransformedContent u =>
      let '(f1, disk1, _, spawned) := StoreTransformedContent f u now disk in
      (f1, disk1, spawned)
  | GoCleanStorageRoot => (f, CleanStorageRoot f now disk, [])
  end.

End WithExternals.
End fs.

(** ** The dispatcher (GET entry point) *)

Module Dispatcher.

(** A compiled [regexp.Regexp], as far as the dispatcher uses it. *)
Record Regexp := mkRegexp { MatchString : string -> bool }.

Record Dispatcher := mkDispatcher {
  whitelist : list Regexp;
  guardian : Guardian.Guardian
}.

(** The [Backend] interface, [Serve] only; [B] is what the backend holds and
    [T] what it can spawn. *)
Class Backend (B T : Type) := {
  Serve : B -> ResponseWriter -> Request -> ResponseWriter * B * list T
}.

(** The loop over the whitelist, with its [break]. *)
Fixpoint matchAny (whitelist : list Regexp) (rawValue : string) : bool :=
  match whitelist with
  | [] => false
  | pat :: whitelist' =>
      if MatchString pat rawValue then true else matchAny whitelist' rawValue
  end.

Section WithBackend.
Context {B T : Type} {backend : Backend B T}.

Definition HandleFetch (d : Dispatcher) (b : B) (w : ResponseWriter) (r : Request)
    : ResponseWriter * B * list T :=
  let rawValue := FormValue r "url" in
  if String.eqb rawValue "" then (http_Error w "Bad url" 500, b, []) else
  let allowed :=
    if (length (whitelist d) =? 0)%nat then true
    else matchAny (whitelist d) rawValue in
  if negb allowed
  then (http_Error w "Specified url not allowed" 403, b, [])
  else Serve b w r.

Definition ServeHTTP (d : Dispatcher) (b : B) (w : ResponseWriter) (r : Request)
    : ResponseWriter * B * list T :=
  if String.eqb (Method r) "GET" then HandleFetch d b w r
  else (http_Error w "What, what, what?" 400, b, []).

End WithBackend.

(** The loop of [NewDispatcher] over the configured patterns; [Compile] is
    [regexp.Compile]. *)
Fixpoint compileAll (Compile : string -> result Regexp) (patterns : list string)
    : result (list Regexp) :=
  match patterns with
  | [] => Ok []
  | pat :: patterns' =>
      match Compile pat with
      | Fail e => Fail e
      | Ok re =>
          match compileAll Compile patterns' with
          | Fail e => Fail e
          | Ok whitelist => Ok (re :: whitelist)
          end
      end
  end.

(** [NewDispatcher(s, g)], with [patterns] for [s.config.Whitelist()]. *)
Definition NewDispatcher (Compile : string -> result Regexp) (patterns : list string)
    (g : Guardian.Guardian) : result Dispatcher :=
  match compileAll Compile patterns with
  | Fail e => Fail e
  | Ok whitelist => Ok (mkDispatcher whitelist g)
  end.

#[export] Instance s3_backend {ext : Externals} : Backend aws.S3Backend aws.task := {
  Serve s w r := let '(w', spawned) := aws.Serve s w r in (w', s, spawned)
}.

#[export] Instance fs_backend {ext : Externals} : Backend (fs.Backend * os.node) fs.task := {
  Serve b w r :=
    let '(w', f', spawned) := fs.Serve b.1 b.2 w r in (w', (f', b.2), spawned)
}.

End Dispatcher.

(** ** A concrete outside world, for running the handlers *)

Module Sample.

(** The text of [s] before and after the first occurrence of [sep]. *)
Definition cut (sep s : string) : option (string * string) :=
  match String.index 0 sep s with
  | None => None
  | Some i =>
      Some (String.substring 0 i s,
            String.substring (i + String.length sep)
              (String.length s - (i + String.length sep)) s)
  end.

(** [scheme://host/path?query] *)
Definition parse (s : string) : result URL :=
  match cut "://" s with
  | None => Fail ("parse " +:+ s +:+ ": missing scheme")
  | Some (scheme, rest) =>
      let '(hostpath, query) := default (rest, "") (cut "?" rest) in
      match String.index 0 "/" hostpath with
      | None => Ok (mkURL scheme hostpath "" query)
      | Some i =>
          Ok (mkURL scheme (String.substring 0 i hostpath)
                (String.substring i (String.length hostpath - i) hostpath) query)
      end
  end.

(** Modelled from the spec: [util.GetTargetURL] is not among the sources;
    the read endpoint takes the source in the query parameter [url], which is
    required and must parse. *)
Definition targetURL (r : Request) : result URL :=
  if String.eqb (FormValue r "url") "" then Fail "missing url"
  else parse (FormValue r "url").

(** Modelled from the spec: [util.GetPresetFromRequest] is not among the
    sources; the read endpoint takes a required preset selector, here the
    query parameter [preset]. *)
Definition presetOf (r : Request) : result string :=
  if String.eqb (FormValue r "preset") "" then Fail "missing preset"
  else Ok (FormValue r "preset").

(** Modelled from the spec: [urlcache.MakeCacheKey] is not among the sources;
    the key is a deterministic function of its arguments that keeps distinct
    argument lists apart on the inputs used here: the arguments, each
    followed by a line feed. *)
Definition cacheKey (v : list string) : string :=
  String.concat "" (map (fun x => x +:+ nl) v).

(** Modelled from the spec: [util.HashedPath] is not among the sources; the
    address is a deterministic function of preset and source: a directory per
    preset, the file named by the checksum of the source. *)
Definition hashedPath (preset urlstr : string) : string :=
  preset +:+ "/" +:+ pretty (crc64.Sum64 (crc64.MakeTable crc64.ISO) urlstr).

(** A transformer that rejects the rules that start with [bad]. *)
Definition transform (rule urlstr : string) : result TransformResult :=
  if String.prefix "bad" rule then Fail ("cannot apply " +:+ rule +:+ " to " +:+ urlstr)
  else Ok (mkResult (rule +:+ " of " +:+ urlstr)
                    (Z.of_nat (String.length (rule +:+ " of " +:+ urlstr))) "image/jpeg").

(** The outside world with a given answer to [HEAD] and given S3 faults. *)
Definition world (head : string -> result Z)
    (put_err del_err : string -> option error) : Externals := {|
  url_Parse := parse;
  GetTargetURL := targetURL;
  GetPresetFromRequest := presetOf;
  MakeCacheKey := cacheKey;
  HashedPath := hashedPath;
  crc64Table := crc64.MakeTable crc64.ISO;
  Transform := transform;
  http_Head := head;
  s3_put_err := put_err;
  s3_del_err := del_err;
  fs_write_err := fun _ => None
|}.

Definition no_fault (path : string) : option error := None.

(** S3 answers every [HEAD] with 404, with 200, or cannot be reached. *)
Definition absent : Externals := world (fun _ => Ok 404) no_fault no_fault.
Definition present : Externals := world (fun _ => Ok 200) no_fault no_fault.
Definition unreachable : Externals :=
  world (fun _ => Fail "dial tcp: i/o timeout") no_fault no_fault.

Definition source : URL := mkURL "https" "x" "/a.jpg" "".

Definition get (preset : string) : Request :=
  mkRequest "GET" [("url", "https://x/a.jpg"); ("preset", preset)].

Definition put : Request := mkRequest "PUT" [("url", "https://x/a.jpg")].

(** The empty guardian, and the one in which a run for [source] is in
    flight. *)
Definition idle : Guardian.Guardian := Guardian.mkGuardian ∅ ∅ ∅.

Definition busy : Guardian.Guardian :=
  (Guardian.MarkProcessing (ext := absent) idle source).2.

(** A whitelist of one pattern, [^https://x/], and dispatchers with and
    without it; their guardian is [g]. *)
Definition onlyX : Dispatcher.Regexp := Dispatcher.mkRegexp (String.prefix "https://x/").

Definition open_dispatcher (g : Guardian.Guardian) : Dispatcher.Dispatcher :=
  Dispatcher.mkDispatcher [] g.

Definition strict_dispatcher (g : Guardian.Guardian) : Dispatcher.Dispatcher :=
  Dispatcher.mkDispatcher [onlyX] g.

(** An S3 backend with one preset and nothing cached or stored. *)
Definition s3 : aws.S3Backend :=
  aws.mkS3Backend "ix.peatix.com" ∅ ∅ [("thumb", "100x100")].

(** A file system backend rooted at [/var/sharaq], one preset, nothing
    cached, sweeping files older than an hour. *)
Definition hour : Z := 3600 * 10 ^ 9.

Definition fsb : fs.Backend :=
  fs.mkBackend "/var/sharaq" ∅ hour [("thumb", "100x100")].

(** A disk whose storage root is empty, and one that holds the derivative of
    [source] under [thumb], written at time 0. *)
Definition empty_disk : os.node :=
  os.Dir (os.fresh 0) [("var", os.Dir (os.fresh 0) [("sharaq", os.Dir (os.fresh 0) [])])].

Definition derivative : list string :=
  fs.EncodeFilename (ext := absent) fsb "thumb" "https://x/a.jpg".

Definition stored_disk : os.node :=
  os.Dir (os.fresh 0)
    [("var", os.Dir (os.fresh 0)
       [("sharaq", os.Dir (os.fresh 0)
          [("thumb", os.Dir (os.fresh 0)
             [("5100774299828810971", os.File (os.fresh 0) "100x100 of https://x/a.jpg")])])])].




(** The backends after a GET has found the derivative of [source] under
    [thumb] and entered it in the cache. *)
Definition fs_cached : fs.Backend :=
  fs.mkBackend "/var/sharaq"
    {[ cacheKey ["fs"; "thumb"; "https://x/a.jpg"] := "/var/sharaq/thumb/5100774299828810971" ]}
    hour [("thumb", "100x100")].

Definition s3_cached : aws.S3Backend :=
  aws.mkS3Backend "ix.peatix.com"
    {[ "/thumb/a.jpg" := mkResult "100x100 of https://x/a.jpg" 26 "image/jpeg" ]}
    {[ cacheKey ["s3"; "thumb"; "https://x/a.jpg"]
         := "http://ix.peatix.com.s3.amazonaws.com/thumb/a.jpg" ]}
    [("thumb", "100x100")].

(** A storage root, looked at two hours after time 0: an old and a recent
    derivative, an old one that cannot be removed, an old empty directory and
    an old directory that cannot be read. *)
Definition recent : Z := 2 * hour - 1.

Definition aged_disk : os.node :=
  os.Dir (os.fresh 0)
    [("var", os.Dir (os.fresh 0)
       [("sharaq", os.Dir (os.fresh 0)
          [("large", os.Dir (os.fresh 0) []);
           ("locked", os.Dir (os.mkInode 0 (Some "permission denied") None)
              [("1", os.File (os.fresh 0) "old")]);
           ("thumb", os.Dir (os.fresh 0)
              [("1", os.File (os.fresh 0) "old");
               ("2", os.File (os.fresh recent) "new");
               ("3", os.File (os.mkInode 0 None (Some "operation not permitted")) "kept")])])])].

(** A backend whose first preset carries a rule the transformer rejects. *)
Definition fs_one_bad : fs.Backend :=
  fs.mkBackend "/var/sharaq" ∅ hour [("small", "bad-1"); ("thumb", "100x100")].

(** A pattern compiler for anchored literals: [^text] matches the strings
    that start with [text]; anything else does not compile. *)
Definition compile (pat : string) : result Dispatcher.Regexp :=
  match pat with
  | String c text =>
      if Ascii.eqb c (Ascii.ascii_of_nat 94)
      then Ok (Dispatcher.mkRegexp (String.prefix text))
      else Fail ("error parsing regexp: " +:+ pat)
  | "" => Fail "error parsing regexp: empty"
  end.

End Sample.

(** * Properties *)

(** ** Response writer and error lines *)

Lemma WriteHeader_status (code : Z) (w : ResponseWriter) :
  status w = None -> status (WriteHeader code w) = Some code.
Proof. intros Hw. unfold WriteHeader. now rewrite Hw. Qed.

Lemma WriteHeader_sent (code : Z) (w : ResponseWriter) :
  status w = None -> sent_header (WriteHeader code w) = header w.
Proof. intros Hw. unfold WriteHeader. now rewrite Hw. Qed.

Lemma WriteHeader_written (code : Z) (w : ResponseWriter) :
  is_Some (status w) -> WriteHeader code w = w.
Proof. intros [c Hc]. unfold WriteHeader. now rewrite Hc. Qed.

Lemma http_Error_status (w : ResponseWriter) (msg : string) (code : Z) :
  status w = None -> status (http_Error w msg code) = Some code.
Proof.
  intros Hw. unfold http_Error, Write_. cbn [status].
  rewrite WriteHeader_written; apply WriteHeader_status || (eexists; apply WriteHeader_status);
    exact Hw.
Qed.

Lemma assoc_app_None (k : string) (l1 l2 : list (string * string)) :
  assoc k l1 = None -> assoc k (l1 ++ l2) = assoc k l2.
Proof.
  induction l1 as [|[k' v] l1 IH]; cbn; [easy|].
  destruct (String.eqb k k'); [discriminate|exact IH].
Qed.

(** A redirect written on a fresh response is the one the client receives. *)
Lemma redirect_sent (code : Z) (loc : string) (w : ResponseWriter) :
  status w = None -> assoc "Location" (header w) = None ->
  status (WriteHeader code (Header_Add "Location" loc w)) = Some code /\
  Location (WriteHeader code (Header_Add "Location" loc w)) = Some loc.
Proof.
  intros Hw Hl. split.
  - now apply WriteHeader_status.
  - unfold Location. rewrite WriteHeader_sent by exact Hw.
    cbn [Header_Add header]. now rewrite assoc_app_None.
Qed.

Lemma err_lines_empty (errs : list error) :
  String.eqb (err_lines errs) "" = true <-> errs = [].
Proof.
  destruct errs as [|e errs]; cbn [err_lines]; [easy|].
  split; [|discriminate]. unfold err_line. intros H. apply String.eqb_eq in H.
  discriminate H.
Qed.

(** ** Guardian *)

Section GuardianFacts.
Context {ext : Externals}.

Lemma MarkProcessing_true (g : Guardian.Guardian) (u : URL) :
  Guardian.MarkProcessing g u =
  (true, Guardian.mkGuardian (Guardian.Bucket g) (Guardian.Cache g)
           (<[Guardian.url_key u := true]> (Guardian.processing g))).
Proof. reflexivity. Qed.

Lemma transformAllAndStore_processing (g : Guardian.Guardian)
    (sched : list (string * string)) (u : URL) :
  Guardian.processing (Guardian.transformAllAndStore g sched u).1 = Guardian.processing g /\
  Guardian.Cache (Guardian.transformAllAndStore g sched u).1 = Guardian.Cache g.
Proof.
  unfold Guardian.transformAllAndStore.
  destruct (Guardian.transformAllAndStore_loop u sched (Guardian.Bucket g)) as [b errs].
  now cbn.
Qed.

End GuardianFacts.

Lemma advance_never_refuses {ext : Externals} (g : Guardian.Guardian) (u : URL)
    (ph : Guardian.phase) :
  ph <> Guardian.Refused -> (Guardian.advance g u ph).2 <> Guardian.Refused.
Proof. destruct ph; cbn; congruence. Qed.

Lemma race_never_refuses {ext : Externals} (u1 u2 : URL) (schedule : list bool) :
  forall g p1 p2, p1 <> Guardian.Refused -> p2 <> Guardian.Refused ->
  (Guardian.race u1 u2 schedule g p1 p2).1.2 <> Guardian.Refused /\
  (Guardian.race u1 u2 schedule g p1 p2).2 <> Guardian.Refused.
Proof.
  induction schedule as [|[] schedule IH]; intros g p1 p2 H1 H2; cbn; [easy| |].
  - pose proof (advance_never_refuses g u2 p2 H2) as H2'.
    destruct (Guardian.advance g u2 p2) as [g1 p2']. now apply IH.
  - pose proof (advance_never_refuses g u1 p1 H1) as H1'.
    destruct (Guardian.advance g u1 p1) as [g1 p1']. now apply IH.
Qed.

(** C1, where the code departs from it: [MarkProcessing] answers [true] also
    for a URL that is already marked in flight, and leaves it marked.  Of
    two requests for one URL that arrive before either returns, both are
    running at once, and under no schedule is one of them refused. *)
Theorem MarkProcessing_accepts_url_in_flight {ext : Externals}
    (g : Guardian.Guardian) (u : URL) :
  (Guardian.processing g !! Guardian.url_key u = Some true ->
   (Guardian.MarkProcessing g u).1 = true /\
   Guardian.processing (Guardian.MarkProcessing g u).2 !! Guardian.url_key u = Some true) /\
  (Guardian.race u u [false; true] g Guardian.Arrived Guardian.Arrived).1.2
    = Guardian.Running /\
  (Guardian.race u u [false; true] g Guardian.Arrived Guardian.Arrived).2
    = Guardian.Running /\
  (forall schedule,
     (Guardian.race u u schedule g Guardian.Arrived Guardian.Arrived).1.2
       <> Guardian.Refused /\
     (Guardian.race u u schedule g Guardian.Arrived Guardian.Arrived).2
       <> Guardian.Refused).
Proof.
  split; [|split; [|split]].
  - intros _. rewrite MarkProcessing_true. cbn. split; [reflexivity|].
    apply lookup_insert_eq.
  - reflexivity.
  - reflexivity.
  - intros schedule. now apply race_never_refuses.
Qed.

Lemma MarkProcessing_accepts_url_in_flight_witness :
  Guardian.processing Sample.busy !! Guardian.url_key (ext := Sample.absent) Sample.source
    = Some true /\
  (Guardian.MarkProcessing (ext := Sample.absent) Sample.busy Sample.source).1 = true.
Proof.
  split; [vm_compute; reflexivity|].
  apply (proj1 (MarkProcessing_accepts_url_in_flight (ext := Sample.absent)
                  Sample.busy Sample.source)).
  vm_compute; reflexivity.
Defined.

(** A PUT for a URL whose run is in flight is not rejected: it runs the whole
    materialisation and answers without the 500 of the guard. *)
Example HandleStore_while_in_flight :
  let '(w, g) :=
    Guardian.HandleStore (ext := Sample.absent) Sample.busy Guardian.presets "0.01"
      newResponseWriter Sample.put in
  status w = None /\ header w = [("X-Peatix-Elapsed-Time", "0.01")] /\
  size (Guardian.Bucket g) = 4%nat /\ Guardian.processing g = ∅.
Proof. vm_compute. repeat split; reflexivity. Qed.

(** *** The goroutines of [HandleDelete] *)

Lemma senders_insert (l : list Guardian.pc) (i : nat) (p q : Guardian.pc) :
  l !! i = Some p ->
  (Guardian.senders (<[i := q]> l) + Guardian.senders [p]
   = Guardian.senders l + Guardian.senders [q])%nat.
Proof.
  revert i. induction l as [|p0 l IH]; intros i Hi; [discriminate|].
  destruct i as [|i].
  - cbn in Hi. injection Hi as ->. cbn [insert list_insert]. destruct p, q; cbn; lia.
  - cbn in Hi. specialize (IH i Hi).
    change (<[S i := q]> (p0 :: l)) with (p0 :: <[i := q]> l).
    set (a := Guardian.senders [p]) in *. set (b := Guardian.senders [q]) in *.
    clearbody a b. destruct p0; cbn [Guardian.senders]; lia.
Qed.

Lemma forallb_returned (l : list Guardian.pc) :
  (forall i, (i < length l)%nat -> l !! i = Some Guardian.Returned) ->
  forallb Guardian.returned l = true.
Proof.
  induction l as [|p l IH]; intros H; [reflexivity|]. cbn.
  pose proof (H 0%nat ltac:(cbn; lia)) as H0. injection H0 as ->. cbn.
  apply IH. intros i Hi. exact (H (S i) ltac:(cbn; lia)).
Qed.

Section DeleteGoroutines.
Context {ext : Externals}.
Variables (u : URL) (sched : list (string * string)).

(** Whatever holds at the start and is kept by every step holds when
    [wg.Wait()] is over. *)
Lemma goroutines_keep (cap : nat) (P : Guardian.fanout -> Prop) :
  (forall i st, P st -> P (Guardian.step u cap sched i st)) ->
  forall steps st, P st ->
  P (Guardian.run u cap sched steps st) /\
  P (Guardian.Wait u cap sched (Guardian.run u cap sched steps st)).
Proof.
  intros Hstep.
  assert (Hrun : forall steps st, P st -> P (Guardian.run u cap sched steps st)).
  { unfold Guardian.run. induction steps as [|i steps IH]; intros st Hst; cbn; [exact Hst|].
    apply IH, Hstep, Hst. }
  assert (Hfin : forall i st, P st -> P (Guardian.finish u cap sched i st)).
  { intros i st Hst. unfold Guardian.finish. cbn [Nat.iter]. now repeat apply Hstep. }
  assert (Hwait : forall l st, P st ->
            P (fold_left (fun st i => Guardian.finish u cap sched i st) l st)).
  { induction l as [|i l IH]; intros st Hst; cbn; [exact Hst|]. apply IH, Hfin, Hst. }
  intros steps st Hst. split; [now apply Hrun|]. unfold Guardian.Wait. now apply Hwait, Hrun.
Qed.

(** No step touches the in-flight set. *)
Lemma step_processing (cap i : nat) (st : Guardian.fanout) :
  Guardian.processing (Guardian.state (Guardian.step u cap sched i st))
  = Guardian.processing (Guardian.state st).
Proof.
  unfold Guardian.step. destruct (sched !! i) as [[preset rule]|]; [|reflexivity].
  destruct (Guardian.pcs st !! i) as [p|]; [|reflexivity].
  unfold Guardian.goroutine.
  destruct p; try reflexivity.
  - now destruct (s3_del_err _).
  - now destruct (_ <? _)%nat.
Qed.

Lemma step_roomy (cap i : nat) (st : Guardian.fanout) :
  Guardian.roomy sched st -> Guardian.roomy sched (Guardian.step u cap sched i st).
Proof.
  intros [Hlen Hroom]. unfold Guardian.step.
  destruct (sched !! i) as [[preset rule]|]; [|now split].
  destruct (Guardian.pcs st !! i) as [p|] eqn:Hp; [|now split].
  unfold Guardian.goroutine, Guardian.roomy.
  destruct p; cbn [Guardian.pcs Guardian.errCh Guardian.state Guardian.err].
  - pose proof (senders_insert _ i _ Guardian.AtTest Hp) as Hs.
    destruct (s3_del_err _); cbn [Guardian.pcs Guardian.errCh];
      rewrite length_insert; cbn in Hs; split; [exact Hlen|lia|exact Hlen|lia].
  - pose proof (senders_insert _ i _ Guardian.AtSend Hp) as Hs1.
    pose proof (senders_insert _ i _ Guardian.AtCacheDelete Hp) as Hs2.
    destruct (Guardian.err st); rewrite length_insert; cbn in Hs1, Hs2;
      split; [exact Hlen|lia|exact Hlen|lia].
  - pose proof (senders_insert _ i _ (Guardian.Sending (Guardian.err st)) Hp) as Hs.
    rewrite length_insert. cbn in Hs. split; [exact Hlen|lia].
  - pose proof (senders_insert _ i _ Guardian.AtCacheDelete Hp) as Hs1.
    pose proof (senders_insert _ i _ (Guardian.Sending v) Hp) as Hs2.
    destruct (_ <? _)%nat; cbn [Guardian.pcs Guardian.errCh];
      rewrite length_insert; cbn in Hs1, Hs2; (split; [exact Hlen|]);
      [rewrite length_app; cbn; lia|lia].
  - pose proof (senders_insert _ i _ Guardian.Returned Hp) as Hs.
    rewrite length_insert. cbn in Hs. split; [exact Hlen|lia].
  - pose proof (senders_insert _ i _ Guardian.Returned Hp) as Hs.
    rewrite length_insert. cbn in Hs. split; [exact Hlen|lia].
Qed.

Lemma spawned_roomy (g : Guardian.Guardian) : Guardian.roomy sched (Guardian.spawned g sched).
Proof.
  unfold Guardian.roomy, Guardian.spawned. cbn. rewrite length_map. split; [reflexivity|].
  induction sched as [|pr l IH]; cbn; lia.
Qed.

(** A goroutine that is about to send finds room in a channel made for
    [len(presets)] errors. *)
Lemma sender_finds_room (st : Guardian.fanout) (i : nat) (v : option error) :
  Guardian.roomy sched st -> Guardian.pcs st !! i = Some (Guardian.Sending v) ->
  (length (Guardian.errCh st) < length sched)%nat.
Proof.
  intros [_ Hroom] Hp.
  pose proof (senders_insert _ i _ Guardian.Returned Hp) as Hs. cbn in Hs. lia.
Qed.

Lemma step_advances (i : nat) (st : Guardian.fanout) (p : Guardian.pc) :
  Guardian.roomy sched st -> (i < length sched)%nat -> Guardian.pcs st !! i = Some p ->
  exists p', Guardian.pcs (Guardian.step u (length sched) sched i st) !! i = Some p' /\
             (Guardian.togo p' <= Guardian.togo p - 1)%nat.
Proof.
  intros Hroomy Hi Hp. pose proof Hroomy as [Hlen _].
  destruct (lookup_lt_is_Some_2 sched i Hi) as [[preset rule] Hs].
  unfold Guardian.step. rewrite Hs, Hp.
  assert (Hlt : (i < length (Guardian.pcs st))%nat) by lia.
  unfold Guardian.goroutine. destruct p.
  - destruct (s3_del_err _); cbn [Guardian.pcs]; rewrite list_lookup_insert_eq by exact Hlt;
      eexists; (split; [reflexivity|cbn; lia]).
  - destruct (Guardian.err st); cbn [Guardian.pcs];
      rewrite list_lookup_insert_eq by exact Hlt; eexists; (split; [reflexivity|cbn; lia]).
  - cbn [Guardian.pcs]. rewrite list_lookup_insert_eq by exact Hlt.
    eexists; (split; [reflexivity|cbn; lia]).
  - pose proof (sender_finds_room st i v Hroomy Hp) as Hfree.
    apply Nat.ltb_lt in Hfree. rewrite Hfree. cbn [Guardian.pcs].
    rewrite list_lookup_insert_eq by exact Hlt. eexists; (split; [reflexivity|cbn; lia]).
  - cbn [Guardian.pcs]. rewrite list_lookup_insert_eq by exact Hlt.
    eexists; (split; [reflexivity|cbn; lia]).
  - cbn [Guardian.pcs]. rewrite list_lookup_insert_eq by exact Hlt.
    eexists; (split; [reflexivity|cbn; lia]).
Qed.

Lemma steps_advance (i : nat) (k : nat) :
  forall (st : Guardian.fanout) (p : Guardian.pc),
  Guardian.roomy sched st -> (i < length sched)%nat -> Guardian.pcs st !! i = Some p ->
  exists p',
    Guardian.pcs (Nat.iter k (Guardian.step u (length sched) sched i) st) !! i = Some p' /\
    (Guardian.togo p' <= Guardian.togo p - k)%nat /\
    Guardian.roomy sched (Nat.iter k (Guardian.step u (length sched) sched i) st).
Proof.
  induction k as [|k IH]; intros st p Hroomy Hi Hp.
  - exists p. cbn. repeat split; [exact Hp|lia|apply Hroomy|apply Hroomy].
  - destruct (IH st p Hroomy Hi Hp) as (p1 & Hp1 & Hgo1 & Hroomy1).
    destruct (step_advances i _ p1 Hroomy1 Hi Hp1) as (p2 & Hp2 & Hgo2).
    exists p2. cbn [Nat.iter]. split; [exact Hp2|]. split; [lia|].
    now apply step_roomy.
Qed.

Lemma step_Returned_stays (cap i j : nat) (st : Guardian.fanout) :
  Guardian.pcs st !! j = Some Guardian.Returned ->
  Guardian.pcs (Guardian.step u cap sched i st) !! j = Some Guardian.Returned.
Proof.
  intros Hj. unfold Guardian.step.
  destruct (sched !! i) as [[preset rule]|]; [|exact Hj].
  destruct (Guardian.pcs st !! i) as [p|] eqn:Hp; [|exact Hj].
  destruct (decide (i = j)) as [->|Hne].
  - rewrite Hj in Hp. injection Hp as <-. cbn.
    rewrite list_lookup_insert_eq; [reflexivity|]. now apply lookup_lt_Some in Hj.
  - assert (Hpcs : Guardian.pcs (Guardian.goroutine u cap preset p st).2 = Guardian.pcs st).
    { unfold Guardian.goroutine. destruct p; try reflexivity.
      - now destruct (s3_del_err _).
      - now destruct (_ <? _)%nat. }
    destruct (Guardian.goroutine u cap preset p st) as [p' st']. cbn in *.
    rewrite list_lookup_insert_ne by exact Hne. now rewrite Hpcs.
Qed.

Lemma finish_returns (i : nat) (st : Guardian.fanout) :
  Guardian.roomy sched st -> (i < length sched)%nat ->
  Guardian.pcs (Guardian.finish u (length sched) sched i st) !! i = Some Guardian.Returned /\
  Guardian.roomy sched (Guardian.finish u (length sched) sched i st) /\
  (forall j, Guardian.pcs st !! j = Some Guardian.Returned ->
     Guardian.pcs (Guardian.finish u (length sched) sched i st) !! j
     = Some Guardian.Returned).
Proof.
  intros Hroomy Hi. pose proof Hroomy as [Hlen _].
  destruct (lookup_lt_is_Some_2 (Guardian.pcs st) i ltac:(lia)) as [p Hp].
  destruct (steps_advance i 5 st p Hroomy Hi Hp) as (p' & Hp' & Hgo & Hroomy').
  split; [|split; [exact Hroomy'|]].
  - unfold Guardian.finish. rewrite Hp'. f_equal.
    destruct p'; cbn in Hgo; destruct p; cbn in Hgo; try lia; reflexivity.
  - intros j Hj. unfold Guardian.finish. cbn [Nat.iter].
    now repeat apply step_Returned_stays.
Qed.

(** [wg.Wait()] comes back: every goroutine returns. *)
Lemma Wait_returns (st : Guardian.fanout) :
  Guardian.roomy sched st ->
  forallb Guardian.returned
    (Guardian.pcs (Guardian.Wait u (length sched) sched st)) = true.
Proof.
  intros Hroomy.
  assert (Hfold : forall l st0, Guardian.roomy sched st0 -> Forall (fun i => (i < length sched)%nat) l ->
            let st' := fold_left (fun st i => Guardian.finish u (length sched) sched i st)
                         l st0 in
            Guardian.roomy sched st' /\
            forall j, j ∈ l \/ Guardian.pcs st0 !! j = Some Guardian.Returned ->
                      Guardian.pcs st' !! j = Some Guardian.Returned).
  { induction l as [|i l IH]; intros st0 Hr0 Hl; cbn.
    - split; [exact Hr0|]. intros j [Hj|Hj]; [now apply elem_of_nil in Hj|exact Hj].
    - apply Forall_cons in Hl as [Hi Hl].
      destruct (finish_returns i st0 Hr0 Hi) as (Hret & Hr1 & Hstay).
      destruct (IH _ Hr1 Hl) as [Hr2 Hall]. split; [exact Hr2|].
      intros j [Hj|Hj].
      + apply elem_of_cons in Hj as [->|Hj]; apply Hall; [now right|now left].
      + apply Hall. right. now apply Hstay. }
  destruct (Hfold (seq 0 (length sched)) st Hroomy) as [[Hlen _] Hall].
  { apply Forall_forall. intros i Hi. apply elem_of_seq in Hi. lia. }
  apply forallb_returned. intros i Hi. apply Hall. left. apply elem_of_seq.
  unfold Guardian.Wait in Hi. rewrite Hlen in Hi. lia.
Qed.

End DeleteGoroutines.

Section GuardedHandlers.
Context {ext : Externals}.
Variables (g : Guardian.Guardian) (sched : list (string * string)) (elapsed : string).
Variables (w : ResponseWriter) (r : Request) (u : URL).
Hypothesis present : String.eqb (FormValue r "url") "" = false.
Hypothesis parsed : url_Parse (FormValue r "url") = Ok u.

Lemma HandleStore_processing :
  Guardian.processing (Guardian.HandleStore g sched elapsed w r).2
    = delete (Guardian.url_key u) (Guardian.processing g).
Proof.
  unfold Guardian.HandleStore. rewrite present, parsed, MarkProcessing_true.
  cbn [negb].
  pose proof (transformAllAndStore_processing
    (Guardian.mkGuardian (Guardian.Bucket g) (Guardian.Cache g)
       (<[Guardian.url_key u:=true]> (Guardian.processing g))) sched u) as [Hp _].
  destruct (Guardian.transformAllAndStore _ sched u) as [g2 errCh]. cbn in Hp.
  destruct (negb (String.eqb (err_lines errCh) "")); cbn; rewrite Hp;
    apply delete_insert_eq.
Qed.

(** What [HandleDelete] returns once it is past the guard: [wg.Wait()] has
    come back, and the answer is made from what the channel holds. *)
Lemma HandleDelete_past_guard (steps : list nat) :
  let st := Guardian.Wait u (length sched) sched
              (Guardian.run u (length sched) sched steps
                 (Guardian.spawned
                    (Guardian.mkGuardian (Guardian.Bucket g) (Guardian.Cache g)
                       (<[Guardian.url_key u := true]> (Guardian.processing g))) sched)) in
  Guardian.HandleDelete g sched steps elapsed w r
  = (match Guardian.errCh st with
     | [] => Header_Add "X-Peatix-Elapsed-Time" elapsed w
     | _ :: _ => http_Error w (err_lines (map Guardian.format_s (Guardian.errCh st))) 500
     end,
     Guardian.UnmarkProcessing (Guardian.state st) u).
Proof.
  intros st. unfold Guardian.HandleDelete.
  rewrite present, parsed, MarkProcessing_true. cbn [negb]. fold st.
  assert (Hroomy : Guardian.roomy sched st).
  { apply (goroutines_keep u sched (length sched) (Guardian.roomy sched)).
    - intros i st0. apply step_roomy.
    - apply spawned_roomy. }
  assert (Hret : forallb Guardian.returned (Guardian.pcs st) = true).
  { apply Wait_returns.
    apply (goroutines_keep u sched (length sched) (Guardian.roomy sched)).
    - intros i st0. apply step_roomy.
    - apply spawned_roomy. }
  rewrite Hret.
  destruct (String.eqb (err_lines (map Guardian.format_s (Guardian.errCh st))) "") eqn:Hb;
    cbn [negb].
  - apply err_lines_empty in Hb. apply map_eq_nil in Hb. now rewrite Hb.
  - destruct (Guardian.errCh st); [discriminate Hb|reflexivity].
Qed.

Lemma HandleDelete_processing (steps : list nat) :
  Guardian.processing (Guardian.HandleDelete g sched steps elapsed w r).2
    = delete (Guardian.url_key u) (Guardian.processing g).
Proof.
  rewrite HandleDelete_past_guard. cbn [snd Guardian.UnmarkProcessing Guardian.processing].
  set (g1 := Guardian.mkGuardian _ _ _).
  assert (Hkept : forall i st,
            Guardian.processing (Guardian.state st) = Guardian.processing g1 ->
            Guardian.processing (Guardian.state (Guardian.step u (length sched) sched i st))
            = Guardian.processing g1).
  { intros i st0 H0. now rewrite step_processing. }
  destruct (goroutines_keep u sched (length sched)
              (fun st => Guardian.processing (Guardian.state st) = Guardian.processing g1)
              Hkept steps (Guardian.spawned g1 sched) eq_refl) as [_ ->].
  apply delete_insert_eq.
Qed.

(** A handler that runs alone leaves the in-flight set as its acquire and
    release do. *)
Lemma HandleStore_as_advance :
  Guardian.processing (Guardian.HandleStore g sched elapsed w r).2
    = Guardian.processing
        (Guardian.race u u [false; false] g Guardian.Arrived Guardian.Arrived).1.1.
Proof. rewrite HandleStore_processing. cbn. now rewrite delete_insert_eq. Qed.

End GuardedHandlers.

(** C8: a PUT or DELETE that got past validation and the guard leaves no
    mark for its URL behind, whether the run reported errors or not and, for
    a DELETE, however its goroutines interleave; the marks of other URLs are
    as they were. *)
Theorem guarded_handlers_release_mark {ext : Externals}
    (g : Guardian.Guardian) (sched : list (string * string)) (steps : list nat)
    (elapsed : string) (w : ResponseWriter) (r : Request) (u : URL) :
  String.eqb (FormValue r "url") "" = false ->
  url_Parse (FormValue r "url") = Ok u ->
  (Guardian.MarkProcessing g u).1 = true ->
  Guardian.processing (Guardian.HandleStore g sched elapsed w r).2
    = delete (Guardian.url_key u) (Guardian.processing g) /\
  Guardian.processing (Guardian.HandleDelete g sched steps elapsed w r).2
    = delete (Guardian.url_key u) (Guardian.processing g) /\
  Guardian.processing (Guardian.HandleStore g sched elapsed w r).2
    !! Guardian.url_key u = None /\
  Guardian.processing (Guardian.HandleDelete g sched steps elapsed w r).2
    !! Guardian.url_key u = None.
Proof.
  intros Hraw Hparse _.
  rewrite (HandleStore_processing g sched elapsed w r u Hraw Hparse).
  rewrite (HandleDelete_processing g sched elapsed w r u Hraw Hparse).
  repeat split; apply lookup_delete_eq.
Qed.

Lemma guarded_handlers_release_mark_witness :
  Guardian.processing
    (Guardian.HandleStore (ext := Sample.absent) Sample.idle Guardian.presets "0.01"
       newResponseWriter Sample.put).2
    !! Guardian.url_key (ext := Sample.absent) Sample.source = None.
Proof.
  apply (guarded_handlers_release_mark (ext := Sample.absent) Sample.idle Guardian.presets
           [] "0.01" newResponseWriter Sample.put Sample.source);
    vm_compute; reflexivity.
Defined.

(** ** Dispatcher *)

Lemma matchAny_true (whitelist : list Dispatcher.Regexp) (rawValue : string) :
  Dispatcher.matchAny whitelist rawValue = true <->
  Exists (fun pat => Dispatcher.MatchString pat rawValue = true) whitelist.
Proof.
  induction whitelist as [|pat l IH]; cbn.
  - split; [discriminate|]. intros HE. inversion HE.
  - destruct (Dispatcher.MatchString pat rawValue) eqn:Hm.
    + split; [intros _; now constructor|reflexivity].
    + rewrite IH. split; [now apply Exists_cons_tl|].
      intros HE. inversion HE; subst; [congruence|assumption].
Qed.

Lemma matchAny_false (whitelist : list Dispatcher.Regexp) (rawValue : string) :
  Dispatcher.matchAny whitelist rawValue = false <->
  Forall (fun pat => Dispatcher.MatchString pat rawValue = false) whitelist.
Proof.
  induction whitelist as [|pat l IH]; cbn.
  - split; [constructor|reflexivity].
  - destruct (Dispatcher.MatchString pat rawValue) eqn:Hm.
    + split; [discriminate|]. intros HF. inversion HF; subst. congruence.
    + rewrite IH. split; [now constructor|]. intros HF. now inversion HF.
Qed.

(** C10: with a [url] parameter present, an empty whitelist lets every
    request through to the backend; a non-empty whitelist none of whose
    patterns matches answers 403 and leaves the backend alone; one matching
    pattern is enough to reach the backend. *)
Theorem HandleFetch_whitelist {B T : Type} {backend : Dispatcher.Backend B T}
    (d : Dispatcher.Dispatcher) (b : B) (w : ResponseWriter) (r : Request) :
  String.eqb (FormValue r "url") "" = false ->
  (Dispatcher.whitelist d = [] ->
     Dispatcher.HandleFetch d b w r = Dispatcher.Serve b w r) /\
  (Dispatcher.whitelist d <> [] ->
   Forall (fun pat => Dispatcher.MatchString pat (FormValue r "url") = false)
          (Dispatcher.whitelist d) ->
     Dispatcher.HandleFetch d b w r
       = (http_Error w "Specified url not allowed" 403, b, []) /\
     (status w = None -> status (Dispatcher.HandleFetch d b w r).1.1 = Some 403)) /\
  (Exists (fun pat => Dispatcher.MatchString pat (FormValue r "url") = true)
          (Dispatcher.whitelist d) ->
     Dispatcher.HandleFetch d b w r = Dispatcher.Serve b w r).
Proof.
  intros Hraw. unfold Dispatcher.HandleFetch. rewrite Hraw.
  split; [|split].
  - intros ->. reflexivity.
  - intros Hne Hall. apply matchAny_false in Hall. rewrite Hall.
    destruct (Dispatcher.whitelist d) as [|pat l]; [congruence|]. cbn.
    split; [reflexivity|]. intros Hw.
    change (status (http_Error w "Specified url not allowed" 403) = Some 403).
    now apply http_Error_status.
  - intros Hex. apply matchAny_true in Hex. rewrite Hex.
    now destruct (length (Dispatcher.whitelist d) =? 0)%nat.
Qed.

Lemma HandleFetch_whitelist_witness :
  Dispatcher.HandleFetch (backend := Dispatcher.s3_backend (ext := Sample.absent))
    (Sample.strict_dispatcher Sample.idle) Sample.s3 newResponseWriter (Sample.get "thumb")
  = Dispatcher.Serve (Backend := Dispatcher.s3_backend (ext := Sample.absent))
      Sample.s3 newResponseWriter (Sample.get "thumb").
Proof.
  apply (HandleFetch_whitelist (backend := Dispatcher.s3_backend (ext := Sample.absent))
           (Sample.strict_dispatcher Sample.idle) Sample.s3 newResponseWriter
           (Sample.get "thumb")).
  - vm_compute; reflexivity.
  - apply Exists_cons_hd. vm_compute; reflexivity.
Defined.

(** The same request for a source outside the whitelist. *)
Example HandleFetch_forbidden :
  Dispatcher.HandleFetch (backend := Dispatcher.s3_backend (ext := Sample.absent))
    (Sample.strict_dispatcher Sample.idle) Sample.s3 newResponseWriter
    (mkRequest "GET" [("url", "https://y/a.jpg"); ("preset", "thumb")])
  = (http_Error newResponseWriter "Specified url not allowed" 403, Sample.s3, []).
Proof. vm_compute. reflexivity. Qed.

(** ** The disk *)

Section DiskFacts.

Lemma node_nested_ind (P : os.node -> Prop) :
  (forall i c, P (os.File i c)) ->
  (forall i es, Forall (fun e => P e.2) es -> P (os.Dir i es)) ->
  forall n, P n.
Proof.
  intros HF HD. fix IH 1. intros [i c|i es]; [apply HF|].
  apply HD. induction es as [|[x c] es IHes]; constructor; [apply IH|exact IHes].
Qed.

Lemma lookup_entry_app (x : string) (es1 es2 : list (string * os.node)) :
  x ∉ map fst es1 -> os.lookup_entry x (es1 ++ es2) = os.lookup_entry x es2.
Proof.
  induction es1 as [|[y c] es1 IH]; cbn; [reflexivity|]. intros Hx.
  apply not_elem_of_cons in Hx as [Hne Hx].
  destruct (String.eqb_spec x y); [congruence|]. now apply IH.
Qed.

Lemma lookup_entry_head (x : string) (c : os.node) (es : list (string * os.node)) :
  os.lookup_entry x ((x, c) :: es) = Some c.
Proof. cbn. now rewrite String.eqb_refl. Qed.

Lemma lookup_entry_elem (x : string) (c : os.node) (es : list (string * os.node)) :
  os.lookup_entry x es = Some c -> (x, c) ∈ es.
Proof.
  induction es as [|[y d] es IH]; cbn; [discriminate|].
  destruct (String.eqb_spec x y) as [->|Hne].
  - intros [= ->]. apply elem_of_cons. now left.
  - intros H. apply elem_of_cons. right. now apply IH.
Qed.

Lemma lookup_entry_None (x : string) (es : list (string * os.node)) :
  x ∉ map fst es -> os.lookup_entry x es = None.
Proof.
  induction es as [|[y d] es IH]; cbn; [reflexivity|]. intros Hx.
  apply not_elem_of_cons in Hx as [Hne Hx].
  destruct (String.eqb_spec x y); [congruence|]. now apply IH.
Qed.

Lemma replace_entry_app (x : string) (c c' : os.node) (es1 es2 : list (string * os.node)) :
  x ∉ map fst es1 ->
  os.replace_entry x c' (es1 ++ (x, c) :: es2) = es1 ++ (x, c') :: es2.
Proof.
  induction es1 as [|[y d] es1 IH]; cbn.
  - intros _. now rewrite String.eqb_refl.
  - intros Hx. apply not_elem_of_cons in Hx as [Hne Hx].
    destruct (String.eqb_spec x y); [congruence|]. now rewrite IH.
Qed.

Lemma del_entry_app (x : string) (c : os.node) (es1 es2 : list (string * os.node)) :
  x ∉ map fst es1 -> os.del_entry x (es1 ++ (x, c) :: es2) = es1 ++ es2.
Proof.
  induction es1 as [|[y d] es1 IH]; cbn.
  - intros _. now rewrite String.eqb_refl.
  - intros Hx. apply not_elem_of_cons in Hx as [Hne Hx].
    destruct (String.eqb_spec x y); [congruence|]. now rewrite IH.
Qed.

Lemma lookup_replace_entry (x : string) (c c' : os.node) (es : list (string * os.node)) :
  os.lookup_entry x es = Some c ->
  os.lookup_entry x (os.replace_entry x c' es) = Some c'.
Proof.
  induction es as [|[y d] es IH]; cbn; [discriminate|].
  destruct (String.eqb_spec x y) as [->|Hne]; cbn.
  - intros _. now rewrite String.eqb_refl.
  - intros H. destruct (String.eqb_spec x y); [congruence|]. now apply IH.
Qed.

Lemma lookup_replace_entry_ne (x y : string) (c' : os.node) (es : list (string * os.node)) :
  x <> y -> os.lookup_entry y (os.replace_entry x c' es) = os.lookup_entry y es.
Proof.
  intros Hxy. induction es as [|[z d] es IH]; cbn; [reflexivity|].
  destruct (String.eqb_spec x z) as [->|Hne]; cbn.
  - destruct (String.eqb_spec y z); [congruence|reflexivity].
  - destruct (String.eqb_spec y z); [reflexivity|exact IH].
Qed.

Lemma lookup_del_entry_ne (x y : string) (es : list (string * os.node)) :
  x <> y -> os.lookup_entry y (os.del_entry x es) = os.lookup_entry y es.
Proof.
  intros Hxy. induction es as [|[z d] es IH]; cbn; [reflexivity|].
  destruct (String.eqb_spec x z) as [->|Hne]; cbn.
  - destruct (String.eqb_spec y z); [congruence|reflexivity].
  - destruct (String.eqb_spec y z); [reflexivity|exact IH].
Qed.

Lemma lookup_del_entry (x : string) (es : list (string * os.node)) :
  NoDup (map fst es) -> os.lookup_entry x (os.del_entry x es) = None.
Proof.
  induction es as [|[y d] es IH]; cbn; [reflexivity|]. intros Hnd.
  apply NoDup_cons in Hnd as [Hy Hnd].
  destruct (String.eqb_spec x y) as [->|Hne]; cbn.
  - now apply lookup_entry_None.
  - destruct (String.eqb_spec x y); [congruence|]. now apply IH.
Qed.

Lemma replace_entry_same (x : string) (c : os.node) (es : list (string * os.node)) :
  os.lookup_entry x es = Some c -> os.replace_entry x c es = es.
Proof.
  induction es as [|[y d] es IH]; cbn; [reflexivity|].
  destruct (String.eqb_spec x y) as [->|Hne].
  - now intros [= ->].
  - intros H. now rewrite IH.
Qed.

Lemma replace_replace_entry (x : string) (c1 c2 : os.node) (es : list (string * os.node)) :
  os.replace_entry x c2 (os.replace_entry x c1 es) = os.replace_entry x c2 es.
Proof.
  induction es as [|[y d] es IH]; cbn; [reflexivity|].
  destruct (String.eqb_spec x y) as [->|Hne]; cbn.
  - now rewrite String.eqb_refl.
  - destruct (String.eqb_spec x y); [congruence|]. now rewrite IH.
Qed.

Lemma del_replace_entry (x : string) (c1 : os.node) (es : list (string * os.node)) :
  os.del_entry x (os.replace_entry x c1 es) = os.del_entry x es.
Proof.
  induction es as [|[y d] es IH]; cbn; [reflexivity|].
  destruct (String.eqb_spec x y) as [->|Hne]; cbn.
  - now rewrite String.eqb_refl.
  - destruct (String.eqb_spec x y); [congruence|]. now rewrite IH.
Qed.

Lemma lookup_keep_entries (g : os.node -> option os.node) (x : string) (c : os.node)
    (es : list (string * os.node)) :
  NoDup (map fst es) -> os.lookup_entry x es = Some c ->
  os.lookup_entry x (os.keep_entries g es) = g c.
Proof.
  induction es as [|[y d] es IH]; cbn; [discriminate|]. intros Hnd.
  apply NoDup_cons in Hnd as [Hy Hnd].
  destruct (String.eqb_spec x y) as [->|Hne].
  - intros [= ->]. destruct (g c) as [c'|]; [apply lookup_entry_head|].
    apply lookup_entry_None. intros Hin. apply Hy.
    clear -Hin. induction es as [|[z e] es IH]; cbn in *; [exact Hin|].
    destruct (g e); cbn in Hin.
    + apply elem_of_cons in Hin as [->|Hin]; apply elem_of_cons; auto.
    + apply elem_of_cons; auto.
  - intros Hl. destruct (g d); cbn.
    + destruct (String.eqb_spec x y); [congruence|]. now apply IH.
    + now apply IH.
Qed.

Lemma wf_Dir (i : os.inode) (es : list (string * os.node)) :
  os.wf (os.Dir i es) = true <->
  NoDup (map fst es) /\ Forall (fun e => os.wf e.2 = true) es.
Proof.
  cbn. rewrite andb_true_iff, bool_decide_eq_true, forallb_forall, Forall_forall.
  split; intros [H1 H2]; split; try exact H1; intros e He; apply H2;
    now apply list_elem_of_In.
Qed.

Lemma wf_find (p : list string) (d n : os.node) :
  os.wf d = true -> os.find p d = Some n -> os.wf n = true.
Proof.
  revert d. induction p as [|x p IH]; intros d Hwf; cbn.
  - now intros [= ->].
  - destruct d as [i c|i es]; [discriminate|].
    destruct (os.lookup_entry x es) as [c|] eqn:Hl; [|discriminate].
    apply wf_Dir in Hwf as [_ Hall]. apply lookup_entry_elem in Hl.
    rewrite Forall_forall in Hall. apply (IH c). exact (Hall _ Hl).
Qed.

Lemma find_app (p q : list string) (d : os.node) :
  os.find (p ++ q) d = os.find p d ≫= os.find q.
Proof.
  revert d. induction p as [|x p IH]; intros d; cbn; [reflexivity|].
  destruct d as [i c|i es]; [reflexivity|].
  destruct (os.lookup_entry x es); [apply IH|reflexivity].
Qed.

Lemma put_Some (p : list string) (n' d : os.node) :
  is_Some (os.put p (Some n') d).
Proof.
  destruct p as [|x p]; cbn; [eauto|]. destruct d as [i c|i es]; [eauto|].
  destruct (os.lookup_entry x es); [|eauto]. destruct (os.put p (Some n') n); eauto.
Qed.

Lemma put_cons_Some (x : string) (p : list string) (o : option os.node) (d : os.node) :
  is_Some (os.put (x :: p) o d).
Proof.
  cbn. destruct d as [i c|i es]; [eauto|].
  destruct (os.lookup_entry x es); [|eauto]. destruct (os.put p o n); eauto.
Qed.

Lemma put_same (p : list string) (d n : os.node) :
  os.find p d = Some n -> os.put p (Some n) d = Some d.
Proof.
  revert d. induction p as [|x p IH]; intros d; cbn; [now intros [= ->]|].
  destruct d as [i c|i es]; [discriminate|].
  destruct (os.lookup_entry x es) as [c|] eqn:Hl; [|discriminate].
  intros Hf. rewrite (IH c Hf). now rewrite replace_entry_same.
Qed.

(** After a replacement at [p], the new entry is found at [p], and a further
    replacement at [p] forgets the first. *)
Lemma find_graft (p : list string) (d n n' : os.node) :
  os.find p d = Some n ->
  os.find p (os.graft p (Some n') d) = Some n' /\
  forall o, os.put p o (os.graft p (Some n') d) = os.put p o d.
Proof.
  unfold os.graft. revert d. induction p as [|x p IH]; intros d; cbn; [easy|].
  destruct d as [i c|i es]; [discriminate|].
  destruct (os.lookup_entry x es) as [c|] eqn:Hl; [|discriminate].
  intros Hf. destruct (IH c Hf) as [IH1 IH2].
  destruct (put_Some p n' c) as [c' Hc']. rewrite Hc' in *. cbn in *.
  rewrite (lookup_replace_entry x c c' es Hl). split; [exact IH1|].
  intros o. rewrite IH2. destruct (os.put p o c).
  - now rewrite replace_replace_entry.
  - now rewrite del_replace_entry.
Qed.

Lemma put_app (p q : list string) (o : option os.node) (d n : os.node) :
  os.find p d = Some n -> os.put (p ++ q) o d = os.put p (os.put q o n) d.
Proof.
  revert d. induction p as [|x p IH]; intros d; cbn; [now intros [= ->]|].
  destruct d as [i c|i es]; [discriminate|].
  destruct (os.lookup_entry x es) as [c|] eqn:Hl; [|discriminate].
  intros Hf. now rewrite (IH c Hf).
Qed.

Lemma remove_at_graft (p : list string) (d n : os.node) :
  p <> [] -> os.find p d = Some n ->
  os.remove_at p d =
    match os.unremovable n with
    | Some e => Fail e
    | None => Ok (os.graft p None d)
    end.
Proof.
  unfold os.graft. revert d. induction p as [|x p IH]; intros d Hne; [congruence|].
  cbn. destruct d as [i c|i es]; [discriminate|].
  destruct (os.lookup_entry x es) as [c|] eqn:Hl; [|discriminate].
  destruct p as [|y p].
  - cbn. intros [= ->]. now destruct (os.unremovable n).
  - intros Hf. rewrite (IH c ltac:(discriminate) Hf).
    destruct (os.unremovable n); [reflexivity|].
    destruct (put_cons_Some y p None c) as [c' Hc']. now rewrite Hc'.
Qed.

(** What is found below a replaced entry is found in the replacement. *)
Lemma find_graft_app (p q : list string) (o : option os.node) (d n : os.node) :
  os.wf d = true -> os.find p d = Some n -> p <> [] \/ is_Some o ->
  os.find (p ++ q) (os.graft p o d) = o ≫= os.find q.
Proof.
  unfold os.graft. revert d. induction p as [|x p IH]; intros d Hwf Hf Hor.
  - destruct Hor as [Hne|[n' ->]]; [congruence|]. reflexivity.
  - cbn in Hf |- *. destruct d as [i c|i es]; [discriminate|].
    destruct (os.lookup_entry x es) as [c|] eqn:Hl; [|discriminate].
    apply wf_Dir in Hwf as [Hnd Hall].
    assert (Hwfc : os.wf c = true).
    { rewrite Forall_forall in Hall. exact (Hall _ (lookup_entry_elem _ _ _ Hl)). }
    destruct (os.put p o c) as [c'|] eqn:Hput; cbn.
    + rewrite (lookup_replace_entry x c c' es Hl).
      destruct p as [|y p].
      * cbn in Hput. subst o. reflexivity.
      * specialize (IH c Hwfc Hf ltac:(left; discriminate)).
        now rewrite Hput in IH.
    + rewrite lookup_del_entry by exact Hnd.
      destruct p as [|y p]; [cbn in Hput; now subst o|].
      destruct (put_cons_Some y p o c) as [c' Hc']. congruence.
Qed.

(** A file that is not below the replaced entry is found as before. *)
Lemma find_graft_other (p q : list string) (o : option os.node) (d : os.node)
    (i : os.inode) (content : string) :
  ~ p `prefix_of` q ->
  os.find q d = Some (os.File i content) ->
  os.find q (os.graft p o d) = Some (os.File i content).
Proof.
  unfold os.graft. revert q d. induction p as [|x p IH]; intros q d Hpre Hq.
  - exfalso. apply Hpre. apply prefix_nil.
  - cbn. destruct d as [j c|j es]; [exact Hq|].
    destruct (os.lookup_entry x es) as [c|] eqn:Hl; [|exact Hq].
    destruct q as [|y q]; [discriminate Hq|]. cbn in Hq.
    destruct (decide (x = y)) as [->|Hxy].
    + assert (Hpq : ~ p `prefix_of` q).
      { intros Hp. apply Hpre. now apply prefix_cons. }
      rewrite Hl in Hq. specialize (IH q c Hpq Hq).
      destruct (os.put p o c) as [c'|] eqn:Hput; cbn in *.
      * now rewrite (lookup_replace_entry y c c' es Hl).
      * destruct p as [|z p]; [exfalso; apply Hpq, prefix_nil|].
        destruct (put_cons_Some z p o c) as [c' Hc']. congruence.
    + destruct (os.put p o c) as [c'|]; cbn.
      * now rewrite lookup_replace_entry_ne.
      * now rewrite lookup_del_entry_ne.
Qed.

Lemma append_cons (c : Ascii.ascii) (s t : string) :
  String c s +:+ t = String c (s +:+ t).
Proof. reflexivity. Qed.

Lemma append_empty_r (s : string) : s +:+ "" = s.
Proof. induction s as [|c s IH]; [reflexivity|]. now rewrite append_cons, IH. Qed.

Lemma append_assoc (s t r : string) : (s +:+ t) +:+ r = s +:+ t +:+ r.
Proof. induction s as [|c s IH]; [reflexivity|]. now rewrite !append_cons, IH. Qed.

Lemma no_slash_app (s t : string) :
  os.no_slash (s +:+ t) = os.no_slash s && os.no_slash t.
Proof.
  induction s as [|c s IH]; [reflexivity|]. rewrite append_cons. cbn.
  now rewrite IH, andb_assoc.
Qed.

Lemma split_from_component (x rest cur : string) :
  os.no_slash x = true ->
  os.split_from (x +:+ rest) cur = os.split_from rest (cur +:+ x).
Proof.
  revert cur. induction x as [|c x IH]; intros cur Hx.
  - now rewrite append_empty_r.
  - cbn in Hx. apply andb_true_iff in Hx as [Hc Hx]. rewrite append_cons. cbn.
    apply negb_true_iff in Hc. rewrite Hc, (IH _ Hx), append_assoc. reflexivity.
Qed.

Lemma split_from_slash (rest cur : string) :
  os.split_from (String os.slash rest) cur
    = (if String.eqb cur "" then [] else [cur]) ++ os.split_from rest "".
Proof. reflexivity. Qed.

(** Splitting the rendering of a path gives the path back. *)
Lemma split_render (p : list string) :
  Forall (fun x => os.component x = true) p -> os.split (os.render p) = p.
Proof.
  intros Hp. unfold os.split, os.render.
  change ("/" +:+ String.concat "/" p) with (String os.slash (String.concat "/" p)).
  rewrite split_from_slash. cbn [String.eqb app].
  induction Hp as [|x p Hx Hp IH]; [reflexivity|].
  apply andb_true_iff in Hx as [Hne Hx]. apply negb_true_iff in Hne.
  destruct p as [|y p].
  - cbn [String.concat]. rewrite <- (append_empty_r x) at 1.
    rewrite (split_from_component x "" "" Hx). change ("" +:+ x) with x.
    cbn. now rewrite Hne.
  - change (String.concat "/" (x :: y :: p))
      with (x +:+ String os.slash (String.concat "/" (y :: p))).
    rewrite (split_from_component x _ "" Hx), split_from_slash.
    change ("" +:+ x) with x. now rewrite Hne, IH.
Qed.

Lemma split_from_components (s cur : string) :
  os.no_slash cur = true ->
  Forall (fun x => os.component x = true) (os.split_from s cur).
Proof.
  revert cur. induction s as [|c s IH]; intros cur Hcur; cbn.
  - destruct (String.eqb cur "") eqn:He; constructor; [|constructor].
    unfold os.component. now rewrite He, Hcur.
  - destruct (Ascii.eqb c os.slash) eqn:Hc.
    + apply Forall_app. split; [|now apply IH].
      destruct (String.eqb cur "") eqn:He; constructor; [|constructor].
      unfold os.component. now rewrite He, Hcur.
    + apply IH. rewrite no_slash_app, Hcur. cbn. now rewrite Hc.
Qed.

Lemma Join_components (a b : string) :
  Forall (fun x => os.component x = true) (filepath.Join a b).
Proof. apply Forall_app. split; now apply split_from_components. Qed.

End DiskFacts.

Lemma Write_status (b : body_item) (w : ResponseWriter) :
  status w = None -> status (Write_ b w) = Some 200.
Proof. intros Hw. unfold Write_. cbn [status]. now apply WriteHeader_status. Qed.

(** ** Read path *)

(** What is written after the response has gone out does not reach the
    client. *)
Lemma redirect_after_response (code : Z) (loc : string) (w : ResponseWriter) :
  is_Some (status w) ->
  status (WriteHeader code (Header_Add "Location" loc w)) = status w /\
  sent_header (WriteHeader code (Header_Add "Location" loc w)) = sent_header w /\
  body (WriteHeader code (Header_Add "Location" loc w)) = body w.
Proof.
  intros Hs. rewrite WriteHeader_written by exact Hs. now cbn.
Qed.

Section ReadPath.
Context {ext : Externals}.
Variables (w : ResponseWriter) (r : Request) (u : URL) (preset : string).
Hypothesis target : GetTargetURL r = Ok u.
Hypothesis selector : GetPresetFromRequest r = Ok preset.

Lemma aws_Serve_miss (s : aws.S3Backend) :
  urlcache.Lookup (aws.cache s) (MakeCacheKey ["s3"; preset; URL_String u]) = "" ->
  aws.Serve s w r =
    let specificURL :=
      "http://" +:+ aws.bucketName s +:+ ".s3.amazonaws.com/" +:+ preset +:+ Path u in
    match http_Head specificURL with
    | Fail _ => (WriteHeader 302 (Header_Add "Location" (URL_String u) w), [])
    | Ok code =>
        if code =? 200
        then (WriteHeader 301 (Header_Add "Location" specificURL w),
              [aws.GoCacheSet (MakeCacheKey ["s3"; preset; URL_String u]) specificURL])
        else (WriteHeader 302 (Header_Add "Location" (URL_String u) w),
              [aws.GoStoreTransformedContent u])
    end.
Proof.
  intros Hmiss. unfold aws.Serve. rewrite target, selector, Hmiss. reflexivity.
Qed.

Lemma fs_Serve_miss (f : fs.Backend) (disk : os.node) :
  urlcache.Lookup (fs.cache f) (MakeCacheKey ["fs"; preset; URL_String u]) = "" ->
  fs.Serve f disk w r =
    let path := fs.EncodeFilename f preset (URL_String u) in
    match os.Stat path disk with
    | Ok _ =>
        (WriteHeader 302 (Header_Add "Location" (URL_String u)
           (http_ServeFile w (os.render path) disk)),
         fs.mkBackend (fs.root f)
           (urlcache.Set_ (fs.cache f) (MakeCacheKey ["fs"; preset; URL_String u])
              (os.render path))
           (fs.imageTTL f) (fs.presets f),
         [fs.GoStoreTransformedContent u])
    | Fail _ =>
        (WriteHeader 302 (Header_Add "Location" (URL_String u) w), f,
         [fs.GoStoreTransformedContent u])
    end.
Proof.
  intros Hmiss. unfold fs.Serve. rewrite target, selector, Hmiss. cbn [negb String.eqb].
  cbv zeta. now destruct (os.Stat _ disk).
Qed.

End ReadPath.

(** C2, as the code has it: on a cache miss, a probe that answers without
    confirming the derivative (S3: a status other than 200; file system:
    [Stat] fails) is followed by a 302 to the source and by one spawned
    materialisation, whatever the in-flight set holds, which the backends
    never read; when the [HEAD] request to S3 itself fails, the 302 is
    sent and nothing is spawned. *)
Theorem probe_miss_redirects_to_source {ext : Externals}
    (w : ResponseWriter) (r : Request) (u : URL) (preset : string) :
  GetTargetURL r = Ok u ->
  GetPresetFromRequest r = Ok preset ->
  status w = None ->
  assoc "Location" (header w) = None ->
  (forall s : aws.S3Backend,
     urlcache.Lookup (aws.cache s) (MakeCacheKey ["s3"; preset; URL_String u]) = "" ->
     let specificURL :=
       "http://" +:+ aws.bucketName s +:+ ".s3.amazonaws.com/" +:+ preset +:+ Path u in
     http_Head specificURL <> Ok 200 ->
     status (aws.Serve s w r).1 = Some 302 /\
     Location (aws.Serve s w r).1 = Some (URL_String u) /\
     (forall e, http_Head specificURL = Fail e -> (aws.Serve s w r).2 = []) /\
     (forall code, http_Head specificURL = Ok code ->
        (aws.Serve s w r).2 = [aws.GoStoreTransformedContent u])) /\
  (forall (f : fs.Backend) (disk : os.node) (e : error),
     urlcache.Lookup (fs.cache f) (MakeCacheKey ["fs"; preset; URL_String u]) = "" ->
     os.Stat (fs.EncodeFilename f preset (URL_String u)) disk = Fail e ->
     status (fs.Serve f disk w r).1.1 = Some 302 /\
     Location (fs.Serve f disk w r).1.1 = Some (URL_String u) /\
     (fs.Serve f disk w r).1.2 = f /\
     (fs.Serve f disk w r).2 = [fs.GoStoreTransformedContent u]).
Proof.
  intros Ht Hp Hw Hl.
  destruct (redirect_sent 302 (URL_String u) w Hw Hl) as [Hst Hloc].
  split.
  - intros s Hmiss specificURL Hnot.
    rewrite (aws_Serve_miss w r u preset Ht Hp s Hmiss). cbv zeta. fold specificURL.
    destruct (http_Head specificURL) as [code|e0] eqn:Hh.
    + destruct (code =? 200) eqn:Hc.
      * apply Z.eqb_eq in Hc. now subst.
      * cbn [fst snd]. repeat split; try assumption. intros e He. discriminate.
    + cbn [fst snd]. repeat split; try assumption. intros code Hcode. discriminate.
  - intros f disk e Hmiss Hstat.
    rewrite (fs_Serve_miss w r u preset Ht Hp f disk Hmiss). cbv zeta.
    rewrite Hstat. cbn [fst snd]. repeat split; assumption.
Qed.

Lemma probe_miss_redirects_to_source_witness :
  status (fs.Serve (ext := Sample.absent) Sample.fsb Sample.empty_disk newResponseWriter
            (Sample.get "thumb")).1.1 = Some 302 /\
  (fs.Serve (ext := Sample.absent) Sample.fsb Sample.empty_disk newResponseWriter
     (Sample.get "thumb")).2 = [fs.GoStoreTransformedContent Sample.source].
Proof.
  pose proof (proj2 (probe_miss_redirects_to_source (ext := Sample.absent)
    newResponseWriter (Sample.get "thumb") Sample.source "thumb"
    ltac:(vm_compute; reflexivity) ltac:(vm_compute; reflexivity)
    ltac:(reflexivity) ltac:(reflexivity))
    Sample.fsb Sample.empty_disk
    "stat /var/sharaq/thumb/5100774299828810971: no such file or directory"
    ltac:(vm_compute; reflexivity) ltac:(vm_compute; reflexivity)) as (H1 & _ & _ & H2).
  exact (conj H1 H2).
Defined.

(** C2 as stated fails twice.  When S3 cannot be reached the probe errors,
    the 302 is sent and no materialisation is spawned.  And while a run for
    the source is in flight at the dispatcher's guardian, a GET whose probe
    fails spawns a second one all the same. *)
Lemma probe_error_spawns_nothing_and_guard_is_not_asked :
  (http_Head (Externals := Sample.unreachable) "http://ix.peatix.com.s3.amazonaws.com/thumb/a.jpg"
     = Fail "dial tcp: i/o timeout" /\
   aws.Serve (ext := Sample.unreachable) Sample.s3 newResponseWriter (Sample.get "thumb")
     = (WriteHeader 302 (Header_Add "Location" "https://x/a.jpg" newResponseWriter), [])) /\
  (Guardian.processing (Dispatcher.guardian (Sample.open_dispatcher Sample.busy))
     !! Guardian.url_key (ext := Sample.absent) Sample.source = Some true /\
   (Dispatcher.HandleFetch (backend := Dispatcher.s3_backend (ext := Sample.absent))
      (Sample.open_dispatcher Sample.busy) Sample.s3 newResponseWriter
      (Sample.get "thumb")).2 = [aws.GoStoreTransformedContent Sample.source]).
Proof. vm_compute. repeat split; reflexivity. Qed.

(** C7, as the code has it: on a cache miss with a successful probe, the S3
    backend spawns the cache update (which, once run, enters the derivative's
    address under the key), answers 301 to that address and returns with
    nothing else spawned and nothing else written; the file system backend
    enters the derivative's path under the key and answers with the file
    itself through [http.ServeFile], never with a 301. *)
Theorem probe_hit_answers_with_derivative {ext : Externals}
    (w : ResponseWriter) (r : Request) (u : URL) (preset : string) :
  GetTargetURL r = Ok u ->
  GetPresetFromRequest r = Ok preset ->
  status w = None ->
  assoc "Location" (header w) = None ->
  (forall s : aws.S3Backend,
     let cacheKey := MakeCacheKey ["s3"; preset; URL_String u] in
     let specificURL :=
       "http://" +:+ aws.bucketName s +:+ ".s3.amazonaws.com/" +:+ preset +:+ Path u in
     urlcache.Lookup (aws.cache s) cacheKey = "" ->
     http_Head specificURL = Ok 200 ->
     aws.Serve s w r = (WriteHeader 301 (Header_Add "Location" specificURL w),
                        [aws.GoCacheSet cacheKey specificURL]) /\
     status (aws.Serve s w r).1 = Some 301 /\
     Location (aws.Serve s w r).1 = Some specificURL /\
     urlcache.Lookup (aws.cache (aws.run s (aws.GoCacheSet cacheKey specificURL))) cacheKey
       = specificURL) /\
  (forall (f : fs.Backend) (disk : os.node) (i : os.inode),
     let cacheKey := MakeCacheKey ["fs"; preset; URL_String u] in
     let path := fs.EncodeFilename f preset (URL_String u) in
     urlcache.Lookup (fs.cache f) cacheKey = "" ->
     os.Stat path disk = Ok i ->
     urlcache.Lookup (fs.cache (fs.Serve f disk w r).1.2) cacheKey = os.render path /\
     status (fs.Serve f disk w r).1.1 = status (http_ServeFile w (os.render path) disk) /\
     sent_header (fs.Serve f disk w r).1.1
       = sent_header (http_ServeFile w (os.render path) disk) /\
     body (fs.Serve f disk w r).1.1 = body (http_ServeFile w (os.render path) disk) /\
     status (fs.Serve f disk w r).1.1 = Some 200 /\
     (forall j content,
        os.find path disk = Some (os.File j content) ->
        body (fs.Serve f disk w r).1.1 = body w ++ [BodyFile (os.render path) content])).
Proof.
  intros Ht Hp Hw Hl. split.
  - intros s cacheKey specificURL Hmiss Hhead.
    rewrite (aws_Serve_miss w r u preset Ht Hp s Hmiss). cbv zeta.
    fold specificURL cacheKey. rewrite Hhead. cbn [Z.eqb Pos.eqb fst snd].
    destruct (redirect_sent 301 specificURL w Hw Hl) as [Hst Hloc].
    repeat split; try assumption.
    unfold aws.run, urlcache.Lookup, urlcache.Set_. cbn [aws.cache].
    now rewrite lookup_insert_eq.
  - intros f disk i cacheKey path Hmiss Hstat.
    rewrite (fs_Serve_miss w r u preset Ht Hp f disk Hmiss). cbv zeta.
    fold path cacheKey. rewrite Hstat. cbn [fst snd fs.cache].
    assert (Hserved : exists n, os.find path disk = Some n /\
              status (http_ServeFile w (os.render path) disk) = Some 200 /\
              forall j content, n = os.File j content ->
                http_ServeFile w (os.render path) disk
                = Write_ (BodyFile (os.render path) content) w).
    { unfold http_ServeFile. rewrite (split_render path (Join_components _ _)).
      unfold os.Stat in Hstat. destruct (os.find path disk) as [n|]; [|discriminate].
      exists n. split; [reflexivity|].
      destruct (os.stat_err (os.stat_of n)); [discriminate|]. split.
      - destruct n as [j content|j es]; [now apply Write_status|].
        destruct (os.lookup_entry "index.html" es) as [index|]; [|now apply Write_status].
        destruct (os.stat_err (os.stat_of index)); [now apply Write_status|].
        destruct index; now apply Write_status.
      - now intros j content ->. }
    destruct Hserved as (n & Hn & H200 & Hserved).
    destruct (redirect_after_response 302 (URL_String u)
                (http_ServeFile w (os.render path) disk)) as (-> & -> & ->); [eauto|].
    repeat split.
    + unfold urlcache.Lookup, urlcache.Set_. now rewrite lookup_insert_eq.
    + exact H200.
    + intros j content Hfile. rewrite Hn in Hfile. injection Hfile as ->.
      rewrite (Hserved j content eq_refl). unfold Write_, WriteHeader. rewrite Hw.
      reflexivity.
Qed.

Lemma probe_hit_answers_with_derivative_witness :
  aws.Serve (ext := Sample.present) Sample.s3 newResponseWriter (Sample.get "thumb")
  = (WriteHeader 301
       (Header_Add "Location" "http://ix.peatix.com.s3.amazonaws.com/thumb/a.jpg"
          newResponseWriter),
     [aws.GoCacheSet (Sample.cacheKey ["s3"; "thumb"; "https://x/a.jpg"])
        "http://ix.peatix.com.s3.amazonaws.com/thumb/a.jpg"]).
Proof.
  exact (proj1 (proj1 (probe_hit_answers_with_derivative (ext := Sample.present)
    newResponseWriter (Sample.get "thumb") Sample.source "thumb"
    ltac:(vm_compute; reflexivity) ltac:(vm_compute; reflexivity)
    ltac:(reflexivity) ltac:(reflexivity))
    Sample.s3 ltac:(vm_compute; reflexivity) ltac:(vm_compute; reflexivity))).
Defined.

(** C7 as stated fails on the file system backend.  With the derivative on
    disk and nothing cached, the GET is answered 200 with the file, not 301;
    the handler then goes on, spawns a materialisation and writes a 302 that
    reaches nobody. *)
Lemma fs_probe_hit_is_no_redirect_and_spawns :
  os.Stat Sample.derivative Sample.stored_disk = Ok (os.fresh 0) /\
  let '(resp, f, spawned) :=
    fs.Serve (ext := Sample.absent) Sample.fsb Sample.stored_disk newResponseWriter
      (Sample.get "thumb") in
  status resp = Some 200 /\
  body resp = [BodyFile "/var/sharaq/thumb/5100774299828810971" "100x100 of https://x/a.jpg"] /\
  Location resp = None /\
  header resp = [("Location", "https://x/a.jpg")] /\
  spawned = [fs.GoStoreTransformedContent Sample.source].
Proof. vm_compute. repeat split; reflexivity. Qed.

(** ** Materialisation *)

Section StoreFacts.
Context {ext : Externals}.


Lemma aws_storeBranch_cache (u : URL) (s : aws.S3Backend) (preset rule : string) :
  aws.cache (aws.storeBranch u s preset rule).1 = aws.cache s /\
  aws.presets (aws.storeBranch u s preset rule).1 = aws.presets s.
Proof.
  unfold aws.storeBranch. destruct (Transform rule (URL_String u)); [|easy].
  now destruct (s3_put_err _).
Qed.

Lemma aws_storeBranch_keeps (u : URL) (s : aws.S3Backend) (preset rule k : string) :
  is_Some (aws.bucket s !! k) -> is_Some (aws.bucket (aws.storeBranch u s preset rule).1 !! k).
Proof.
  intros Hk. unfold aws.storeBranch. destruct (Transform rule (URL_String u)); [|easy].
  destruct (s3_put_err _); [easy|]. cbn.
  destruct (decide ("/" +:+ preset +:+ Path u = k)) as [->|Hne].
  - rewrite lookup_insert_eq. eauto.
  - now rewrite lookup_insert_ne.
Qed.


Lemma aws_storeAll_cache (u : URL) (sched : list (string * string)) (s : aws.S3Backend) :
  aws.cache (aws.storeAll u sched s).1 = aws.cache s /\
  aws.presets (aws.storeAll u sched s).1 = aws.presets s.
Proof.
  revert s. induction sched as [|[preset rule] sched IH]; intros s; cbn; [easy|].
  pose proof (aws_storeBranch_cache u s preset rule) as [Hc Hp].
  destruct (aws.storeBranch u s preset rule) as [s1 e].
  specialize (IH s1). destruct (aws.storeAll u sched s1) as [s2 errs]. cbn in *.
  destruct IH as [-> ->]. easy.
Qed.

Lemma aws_storeAll_keeps (u : URL) (sched : list (string * string)) (s : aws.S3Backend)
    (k : string) :
  is_Some (aws.bucket s !! k) -> is_Some (aws.bucket (aws.storeAll u sched s).1 !! k).
Proof.
  revert s. induction sched as [|[preset rule] sched IH]; intros s Hk; cbn; [easy|].
  pose proof (aws_storeBranch_keeps u s preset rule k Hk) as Hk1.
  destruct (aws.storeBranch u s preset rule) as [s1 e].
  specialize (IH s1 Hk1). now destruct (aws.storeAll u sched s1) as [s2 errs].
Qed.



End StoreFacts.



Lemma omap_cons_eq {A B : Type} (h : A -> option B) (x : A) (l : list A) :
  omap h (x :: l) = match h x with Some y => y :: omap h l | None => omap h l end.
Proof. reflexivity. Qed.


Lemma append_length (s t : string) :
  String.length (s +:+ t) = (String.length s + String.length t)%nat.
Proof. induction s as [|c s IH]; [reflexivity|]. rewrite append_cons. cbn. now rewrite IH. Qed.

(** ** File system backend: what a materialisation writes *)

Section DiskWrites.

Lemma lookup_add_entry (x : string) (c : os.node) (es : list (string * os.node)) :
  os.lookup_entry x es = None -> os.lookup_entry x (os.add_entry x c es) = Some c.
Proof.
  induction es as [|[y d] es IH]; cbn.
  - intros _. now rewrite String.eqb_refl.
  - destruct (String.eqb_spec x y) as [->|Hne]; [discriminate|]. intros Hl.
    destruct (String.ltb x y); cbn.
    + now rewrite String.eqb_refl.
    + destruct (String.eqb_spec x y); [congruence|]. now apply IH.
Qed.

Lemma lookup_add_entry_ne (x y : string) (c : os.node) (es : list (string * os.node)) :
  x <> y -> os.lookup_entry y (os.add_entry x c es) = os.lookup_entry y es.
Proof.
  intros Hxy. induction es as [|[z d] es IH]; cbn.
  - destruct (String.eqb_spec y x); [congruence|reflexivity].
  - destruct (String.ltb x z); cbn.
    + destruct (String.eqb_spec y x); [congruence|reflexivity].
    + destruct (String.eqb_spec y z); [reflexivity|exact IH].
Qed.

(** [os.MkdirAll] neither creates nor changes a file. *)
Lemma mkdir_all_files (q : list string) (now : Z) :
  forall d d', os.mkdir_all q now d = Ok d' ->
  forall p i c, os.find p d' = Some (os.File i c) <-> os.find p d = Some (os.File i c).
Proof.
  induction q as [|x q IH]; intros d d' Hmk p i c.
  - cbn in Hmk. destruct d; [discriminate|]. now injection Hmk as <-.
  - cbn in Hmk. destruct d as [j c0|j es]; [discriminate|].
    destruct (os.lookup_entry x es) as [c0|] eqn:Hl.
    + destruct (os.mkdir_all q now c0) as [c'|e] eqn:Hq; [|discriminate].
      injection Hmk as <-. destruct p as [|y p]; [cbn; split; discriminate|]. cbn.
      destruct (String.eqb_spec x y) as [->|Hne].
      * rewrite (lookup_replace_entry y c0 c' es Hl), Hl. exact (IH c0 c' Hq p i c).
      * now rewrite lookup_replace_entry_ne.
    + destruct (os.mkdir_all q now (os.Dir (os.fresh now) [])) as [c'|e] eqn:Hq;
        [|discriminate].
      injection Hmk as <-. destruct p as [|y p]; [cbn; split; discriminate|]. cbn.
      destruct (String.eqb_spec x y) as [->|Hne].
      * rewrite (lookup_add_entry y c' es Hl), Hl.
        rewrite (IH _ c' Hq p i c). destruct p; cbn; split; discriminate.
      * now rewrite lookup_add_entry_ne.
Qed.

(** After a successful update at [p], the update of what was there is
    there. *)
Lemma alter_at_find (h : option os.node -> result os.node) (p : list string) :
  forall d d', os.alter_at h p d = Ok d' ->
  exists n', h (os.find p d) = Ok n' /\ os.find p d' = Some n'.
Proof.
  induction p as [|x p IH]; intros d d' Ha.
  - cbn in *. eauto.
  - cbn in Ha. destruct d as [j c0|j es]; [discriminate|]. cbn.
    destruct (os.lookup_entry x es) as [c0|] eqn:Hl.
    + destruct (os.alter_at h p c0) as [c'|e] eqn:Hp; [|discriminate].
      injection Ha as <-. cbn. rewrite (lookup_replace_entry x c0 c' es Hl).
      exact (IH c0 c' Hp).
    + destruct p as [|y p]; [|discriminate].
      destruct (h None) as [c'|e] eqn:Hn; [|discriminate].
      injection Ha as <-. cbn. rewrite (lookup_add_entry x c' es Hl). eauto.
Qed.

(** An update that refuses directories leaves the files elsewhere alone. *)
Lemma alter_at_other (h : option os.node -> result os.node) (q : list string) :
  (forall j es n', h (Some (os.Dir j es)) <> Ok n') ->
  forall d d' p i c, os.alter_at h q d = Ok d' -> p <> q ->
  os.find p d = Some (os.File i c) -> os.find p d' = Some (os.File i c).
Proof.
  intros Hdir. induction q as [|x q IH]; intros d d' p i c Ha Hpq Hf.
  - cbn in Ha. destruct p as [|y p]; [congruence|].
    destruct d as [j c0|j es]; [discriminate Hf|]. now apply Hdir in Ha.
  - cbn in Ha. destruct d as [j c0|j es]; [discriminate|].
    destruct p as [|y p]; [discriminate Hf|]. cbn in Hf.
    destruct (os.lookup_entry x es) as [c0|] eqn:Hl.
    + destruct (os.alter_at h q c0) as [c'|e] eqn:Hq; [|discriminate].
      injection Ha as <-. cbn. destruct (String.eqb_spec x y) as [->|Hne].
      * rewrite (lookup_replace_entry y c0 c' es Hl). rewrite Hl in Hf.
        apply (IH c0 c' p i c Hq); [congruence|exact Hf].
      * now rewrite lookup_replace_entry_ne.
    + destruct q as [|z q]; [|discriminate].
      destruct (h None) as [c'|e]; [|discriminate]. injection Ha as <-. cbn.
      destruct (String.eqb_spec x y) as [->|Hne]; [now rewrite Hl in Hf|].
      now rewrite lookup_add_entry_ne.
Qed.

End DiskWrites.

Lemma overwrite_empty (buf : string) : os.overwrite "" buf = buf.
Proof.
  unfold os.overwrite. cbn [String.length]. replace (0 - String.length buf)%nat with 0%nat by lia.
  destruct buf; cbn; [reflexivity|]. now rewrite append_cons, append_empty_r.
Qed.

Lemma substring_length (s : string) :
  forall n m, (n + m <= String.length s)%nat ->
  String.length (String.substring n m s) = m.
Proof.
  induction s as [|c s IH]; intros n m Hle; cbn in Hle.
  - assert (n = 0%nat /\ m = 0%nat) as [-> ->] by lia. reflexivity.
  - destruct n as [|n]; cbn.
    + destruct m as [|m]; [reflexivity|]. cbn. rewrite (IH 0%nat m); [reflexivity|lia].
    + apply IH. lia.
Qed.

(** Without [O_TRUNC], a shorter result written over a longer file leaves a
    file of the old length. *)
Lemma overwrite_length (old buf : string) :
  (String.length buf <= String.length old)%nat ->
  String.length (os.overwrite old buf) = String.length old.
Proof.
  intros Hle. unfold os.overwrite. rewrite append_length, substring_length; lia.
Qed.

Section FsStoreMore.
Context {ext : Externals}.
Variables (f : fs.Backend) (u : URL) (now : Z).

Lemma OpenFile_find (p : list string) (d d' : os.node) :
  os.OpenFile p now d = Ok d' ->
  os.find p d' = Some match os.find p d with
                      | Some (os.File i c) => os.File i c
                      | _ => os.File (os.fresh now) ""
                      end /\
  (forall j es, os.find p d <> Some (os.Dir j es)) /\
  (forall q i c, q <> p -> os.find q d = Some (os.File i c) ->
     os.find q d' = Some (os.File i c)).
Proof.
  unfold os.OpenFile. intros Ho.
  destruct (os.alter_at _ p d) as [d0|e] eqn:Ha; [|discriminate]. injection Ho as ->.
  split; [|split].
  - destruct (alter_at_find _ p d d' Ha) as (n' & Hh & Hf). rewrite Hf.
    destruct (os.find p d) as [[i c|j es]|]; congruence.
  - intros j es Hd. destruct (alter_at_find _ p d d' Ha) as (n' & Hh & Hf).
    rewrite Hd in Hh. discriminate.
  - intros q i c Hne Hq. apply (fun Hd => alter_at_other _ p Hd d d' q i c Ha Hne Hq).
    intros j es n'. discriminate.
Qed.

(** A branch that returns no error has written the transformed content from
    the start of the file at its address, over what the file held. *)
Lemma storeBranch_ok (disk disk' : os.node) (preset rule : string) :
  fs.storeBranch f u now disk preset rule = (disk', None) ->
  exists res, Transform rule (URL_String u) = Ok res /\
    (os.find (fs.EncodeFilename f preset (URL_String u)) disk = None ->
     os.find (fs.EncodeFilename f preset (URL_String u)) disk'
       = Some (os.File (os.fresh now) (Content res))) /\
    (forall i old,
       os.find (fs.EncodeFilename f preset (URL_String u)) disk = Some (os.File i old) ->
       os.find (fs.EncodeFilename f preset (URL_String u)) disk'
         = Some (os.File (os.mkInode now (os.stat_err i) (os.remove_err i))
                         (os.overwrite old (Content res)))) /\
    (forall q i c, q <> fs.EncodeFilename f preset (URL_String u) ->
       os.find q disk = Some (os.File i c) -> os.find q disk' = Some (os.File i c)) /\
    (exists i c, os.find (fs.EncodeFilename f preset (URL_String u)) disk'
                 = Some (os.File i c)).
Proof.
  unfold fs.storeBranch. destruct (Transform rule (URL_String u)) as [res|e]; [|discriminate].
  set (path := fs.EncodeFilename f preset (URL_String u)).
  intros Hb. exists res. split; [reflexivity|].
  assert (Hmade : exists disk1,
            match os.Stat (filepath.Dir path) disk with
            | Fail _ => os.MkdirAll (filepath.Dir path) now disk
            | Ok _ => Ok disk
            end = Ok disk1 /\
            forall p i c, os.find p disk1 = Some (os.File i c) <-> os.find p disk = Some (os.File i c)).
  { destruct (os.Stat (filepath.Dir path) disk).
    - exists disk. easy.
    - unfold os.MkdirAll in *.
      destruct (os.mkdir_all (filepath.Dir path) now disk) as [disk1|e1] eqn:Hmk;
        [|discriminate Hb].
      exists disk1. split; [reflexivity|]. exact (mkdir_all_files _ now disk disk1 Hmk). }
  destruct Hmade as (disk1 & Hmade & Hfiles). rewrite Hmade in Hb.
  destruct (os.OpenFile path now disk1) as [disk2|e] eqn:Ho; [|discriminate].
  destruct (fs_write_err (os.render path)); [discriminate|].
  destruct (os.alter_at _ path disk2) as [disk3|e] eqn:Hw; [|discriminate].
  injection Hb as <-.
  destruct (OpenFile_find path disk1 disk2 Ho) as (Hopen & Hnodir & Hother).
  destruct (alter_at_find _ path disk2 disk3 Hw) as (n' & Hh & Hf).
  rewrite Hopen in Hh. split; [|split; [|split]].
  - intros Hnone. rewrite Hf.
    destruct (os.find path disk1) as [[i c|j es]|] eqn:H1.
    + apply Hfiles in H1. congruence.
    + exfalso. exact (Hnodir j es eq_refl).
    + injection Hh as <-. now rewrite overwrite_empty.
  - intros i old Hold. apply Hfiles in Hold. rewrite Hold in Hh. rewrite Hf. congruence.
  - intros q i c Hne Hq. apply Hfiles in Hq.
    apply (fun Hd => alter_at_other _ path Hd disk2 disk3 q i c Hw Hne (Hother q i c Hne Hq)).
    intros j es n''. discriminate.
  - rewrite Hf. destruct (os.find path disk1) as [[i c|j es]|]; injection Hh as <-; eauto.
Qed.

(** Whatever a branch does, a file stays a file. *)
Lemma storeBranch_keeps_files (disk : os.node) (preset rule : string)
    (p : list string) (i : os.inode) (c : string) :
  os.find p disk = Some (os.File i c) ->
  exists i' c', os.find p (fs.storeBranch f u now disk preset rule).1 = Some (os.File i' c').
Proof.
  intros Hp. unfold fs.storeBranch.
  destruct (Transform rule (URL_String u)) as [res|e]; [|cbn; eauto].
  set (path := fs.EncodeFilename f preset (URL_String u)).
  assert (Hmade : match os.Stat (filepath.Dir path) disk with
                  | Fail _ => os.MkdirAll (filepath.Dir path) now disk
                  | Ok _ => Ok disk
                  end = Ok disk \/
                  (exists e, match os.Stat (filepath.Dir path) disk with
                             | Fail _ => os.MkdirAll (filepath.Dir path) now disk
                             | Ok _ => Ok disk
                             end = Fail e) \/
                  exists disk1, match os.Stat (filepath.Dir path) disk with
                                | Fail _ => os.MkdirAll (filepath.Dir path) now disk
                                | Ok _ => Ok disk
                                end = Ok disk1 /\
                    os.find p disk1 = Some (os.File i c)).
  { destruct (os.Stat (filepath.Dir path) disk); [now left|]. right.
    unfold os.MkdirAll.
    destruct (os.mkdir_all (filepath.Dir path) now disk) as [disk1|e1] eqn:Hmk; [right|left; eauto].
    exists disk1. split; [reflexivity|]. now apply (mkdir_all_files _ now disk disk1 Hmk). }
  assert (Hfrom : forall disk1, os.find p disk1 = Some (os.File i c) ->
    exists i' c',
      os.find p (match os.OpenFile path now disk1 with
                 | Fail e => (disk1, Some (fs.Wrap e ("failed to open file " +:+ os.render path)))
                 | Ok disk2 =>
                     match fs_write_err (os.render path) with
                     | Some e =>
                         (disk2, Some (fs.Wrap e ("failed to write content to " +:+ os.render path)))
                     | None =>
                         match os.alter_at (fun o =>
                                 match o with
                                 | Some (os.File i old) =>
                                     Ok (os.File (os.mkInode now (os.stat_err i) (os.remove_err i))
                                                 (os.overwrite old (Content res)))
                                 | _ => Fail "bad file descriptor"
                                 end) path disk2 with
                         | Ok disk3 => (disk3, None)
                         | Fail e =>
                             (disk2, Some (fs.Wrap e ("failed to write content to " +:+ os.render path)))
                         end
                     end
                 end).1 = Some (os.File i' c')).
  { intros disk1 H1. destruct (os.OpenFile path now disk1) as [disk2|e] eqn:Ho; [|cbn; eauto].
    destruct (OpenFile_find path disk1 disk2 Ho) as (Hopen & _ & Hother).
    assert (H2 : exists i2 c2, os.find p disk2 = Some (os.File i2 c2)).
    { destruct (decide (p = path)) as [->|Hne].
      - rewrite Hopen, H1. eauto.
      - rewrite (Hother p i c Hne H1). eauto. }
    destruct H2 as (i2 & c2 & H2).
    destruct (fs_write_err (os.render path)); [cbn; eauto|].
    destruct (os.alter_at _ path disk2) as [disk3|e] eqn:Hw; [|cbn; eauto]. cbn.
    destruct (decide (p = path)) as [->|Hne].
    - destruct (alter_at_find _ path disk2 disk3 Hw) as (n' & Hh & Hf).
      rewrite H2 in Hh. injection Hh as <-. eauto.
    - exists i2, c2.
      apply (fun Hd => alter_at_other _ path Hd disk2 disk3 p i2 c2 Hw Hne H2).
      intros j es n''. discriminate. }
  destruct Hmade as [Hm|[[e Hm]|(disk1 & Hm & H1)]]; rewrite Hm.
  - now apply Hfrom.
  - cbn. eauto.
  - now apply Hfrom.
Qed.

End FsStoreMore.

Section FsStoreAll.
Context {ext : Externals}.
Variables (f : fs.Backend) (u : URL) (now : Z).

Lemma storeAll_keeps_files (sched : list (string * string)) :
  forall disk p i c, os.find p disk = Some (os.File i c) ->
  exists i' c', os.find p (fs.storeAll f u now sched disk).1 = Some (os.File i' c').
Proof.
  induction sched as [|[preset rule] sched IH]; intros disk p i c Hp; cbn; [eauto|].
  destruct (storeBranch_keeps_files f u now disk preset rule p i c Hp) as (i1 & c1 & H1).
  destruct (fs.storeBranch f u now disk preset rule) as [disk1 e]. cbn in H1.
  destruct (IH disk1 p i1 c1 H1) as (i2 & c2 & H2).
  destruct (fs.storeAll f u now sched disk1) as [disk2 es]. cbn in *. eauto.
Qed.

Lemma storeAll_ok_files (sched : list (string * string)) :
  forall disk, fs.Wait (fs.storeAll f u now sched disk).2 = None ->
  forall preset rule, (preset, rule) ∈ sched ->
  exists i c, os.find (fs.EncodeFilename f preset (URL_String u))
                (fs.storeAll f u now sched disk).1 = Some (os.File i c).
Proof.
  induction sched as [|[p0 r0] sched IH]; intros disk HW preset rule Hin;
    [now apply elem_of_nil in Hin|].
  cbn in HW |- *.
  destruct (fs.storeBranch f u now disk p0 r0) as [disk1 e] eqn:Hb.
  pose proof (IH disk1) as IH1.
  pose proof (storeAll_keeps_files sched disk1) as Hkeep.
  destruct (fs.storeAll f u now sched disk1) as [disk2 es]. cbn in *.
  destruct e as [e|]; [discriminate HW|].
  apply elem_of_cons in Hin as [Heq|Hin].
  - inversion Heq; subst p0 r0.
    destruct (storeBranch_ok f u now disk disk1 preset rule Hb)
      as (res & _ & _ & _ & _ & i & c & Hfile).
    exact (Hkeep _ i c Hfile).
  - exact (IH1 HW preset rule Hin).
Qed.

End FsStoreAll.

Section StoreFailures.
Context {ext : Externals}.






End StoreFailures.



(** The branch of [thumb] stores its file although the branch of [small]
    has failed before it. *)
Example fs_materialize_goes_on_after_failure :
  let '(_, disk, err, _) :=
    fs.StoreTransformedContent (ext := Sample.absent) Sample.fs_one_bad Sample.source 5
      Sample.empty_disk in
  err = Some "failed to transform: cannot apply bad-1 to https://x/a.jpg" /\
  os.find Sample.derivative disk = Some (os.File (os.fresh 5) "100x100 of https://x/a.jpg").
Proof. vm_compute. split; reflexivity. Qed.


(** C6, as the code has it: a materialisation writes no cache entry, for the
    presets it stored as for those that failed; the cache after the call is
    the cache before it.  This holds for the S3 backend, the file system
    backend and the guardian's PUT alike. *)
Theorem materialize_leaves_cache_alone {ext : Externals} (u : URL) :
  (forall s : aws.S3Backend,
     aws.cache (aws.StoreTransformedContent s u).1 = aws.cache s /\
     aws.cache (aws.run s (aws.GoStoreTransformedContent u)) = aws.cache s) /\
  (forall (f : fs.Backend) (now : Z) (disk : os.node),
     fs.cache (fs.StoreTransformedContent f u now disk).1.1.1 = fs.cache f /\
     fs.cache (fs.run f now disk (fs.GoStoreTransformedContent u)).1.1 = fs.cache f) /\
  (forall (g : Guardian.Guardian) (sched : list (string * string)),
     Guardian.Cache (Guardian.transformAllAndStore g sched u).1 = Guardian.Cache g).
Proof.
  split; [|split].
  - intros s.
    assert (H : aws.cache (aws.StoreTransformedContent s u).1 = aws.cache s).
    { unfold aws.StoreTransformedContent.
      pose proof (aws_storeAll_cache u (aws.presets s) s) as [Hc _].
      destruct (aws.storeAll u (aws.presets s) s) as [s1 errCh].
      now destruct (negb (String.eqb (err_lines errCh) "")). }
    split; [exact H|exact H].
  - intros f now disk. unfold fs.run, fs.StoreTransformedContent.
    now destruct (fs.storeAll f u now (fs.presets f) disk).
  - intros g sched. apply transformAllAndStore_processing.
Qed.

(** C6 as stated fails: the one preset is transformed and stored without
    error, and the cache is as empty after the call as before it. *)
Lemma stored_derivative_is_not_cached :
  let '(s, err) :=
    aws.StoreTransformedContent (ext := Sample.absent) Sample.s3 Sample.source in
  err = None /\
  aws.bucket s !! "/thumb/a.jpg"
    = Some (mkResult "100x100 of https://x/a.jpg" 26 "image/jpeg") /\
  urlcache.Lookup (aws.cache s) (Sample.cacheKey ["s3"; "thumb"; "https://x/a.jpg"]) = "" /\
  aws.cache s = ∅.
Proof. vm_compute. repeat split; reflexivity. Qed.

(** ** Invalidation *)

Section DeleteFacts.
Context {ext : Externals}.

Lemma aws_deleteBranch_cache (u : URL) (s : aws.S3Backend) (preset : string) :
  aws.cache (aws.deleteBranch u s preset).1
    = delete (MakeCacheKey [preset; URL_String u]) (aws.cache s).
Proof. unfold aws.deleteBranch. now destruct (s3_del_err _). Qed.

(** The S3 backend's [Delete] leaves alone every key that is not the
    two-argument key of one of its presets. *)
Lemma aws_deleteAll_other_key (u : URL) (sched : list (string * string))
    (s : aws.S3Backend) (k : string) :
  Forall (fun pr => MakeCacheKey [pr.1; URL_String u] <> k) sched ->
  aws.cache (aws.deleteAll u sched s).1 !! k = aws.cache s !! k.
Proof.
  revert s. induction sched as [|[preset rule] sched IH]; intros s HF; cbn; [reflexivity|].
  inversion HF as [|? ? Hne HF']; subst. cbn in Hne.
  pose proof (aws_deleteBranch_cache u s preset) as Hc.
  destruct (aws.deleteBranch u s preset) as [s1 e].
  specialize (IH s1 HF'). destruct (aws.deleteAll u sched s1) as [s2 errs]. cbn in *.
  rewrite IH, Hc. now apply lookup_delete_ne.
Qed.

Lemma aws_Delete_state (s : aws.S3Backend) (u : URL) :
  (aws.Delete s u).1 = (aws.deleteAll u (aws.presets s) s).1.
Proof.
  unfold aws.Delete. destruct (aws.deleteAll u (aws.presets s) s) as [s1 errCh].
  now destruct (negb (String.eqb (err_lines errCh) "")).
Qed.

End DeleteFacts.

(** C4, where the code departs from it: in the file system backend a branch
    whose [os.Remove] fails returns at once; the cache is not touched, and the
    entry of that preset outlives the invalidation. *)
Theorem fs_failed_remove_keeps_cache_entry {ext : Externals}
    (f : fs.Backend) (u : URL) (disk : os.node) (preset : string) (e : error) :
  os.Remove (fs.EncodeFilename f preset (URL_String u)) disk = Fail e ->
  fs.deleteBranch f u disk preset
    = (f, disk,
       Some (fs.Wrap e ("failed to remove path " +:+
                        os.render (fs.EncodeFilename f preset (URL_String u))))) /\
  fs.cache (fs.deleteBranch f u disk preset).1.1 = fs.cache f.
Proof.
  intros Hrm. unfold fs.deleteBranch. rewrite Hrm. split; reflexivity.
Qed.

Lemma fs_failed_remove_keeps_cache_entry_witness :
  fs.cache (fs.deleteBranch (ext := Sample.absent) Sample.fs_cached Sample.source
              Sample.empty_disk "thumb").1.1
  = fs.cache Sample.fs_cached.
Proof.
  exact (proj2 (fs_failed_remove_keeps_cache_entry (ext := Sample.absent)
    Sample.fs_cached Sample.source Sample.empty_disk "thumb"
    "remove /var/sharaq/thumb/5100774299828810971: no such file or directory"
    ltac:(vm_compute; reflexivity))).
Defined.

(** The whole invalidation, when the derivative's file has gone from the disk
    and its cache entry has not: the entry is still served from afterwards. *)
Example fs_Delete_keeps_stale_entry :
  let '(f, disk, err) :=
    fs.Delete (ext := Sample.absent) Sample.fs_cached Sample.source Sample.empty_disk in
  err = Some ("deleting from file system: failed to remove path " +:+
              "/var/sharaq/thumb/5100774299828810971: remove " +:+
              "/var/sharaq/thumb/5100774299828810971: no such file or directory") /\
  urlcache.Lookup (fs.cache f) (Sample.cacheKey ["fs"; "thumb"; "https://x/a.jpg"])
    = "/var/sharaq/thumb/5100774299828810971".
Proof. vm_compute. split; reflexivity. Qed.

(** C5, where the code departs from it: the S3 backend serves under the key
    of (["s3"], preset, source) and invalidates the key of (preset, source).
    Where the key codec tells the two apart, the entry a GET has entered
    is still in the cache after the invalidation of its source. *)
Theorem s3_invalidate_misses_served_entry {ext : Externals}
    (s : aws.S3Backend) (w : ResponseWriter) (r : Request) (u : URL) (preset : string) :
  let served := MakeCacheKey ["s3"; preset; URL_String u] in
  let specificURL :=
    "http://" +:+ aws.bucketName s +:+ ".s3.amazonaws.com/" +:+ preset +:+ Path u in
  GetTargetURL r = Ok u ->
  GetPresetFromRequest r = Ok preset ->
  urlcache.Lookup (aws.cache s) served = "" ->
  http_Head specificURL = Ok 200 ->
  Forall (fun pr => MakeCacheKey [pr.1; URL_String u] <> served) (aws.presets s) ->
  urlcache.Lookup
    (aws.cache (aws.Delete (fold_left aws.run (aws.Serve s w r).2 s) u).1) served
  = specificURL.
Proof.
  intros served specificURL Ht Hp Hmiss Hhead Hkeys.
  rewrite (aws_Serve_miss w r u preset Ht Hp s Hmiss). cbv zeta.
  fold specificURL served. rewrite Hhead. cbn [Z.eqb Pos.eqb snd fold_left aws.run].
  rewrite aws_Delete_state. unfold urlcache.Lookup.
  rewrite aws_deleteAll_other_key by exact Hkeys.
  cbn [aws.cache]. unfold urlcache.Set_. now rewrite lookup_insert_eq.
Qed.

Lemma s3_invalidate_misses_served_entry_witness :
  urlcache.Lookup
    (aws.cache
       (aws.Delete (ext := Sample.present)
          (fold_left (aws.run (ext := Sample.present))
             (aws.Serve (ext := Sample.present) Sample.s3 newResponseWriter
                (Sample.get "thumb")).2 Sample.s3)
          Sample.source).1)
    (Sample.cacheKey ["s3"; "thumb"; "https://x/a.jpg"])
  = "http://ix.peatix.com.s3.amazonaws.com/thumb/a.jpg".
Proof.
  apply (s3_invalidate_misses_served_entry (ext := Sample.present) Sample.s3
           newResponseWriter (Sample.get "thumb") Sample.source "thumb");
    try (vm_compute; reflexivity).
  repeat constructor. vm_compute. discriminate.
Defined.

(** The two keys of the same preset and source, and the S3 invalidation of a
    cached derivative: the object is deleted, no error is reported, the
    entry stays. *)
Example s3_Delete_keeps_entry :
  Sample.cacheKey ["s3"; "thumb"; "https://x/a.jpg"]
    <> Sample.cacheKey ["thumb"; "https://x/a.jpg"] /\
  let '(s, err) := aws.Delete (ext := Sample.absent) Sample.s3_cached Sample.source in
  err = None /\ aws.bucket s = ∅ /\
  urlcache.Lookup (aws.cache s) (Sample.cacheKey ["s3"; "thumb"; "https://x/a.jpg"])
    = "http://ix.peatix.com.s3.amazonaws.com/thumb/a.jpg".
Proof. split; [vm_compute; discriminate|]. vm_compute. repeat split; reflexivity. Qed.

(** ** The reaper *)

Section ReaperFacts.
Variables (f : fs.Backend) (now : Z).

Lemma graft_same (p : list string) (d n : os.node) :
  os.find p d = Some n -> os.graft p (Some n) d = d.
Proof. intros Hf. unfold os.graft. now rewrite (put_same p d n Hf). Qed.

(** The function literal, called for an entry that [Lstat] could read. *)
Lemma cleanEntry_visit (p : list string) (d n : os.node) :
  os.find p d = Some n ->
  fs.cleanEntry f now p (Some (os.stat_of n)) None d
    = if fs.expired f now (os.stat_of n) && os.removable n
      then os.graft p None d else d.
Proof.
  intros Hf. unfold fs.cleanEntry. destruct (fs.expired f now (os.stat_of n)); [|reflexivity].
  cbn [andb]. unfold os.Remove. destruct p as [|x p].
  - cbn. now destruct (os.removable n).
  - rewrite (remove_at_graft (x :: p) d n ltac:(discriminate) Hf).
    unfold os.removable. now destruct (os.unremovable n).
Qed.

Lemma walk_entries (p : list string) (i : os.inode) (rest : list (string * os.node)) :
  Forall (fun e => forall q d, os.wf e.2 = true -> os.find q d = Some e.2 ->
            filepath.walk (fs.cleanEntry f now) q e.2 d
              = os.graft q (fs.swept f now e.2) d) rest ->
  Forall (fun e => os.wf e.2 = true) rest ->
  NoDup (map fst rest) ->
  forall done d,
    (forall x, x ∈ map fst done -> x ∉ map fst rest) ->
    os.find p d = Some (os.Dir i (done ++ rest)) ->
    fold_left (fun st e => filepath.walk (fs.cleanEntry f now) (p ++ [e.1]) e.2 st) rest d
      = os.graft p (Some (os.Dir i (done ++ os.keep_entries (fs.swept f now) rest))) d.
Proof.
  induction rest as [|[x c] rest IH]; intros Hwalk Hwf Hnd done d Hdisj Hfind.
  - cbn. symmetry. now apply graft_same.
  - inversion Hwalk as [|? ? Hc Hwalk']; subst.
    inversion Hwf as [|? ? Hwfc Hwf']; subst. cbn in Hc, Hwfc.
    apply NoDup_cons in Hnd as [Hx Hnd].
    assert (Hxdone : x ∉ map fst done).
    { intros Hin. apply (Hdisj x Hin). cbn. apply elem_of_cons. now left. }
    assert (Hfc : os.find (p ++ [x]) d = Some c).
    { rewrite find_app, Hfind. cbn.
      now rewrite lookup_entry_app, lookup_entry_head by exact Hxdone. }
    cbn [fold_left fst snd]. rewrite (Hc _ _ Hwfc Hfc).
    set (done' := done ++ match fs.swept f now c with Some c' => [(x, c')] | None => [] end).
    assert (Hstep : os.graft (p ++ [x]) (fs.swept f now c) d
                    = os.graft p (Some (os.Dir i (done' ++ rest))) d).
    { unfold os.graft. rewrite (put_app p [x] _ d _ Hfind). cbn.
      rewrite lookup_entry_app, lookup_entry_head by exact Hxdone. unfold done'.
      destruct (fs.swept f now c) as [c'|].
      - now rewrite replace_entry_app, <- app_assoc by exact Hxdone.
      - now rewrite del_entry_app, app_nil_r by exact Hxdone. }
    rewrite Hstep.
    destruct (find_graft p d _ (os.Dir i (done' ++ rest)) Hfind) as [Hf2 Hput2].
    rewrite (IH Hwalk' Hwf' Hnd done' _).
    + unfold os.graft at 1. rewrite Hput2.
      assert (Heq : done' ++ os.keep_entries (fs.swept f now) rest
                    = done ++ os.keep_entries (fs.swept f now) ((x, c) :: rest)).
      { unfold done'. cbn. destruct (fs.swept f now c); rewrite <- app_assoc; reflexivity. }
      rewrite Heq. unfold os.graft.
      destruct (put_Some p (os.Dir i (done ++ os.keep_entries (fs.swept f now) ((x, c) :: rest))) d)
        as [d' ->]. reflexivity.
    + intros y Hy. unfold done' in Hy. rewrite map_app in Hy.
      apply elem_of_app in Hy as [Hy|Hy].
      * intros Hin. apply (Hdisj y Hy). cbn. apply elem_of_cons. now right.
      * destruct (fs.swept f now c); cbn in Hy.
        -- apply list_elem_of_singleton in Hy. now subst.
        -- now apply elem_of_nil in Hy.
    + exact Hf2.
Qed.

(** A walk with [cleanEntry] over the tree found at [p] leaves the disk with
    what [swept] describes in its place. *)
Lemma walk_cleanEntry (n : os.node) :
  forall p d, os.wf n = true -> os.find p d = Some n ->
  filepath.walk (fs.cleanEntry f now) p n d = os.graft p (fs.swept f now n) d.
Proof.
  induction n as [i c|i es IH] using node_nested_ind; intros p d Hwf Hfind.
  - cbn [filepath.walk fs.swept os.stat_of]. destruct (os.stat_err i) eqn:Hs.
    + cbv [fs.cleanEntry]. symmetry. now apply graft_same.
    + change i with (os.stat_of (os.File i c)) at 1.
      rewrite (cleanEntry_visit p d _ Hfind). cbn [os.stat_of].
      destruct (fs.expired f now i && os.removable (os.File i c)); [reflexivity|].
      symmetry. now apply graft_same.
  - cbn [filepath.walk fs.swept os.stat_of]. destruct (os.stat_err i) eqn:Hs.
    + cbv [fs.cleanEntry]. symmetry. now apply graft_same.
    + change i with (os.stat_of (os.Dir i es)) at 1.
      rewrite (cleanEntry_visit p d _ Hfind). cbn [os.stat_of].
      destruct (fs.expired f now i && os.removable (os.Dir i es)) eqn:Hrm.
      * apply andb_true_iff in Hrm as [_ Hrm]. unfold os.removable, os.unremovable in Hrm.
        cbn [os.stat_of] in Hrm.
        destruct (os.remove_err i); [discriminate|]. destruct es; [|discriminate].
        reflexivity.
      * apply wf_Dir in Hwf as [Hnd Hall].
        apply (walk_entries p i es IH Hall Hnd [] d); [|exact Hfind].
        intros x Hx. now apply elem_of_nil in Hx.
Qed.

Lemma removable_nonempty (i : os.inode) (x : string) (c : os.node)
    (es : list (string * os.node)) :
  os.lookup_entry x es = Some c -> os.removable (os.Dir i es) = false.
Proof.
  intros Hl. unfold os.removable, os.unremovable. cbn [os.stat_of].
  destruct (os.remove_err i); [reflexivity|]. now destruct es.
Qed.

(** Below a directory the walk enters, an entry it comes to is left as
    [swept] describes. *)
Lemma find_swept (p : list string) :
  forall n m, os.wf n = true -> os.entered p n = true -> os.find p n = Some m ->
  fs.swept f now n ≫= os.find p = fs.swept f now m.
Proof.
  induction p as [|x p IH]; intros n m Hwf Hent Hfind.
  - cbn in Hfind. injection Hfind as ->. now destruct (fs.swept f now m).
  - destruct n as [i c|i es]; [discriminate Hfind|]. cbn in Hent, Hfind.
    destruct (os.stat_err i) eqn:Hs; [discriminate|].
    destruct (os.lookup_entry x es) as [c|] eqn:Hl; [|discriminate].
    cbn [fs.swept os.stat_of]. rewrite Hs, (removable_nonempty i x c es Hl), andb_false_r.
    apply wf_Dir in Hwf as [Hnd Hall].
    assert (Hwfc : os.wf c = true).
    { rewrite Forall_forall in Hall. exact (Hall _ (lookup_entry_elem _ _ _ Hl)). }
    cbn. rewrite (lookup_keep_entries _ x c es Hnd Hl).
    rewrite <- (IH c m Hwfc Hent Hfind). now destruct (fs.swept f now c).
Qed.

Lemma swept_entered (x : string) (p : list string) (n : os.node) :
  os.entered (x :: p) n = true -> is_Some (fs.swept f now n).
Proof.
  destruct n as [i c|i es]; cbn.
  - now destruct (os.stat_err i).
  - destruct (os.stat_err i); [discriminate|].
    destruct (os.lookup_entry x es) as [c|] eqn:Hl; [|discriminate]. intros _.
    rewrite (removable_nonempty i x c es Hl), andb_false_r. eauto.
Qed.

(** A file that has not expired is left where it is. *)
Lemma find_swept_kept (q : list string) (i : os.inode) (content : string) :
  forall n, os.wf n = true -> os.find q n = Some (os.File i content) ->
  fs.expired f now i = false ->
  fs.swept f now n ≫= os.find q = Some (os.File i content).
Proof.
  induction q as [|x q IH]; intros n Hwf Hfind Hexp.
  - cbn in Hfind. injection Hfind as ->. cbn.
    destruct (os.stat_err i); [reflexivity|]. now rewrite Hexp.
  - destruct n as [j c|j es]; [discriminate Hfind|]. cbn in Hfind.
    destruct (os.lookup_entry x es) as [c|] eqn:Hl; [|discriminate].
    cbn [fs.swept os.stat_of]. destruct (os.stat_err j).
    + cbn. now rewrite Hl.
    + rewrite (removable_nonempty j x c es Hl), andb_false_r.
      apply wf_Dir in Hwf as [Hnd Hall].
      assert (Hwfc : os.wf c = true).
      { rewrite Forall_forall in Hall. exact (Hall _ (lookup_entry_elem _ _ _ Hl)). }
      cbn. rewrite (lookup_keep_entries _ x c es Hnd Hl).
      rewrite <- (IH c Hwfc Hfind Hexp). now destruct (fs.swept f now c).
Qed.

(** The sweep, as a replacement of the storage root. *)
Lemma CleanStorageRoot_graft (disk n : os.node) :
  0 < fs.imageTTL f -> os.wf disk = true ->
  os.find (os.split (fs.root f)) disk = Some n ->
  fs.CleanStorageRoot f now disk
    = os.graft (os.split (fs.root f)) (fs.swept f now n) disk.
Proof.
  intros Httl Hwf Hroot. unfold fs.CleanStorageRoot, filepath.Walk.
  destruct (Z.leb_spec (fs.imageTTL f) 0); [lia|]. rewrite Hroot.
  apply walk_cleanEntry; [|exact Hroot]. exact (wf_find _ _ _ Hwf Hroot).
Qed.

Lemma CleanStorageRoot_no_root (disk : os.node) :
  os.find (os.split (fs.root f)) disk = None ->
  fs.CleanStorageRoot f now disk = disk.
Proof.
  intros Hroot. unfold fs.CleanStorageRoot, filepath.Walk. rewrite Hroot.
  now destruct (fs.imageTTL f <=? 0).
Qed.

End ReaperFacts.

(** C9, as the code has it.  With a TTL of zero or less the sweep leaves the
    disk as it is.  Otherwise it walks the storage root and calls
    [os.Remove] on every entry it comes to whose age exceeds the TTL, file
    or directory: such a file is gone afterwards and such a directory is gone
    if it was empty, unless the removal itself fails; every file whose age
    does not exceed the TTL is still there, wherever it is.  A failure on one
    entry changes nothing for the others: the statement holds whatever
    [Lstat] and [Remove] faults the other entries carry.  The sweep is not
    driven by a timer: every [StoreTransformedContent] of the file system
    backend spawns one. *)
Theorem CleanStorageRoot_sweeps {ext : Externals}
    (f : fs.Backend) (now : Z) (disk : os.node) :
  let root := os.split (fs.root f) in
  let disk' := fs.CleanStorageRoot f now disk in
  (fs.imageTTL f <= 0 -> disk' = disk) /\
  (0 < fs.imageTTL f -> os.wf disk = true ->
     (forall q i c,
        os.find q disk = Some (os.File i c) -> fs.expired f now i = false ->
        os.find q disk' = Some (os.File i c)) /\
     (forall n p,
        os.find root disk = Some n -> os.entered p n = true -> root ++ p <> [] ->
        (forall i c,
           os.find p n = Some (os.File i c) ->
           os.find (root ++ p) disk'
             = if fs.expired f now i && os.removable (os.File i c)
               then None else Some (os.File i c)) /\
        (forall i es,
           os.find p n = Some (os.Dir i es) ->
           if fs.expired f now i && os.removable (os.Dir i es)
           then os.find (root ++ p) disk' = None
           else exists es', os.find (root ++ p) disk' = Some (os.Dir i es')))) /\
  (forall u : URL,
     (fs.StoreTransformedContent f u now disk).2 = [fs.GoCleanStorageRoot]) /\
  fs.run f now disk fs.GoCleanStorageRoot = (f, disk', []).
Proof.
  intros root disk'. split; [|split; [|split]].
  - intros Httl. unfold disk', fs.CleanStorageRoot.
    destruct (Z.leb_spec (fs.imageTTL f) 0); [reflexivity|lia].
  - intros Httl Hwf. split.
    + intros q i c Hq Hexp. unfold disk'.
      destruct (os.find root disk) as [n|] eqn:Hroot;
        [|now rewrite (CleanStorageRoot_no_root f now disk Hroot)].
      rewrite (CleanStorageRoot_graft f now disk n Httl Hwf Hroot). fold root.
      destruct (decide (root `prefix_of` q)) as [[q' ->]|Hpre];
        [|now apply find_graft_other].
      rewrite find_app, Hroot in Hq. cbn in Hq.
      pose proof (find_swept_kept f now q' i c n (wf_find _ _ _ Hwf Hroot) Hq Hexp) as Hk.
      destruct (fs.swept f now n) as [n'|] eqn:Hsw; [|discriminate Hk].
      now rewrite (find_graft_app root q' (Some n') disk n Hwf Hroot) by eauto.
    + intros n p Hroot Hent Hne.
      assert (Hunder : forall m, os.find p n = Some m ->
                os.find (root ++ p) disk' = fs.swept f now m).
      { intros m Hm. unfold disk'.
        rewrite (CleanStorageRoot_graft f now disk n Httl Hwf Hroot). fold root.
        rewrite (find_graft_app root p _ disk n Hwf Hroot).
        - exact (find_swept f now p n m (wf_find _ _ _ Hwf Hroot) Hent Hm).
        - destruct (decide (root = [])) as [Hr|Hr]; [right|now left].
          rewrite Hr in Hne. destruct p as [|y p]; [now cbn in Hne|].
          exact (swept_entered f now y p n Hent). }
      assert (Hstat : forall m, os.find p n = Some m -> os.stat_err (os.stat_of m) = None).
      { clear -Hent. revert n Hent. induction p as [|x p IH]; intros n Hent m Hm.
        - cbn in Hm, Hent. injection Hm as ->. now destruct (os.stat_err (os.stat_of m)).
        - cbn in Hent. destruct (os.stat_err (os.stat_of n)); [discriminate|].
          destruct n as [j c|j es]; [discriminate|]. cbn in Hm.
          destruct (os.lookup_entry x es) as [c|]; [|discriminate]. exact (IH c Hent m Hm). }
      split.
      * intros i c Hm. rewrite (Hunder _ Hm). specialize (Hstat _ Hm). cbn in Hstat.
        cbn [fs.swept os.stat_of]. now rewrite Hstat.
      * intros i es Hm. specialize (Hstat _ Hm). cbn in Hstat.
        rewrite (Hunder _ Hm). cbn [fs.swept os.stat_of]. rewrite Hstat.
        destruct (fs.expired f now i && os.removable (os.Dir i es)); eauto.
  - intros u. unfold fs.StoreTransformedContent.
    now destruct (fs.storeAll f u now (fs.presets f) disk).
  - reflexivity.
Qed.

Lemma CleanStorageRoot_sweeps_witness :
  os.find ["var"; "sharaq"; "thumb"; "1"] Sample.aged_disk
    = Some (os.File (os.fresh 0) "old") /\
  os.find ["var"; "sharaq"; "thumb"; "1"]
    (fs.CleanStorageRoot Sample.fsb (2 * Sample.hour) Sample.aged_disk) = None.
Proof.
  split; [vm_compute; reflexivity|].
  destruct (CleanStorageRoot_sweeps (ext := Sample.absent) Sample.fsb (2 * Sample.hour)
              Sample.aged_disk) as (_ & Hsweep & _).
  destruct (Hsweep ltac:(vm_compute; reflexivity) ltac:(vm_compute; reflexivity))
    as [_ Hunder].
  destruct (Hunder
    (os.Dir (os.fresh 0)
       [("large", os.Dir (os.fresh 0) []);
        ("locked", os.Dir (os.mkInode 0 (Some "permission denied") None)
           [("1", os.File (os.fresh 0) "old")]);
        ("thumb", os.Dir (os.fresh 0)
           [("1", os.File (os.fresh 0) "old");
            ("2", os.File (os.fresh Sample.recent) "new");
            ("3", os.File (os.mkInode 0 None (Some "operation not permitted")) "kept")])])
    ["thumb"; "1"]
    ltac:(vm_compute; reflexivity) ltac:(vm_compute; reflexivity) ltac:(discriminate))
    as [Hfile _].
  exact (Hfile (os.fresh 0) "old" ltac:(vm_compute; reflexivity)).
Defined.

(** The sweep at work on the sample disk: the old derivative and the old
    empty directory are gone; the recent file, the file that cannot be
    removed and the file below the unreadable directory are still there. *)
Example CleanStorageRoot_on_aged_disk :
  let disk' := fs.CleanStorageRoot Sample.fsb (2 * Sample.hour) Sample.aged_disk in
  os.find ["var"; "sharaq"; "thumb"; "1"] disk' = None /\
  os.find ["var"; "sharaq"; "large"] disk' = None /\
  os.find ["var"; "sharaq"; "thumb"; "2"] disk' = Some (os.File (os.fresh Sample.recent) "new") /\
  os.find ["var"; "sharaq"; "thumb"; "3"] disk'
    = Some (os.File (os.mkInode 0 None (Some "operation not permitted")) "kept") /\
  os.find ["var"; "sharaq"; "locked"; "1"] disk' = Some (os.File (os.fresh 0) "old").
Proof. vm_compute. repeat split; reflexivity. Qed.

(** C9 as stated fails.  The sweep is started by a request: a GET that
    misses spawns the materialisation, and the materialisation spawns the
    sweep.  And the sweep removes more than files: the old empty directory
    goes as well. *)
Lemma sweep_is_spawned_by_a_request :
  (fs.Serve (ext := Sample.absent) Sample.fsb Sample.aged_disk newResponseWriter
     (Sample.get "thumb")).2 = [fs.GoStoreTransformedContent Sample.source] /\
  (fs.run (ext := Sample.absent) Sample.fsb (2 * Sample.hour) Sample.aged_disk
     (fs.GoStoreTransformedContent Sample.source)).2 = [fs.GoCleanStorageRoot] /\
  os.find ["var"; "sharaq"; "large"] Sample.aged_disk = Some (os.Dir (os.fresh 0) []) /\
  os.find ["var"; "sharaq"; "large"]
    (fs.CleanStorageRoot Sample.fsb (2 * Sample.hour) Sample.aged_disk) = None.
Proof. vm_compute. repeat split; reflexivity. Qed.

(** * Further properties of the code *)

(** ** Guardian: every request, and the answer to a PUT *)

Section GuardianMore.
Context {ext : Externals}.

Lemma guardian_storeBranch_error (u : URL) (b b' : gmap string TransformResult)
    (preset rule : string) :
  (Guardian.storeBranch u b preset rule).2 = (Guardian.storeBranch u b' preset rule).2.
Proof.
  unfold Guardian.storeBranch. destruct (Transform rule (URL_String u)); [|reflexivity].
  now destruct (s3_put_err _).
Qed.

Lemma guardian_loop_errors (u : URL) (sched : list (string * string))
    (b b0 : gmap string TransformResult) :
  (Guardian.transformAllAndStore_loop u sched b).2
    = omap (fun pr => (Guardian.storeBranch u b0 pr.1 pr.2).2) sched.
Proof.
  revert b. induction sched as [|[preset rule] sched IH]; intros b; cbn; [reflexivity|].
  destruct (Guardian.storeBranch u b preset rule) as [b1 e] eqn:Hb.
  specialize (IH b1). destruct (Guardian.transformAllAndStore_loop u sched b1) as [b2 errs].
  cbn in *. rewrite <- IH, (guardian_storeBranch_error u b0 b), Hb. cbn. now destruct e.
Qed.

Lemma guardian_storeBranch_keeps (u : URL) (b : gmap string TransformResult)
    (preset rule k : string) :
  is_Some (b !! k) -> is_Some ((Guardian.storeBranch u b preset rule).1 !! k).
Proof.
  intros Hk. unfold Guardian.storeBranch. destruct (Transform rule (URL_String u)); [|easy].
  destruct (s3_put_err _); [easy|]. cbn.
  destruct (decide ("/" +:+ preset +:+ Path u = k)) as [->|Hne].
  - rewrite lookup_insert_eq. eauto.
  - now rewrite lookup_insert_ne.
Qed.

Lemma guardian_loop_keeps (u : URL) (sched : list (string * string))
    (b : gmap string TransformResult) (k : string) :
  is_Some (b !! k) -> is_Some ((Guardian.transformAllAndStore_loop u sched b).1 !! k).
Proof.
  revert b. induction sched as [|[preset rule] sched IH]; intros b Hk; cbn; [easy|].
  pose proof (guardian_storeBranch_keeps u b preset rule k Hk) as Hk1.
  destruct (Guardian.storeBranch u b preset rule) as [b1 e].
  specialize (IH b1 Hk1). now destruct (Guardian.transformAllAndStore_loop u sched b1).
Qed.

Lemma guardian_loop_stores (u : URL) (sched : list (string * string))
    (b : gmap string TransformResult) (preset rule : string) (res : TransformResult) :
  (preset, rule) ∈ sched ->
  Transform rule (URL_String u) = Ok res ->
  s3_put_err ("/" +:+ preset +:+ Path u) = None ->
  is_Some ((Guardian.transformAllAndStore_loop u sched b).1 !! ("/" +:+ preset +:+ Path u)).
Proof.
  intros Hin Hres Hput. revert b.
  induction sched as [|[p0 r0] sched IH]; intros b; [now apply elem_of_nil in Hin|].
  apply elem_of_cons in Hin as [Heq|Hin].
  - inversion Heq; subst p0 r0. cbn.
    destruct (Guardian.storeBranch u b preset rule) as [b1 e] eqn:Hb.
    pose proof (guardian_loop_keeps u sched b1 ("/" +:+ preset +:+ Path u)) as Hkeep.
    destruct (Guardian.transformAllAndStore_loop u sched b1) as [b2 errs]. cbn in *.
    apply Hkeep. unfold Guardian.storeBranch in Hb. rewrite Hres, Hput in Hb.
    inversion Hb; subst. rewrite lookup_insert_eq. eauto.
  - cbn. destruct (Guardian.storeBranch u b p0 r0) as [b1 e].
    specialize (IH Hin b1). now destruct (Guardian.transformAllAndStore_loop u sched b1).
Qed.

End GuardianMore.

(** X1: whatever the request, valid or not, a PUT or DELETE handler adds no
    mark to the in-flight set, and a PUT leaves the cache as it was. *)
Theorem guarded_handlers_add_no_mark {ext : Externals}
    (g : Guardian.Guardian) (sched : list (string * string)) (steps : list nat)
    (elapsed : string) (w : ResponseWriter) (r : Request) :
  (forall k b,
     Guardian.processing (Guardian.HandleStore g sched elapsed w r).2 !! k = Some b ->
     Guardian.processing g !! k = Some b) /\
  (forall k b,
     Guardian.processing (Guardian.HandleDelete g sched steps elapsed w r).2 !! k = Some b ->
     Guardian.processing g !! k = Some b) /\
  Guardian.Cache (Guardian.HandleStore g sched elapsed w r).2 = Guardian.Cache g.
Proof.
  destruct (String.eqb (FormValue r "url") "") eqn:Hraw.
  { unfold Guardian.HandleStore, Guardian.HandleDelete. rewrite Hraw. cbn. auto. }
  destruct (url_Parse (FormValue r "url")) as [u|e] eqn:Hparse.
  2:{ unfold Guardian.HandleStore, Guardian.HandleDelete. rewrite Hraw, Hparse. cbn. auto. }
  rewrite (HandleStore_processing g sched elapsed w r u Hraw Hparse).
  rewrite (HandleDelete_processing g sched elapsed w r u Hraw Hparse).
  split; [|split].
  - intros k b Hk. now apply lookup_delete_Some in Hk as [_ Hk].
  - intros k b Hk. now apply lookup_delete_Some in Hk as [_ Hk].
  - unfold Guardian.HandleStore. rewrite Hraw, Hparse, MarkProcessing_true. cbn [negb].
    pose proof (transformAllAndStore_processing
      (Guardian.mkGuardian (Guardian.Bucket g) (Guardian.Cache g)
         (<[Guardian.url_key u:=true]> (Guardian.processing g))) sched u) as [_ Hc].
    destruct (Guardian.transformAllAndStore _ sched u) as [g2 errCh]. cbn in Hc.
    now destruct (negb (String.eqb (err_lines errCh) "")).
Qed.

Lemma guarded_handlers_add_no_mark_witness :
  Guardian.processing Sample.busy !! Guardian.url_key (ext := Sample.absent) Sample.source
  = Some true.
Proof.
  apply (proj1 (proj2 (guarded_handlers_add_no_mark (ext := Sample.absent) Sample.busy
    Guardian.presets [0; 1; 0]%nat "0.01" newResponseWriter
    (mkRequest "DELETE" [("url", "https://y/b.jpg")])))).
  vm_compute. reflexivity.
Defined.

(** What a goroutine of [transformAllAndStore] sends to the channel: the
    error of the transformer, or else that of the upload. *)
Lemma guardian_loop_failures {ext : Externals} (u : URL) (sched : list (string * string))
    (b : gmap string TransformResult) :
  (Guardian.transformAllAndStore_loop u sched b).2
  = omap (fun pr => match Transform pr.2 (URL_String u) with
                    | Fail e => Some e
                    | Ok _ => s3_put_err ("/" +:+ pr.1 +:+ Path u)
                    end) sched.
Proof.
  rewrite (guardian_loop_errors u sched b b).
  induction sched as [|[preset rule] sched IH]; [reflexivity|].
  rewrite !omap_cons_eq, IH. unfold Guardian.storeBranch. cbn [fst snd].
  destruct (Transform rule (URL_String u)); [|reflexivity].
  now destruct (s3_put_err _).
Qed.

(** X2: the answer to a PUT with a usable [url].  A branch fails when the
    transformer fails or else when the upload does.  If no branch fails the
    handler only adds the elapsed-time header; otherwise it answers 500 with
    one [Err:] line for every failed branch, in the order in which they
    failed.  Either way every preset whose transformation and upload succeed
    has its object in the bucket afterwards. *)
Theorem HandleStore_answer {ext : Externals}
    (g : Guardian.Guardian) (sched : list (string * string)) (elapsed : string)
    (w : ResponseWriter) (r : Request) (u : URL) :
  String.eqb (FormValue r "url") "" = false ->
  url_Parse (FormValue r "url") = Ok u ->
  let failed :=
    omap (fun pr => match Transform pr.2 (URL_String u) with
                    | Fail e => Some e
                    | Ok _ => s3_put_err ("/" +:+ pr.1 +:+ Path u)
                    end) sched in
  (Guardian.HandleStore g sched elapsed w r).1
    = match failed with
      | [] => Header_Add "X-Peatix-Elapsed-Time" elapsed w
      | _ :: _ => http_Error w (err_lines failed) 500
      end /\
  (forall preset rule res,
     (preset, rule) ∈ sched ->
     Transform rule (URL_String u) = Ok res ->
     s3_put_err ("/" +:+ preset +:+ Path u) = None ->
     is_Some (Guardian.Bucket (Guardian.HandleStore g sched elapsed w r).2
                !! ("/" +:+ preset +:+ Path u))).
Proof.
  intros Hraw Hparse failed.
  unfold Guardian.HandleStore. rewrite Hraw, Hparse, MarkProcessing_true. cbn [negb].
  unfold Guardian.transformAllAndStore. cbn [Guardian.Bucket Guardian.Cache Guardian.processing].
  pose proof (guardian_loop_failures u sched (Guardian.Bucket g)) as He.
  fold failed in He.
  pose proof (fun preset rule res =>
    guardian_loop_stores u sched (Guardian.Bucket g) preset rule res) as Hs.
  destruct (Guardian.transformAllAndStore_loop u sched (Guardian.Bucket g)) as [b errCh].
  cbn [fst snd] in He, Hs. subst errCh.
  destruct (String.eqb (err_lines failed) "") eqn:Hb; cbn [negb fst snd].
  - apply err_lines_empty in Hb. rewrite Hb. split; [reflexivity|exact Hs].
  - destruct failed; [discriminate Hb|]. split; [reflexivity|exact Hs].
Qed.

Lemma HandleStore_answer_witness :
  (Guardian.HandleStore (ext := Sample.absent) Sample.idle
     [("small", "bad-1"); ("thumb", "100x100")] "0.01" newResponseWriter Sample.put).1
  = http_Error newResponseWriter
      (err_lines ["cannot apply bad-1 to https://x/a.jpg"]) 500.
Proof.
  exact (proj1 (HandleStore_answer (ext := Sample.absent) Sample.idle
    [("small", "bad-1"); ("thumb", "100x100")] "0.01" newResponseWriter Sample.put
    Sample.source ltac:(vm_compute; reflexivity) ltac:(vm_compute; reflexivity))).
Defined.

(** *** The answer to a DELETE *)

Section DeleteAnswer.
Context {ext : Externals}.
Variables (u : URL) (sched : list (string * string)).

Lemma goroutine_pcs (cap : nat) (preset : string) (p : Guardian.pc) (st : Guardian.fanout) :
  Guardian.pcs (Guardian.goroutine u cap preset p st).2 = Guardian.pcs st.
Proof.
  unfold Guardian.goroutine. destruct p; try reflexivity.
  - now destruct (s3_del_err _).
  - now destruct (_ <? _)%nat.
Qed.

(** A step touches the cache only when its goroutine is at the deletion of
    its key, and only such a step makes a goroutine return. *)
Lemma step_shape (cap i : nat) (st : Guardian.fanout) (preset rule : string)
    (p : Guardian.pc) :
  sched !! i = Some (preset, rule) -> Guardian.pcs st !! i = Some p ->
  exists p',
    Guardian.pcs (Guardian.step u cap sched i st) = <[i := p']> (Guardian.pcs st) /\
    ((p = Guardian.AtCacheDelete /\ p' = Guardian.Returned /\
      Guardian.Cache (Guardian.state (Guardian.step u cap sched i st))
      = delete (MakeCacheKey [preset; URL_String u]) (Guardian.Cache (Guardian.state st))) \/
     (Guardian.Cache (Guardian.state (Guardian.step u cap sched i st))
      = Guardian.Cache (Guardian.state st) /\
      (p' = Guardian.Returned -> p = Guardian.Returned))).
Proof.
  intros Hs Hp. unfold Guardian.step. rewrite Hs, Hp. unfold Guardian.goroutine.
  destruct p.
  - destruct (s3_del_err _); eexists; (split; [reflexivity|]); right; (split; [reflexivity|]);
      discriminate.
  - destruct (Guardian.err st); eexists; (split; [reflexivity|]); right;
      (split; [reflexivity|]); discriminate.
  - eexists. split; [reflexivity|]. right. split; [reflexivity|]. discriminate.
  - destruct (_ <? _)%nat; eexists; (split; [reflexivity|]); right; (split; [reflexivity|]);
      discriminate.
  - eexists. split; [reflexivity|]. left. repeat split; reflexivity.
  - eexists. split; [reflexivity|]. right. split; reflexivity.
Qed.

Lemma step_cleared (c0 : gmap string string) (cap i : nat) (st : Guardian.fanout) :
  Guardian.cleared u sched c0 st ->
  Guardian.cleared u sched c0 (Guardian.step u cap sched i st).
Proof.
  intros [Hkeys Hgone].
  destruct (sched !! i) as [[preset rule]|] eqn:Hs;
    [|unfold Guardian.step; rewrite Hs; now split].
  destruct (Guardian.pcs st !! i) as [p|] eqn:Hp;
    [|unfold Guardian.step; rewrite Hs, Hp; now split].
  destruct (step_shape cap i st preset rule p Hs Hp) as (p' & Hpcs & Hcache).
  assert (Hin : MakeCacheKey [preset; URL_String u]
                ∈ map (fun pr : string * string => MakeCacheKey [pr.1; URL_String u]) sched).
  { apply list_elem_of_fmap. exists (preset, rule). split; [reflexivity|].
    now apply list_elem_of_lookup_2 in Hs. }
  split.
  - intros k. destruct Hcache as [(_ & _ & ->)|[-> _]]; [|apply Hkeys].
    destruct (decide (k = MakeCacheKey [preset; URL_String u])) as [->|Hne].
    + right. split; [apply lookup_delete_eq|exact Hin].
    + rewrite lookup_delete_ne by congruence. apply Hkeys.
  - intros j preset' rule' Hs' Hj. rewrite Hpcs in Hj.
    apply list_lookup_insert_Some in Hj as [(<- & -> & _)|[Hne Hj]].
    + rewrite Hs in Hs'. injection Hs' as <- <-.
      destruct Hcache as [(_ & _ & ->)|[-> Hwas]]; [apply lookup_delete_eq|].
      apply (Hgone i preset rule Hs). now rewrite Hp, (Hwas eq_refl).
    + pose proof (Hgone j preset' rule' Hs' Hj) as Hnone.
      destruct Hcache as [(_ & _ & ->)|[-> _]]; [|exact Hnone].
      destruct (decide (MakeCacheKey [preset'; URL_String u]
                        = MakeCacheKey [preset; URL_String u])) as [->|Hk].
      * apply lookup_delete_eq.
      * now rewrite lookup_delete_ne by congruence.
Qed.

Lemma spawned_cleared (g : Guardian.Guardian) :
  Guardian.cleared u sched (Guardian.Cache g) (Guardian.spawned g sched).
Proof.
  split; [now left|]. intros i preset rule _ Hi. cbn in Hi.
  rewrite list_lookup_fmap in Hi. destruct (sched !! i); discriminate.
Qed.

Lemma step_sound (cap i : nat) (st : Guardian.fanout) :
  Guardian.sound u sched st -> Guardian.sound u sched (Guardian.step u cap sched i st).
Proof.
  intros (Herr & Hch & Hpcs). unfold Guardian.step.
  destruct (sched !! i) as [[preset rule]|] eqn:Hs; [|now repeat split].
  destruct (Guardian.pcs st !! i) as [p|] eqn:Hp; [|now repeat split].
  assert (Hno : forall p' : Guardian.pc, (forall v, p' <> Guardian.Sending v) ->
            Forall (fun p => forall v, p = Guardian.Sending v -> Guardian.from_Del u sched v)
              (<[i := p']> (Guardian.pcs st))).
  { intros p' Hp'. apply Forall_insert; [exact Hpcs|]. intros v ->. now destruct (Hp' v). }
  unfold Guardian.goroutine. destruct p.
  - destruct (s3_del_err _) as [e|] eqn:He; (split; [|split; [exact Hch|now apply Hno]]).
    + intros e0 [= <-]. exists preset, rule. split; [|exact He].
      now apply list_elem_of_lookup_2 in Hs.
    + discriminate.
  - split; [exact Herr|]. split; [exact Hch|]. destruct (Guardian.err st); now apply Hno.
  - split; [exact Herr|]. split; [exact Hch|]. apply Forall_insert; [exact Hpcs|].
    now intros v [= <-].
  - assert (Hv : Guardian.from_Del u sched v).
    { exact (proj1 (Forall_lookup _ _) Hpcs i _ Hp v eq_refl). }
    destruct (_ <? _)%nat; (split; [exact Herr|]).
    + split; [|now apply Hno]. apply Forall_app. split; [exact Hch|]. now constructor.
    + split; [exact Hch|]. apply Forall_insert; [exact Hpcs|]. now intros v' [= <-].
  - split; [exact Herr|]. split; [exact Hch|]. now apply Hno.
  - split; [exact Herr|]. split; [exact Hch|]. now apply Hno.
Qed.

Lemma spawned_sound (g : Guardian.Guardian) : Guardian.sound u sched (Guardian.spawned g sched).
Proof.
  split; [discriminate|]. split; [constructor|]. cbn. apply Forall_fmap, Forall_true.
  intros pr v. discriminate.
Qed.

Lemma step_quiet (cap i : nat) (st : Guardian.fanout) :
  Forall (fun pr : string * string => s3_del_err ("/" +:+ pr.1 +:+ Path u) = None) sched ->
  Guardian.quiet st -> Guardian.quiet (Guardian.step u cap sched i st).
Proof.
  intros Hnone (Herr & Hch & Hpcs). unfold Guardian.step.
  destruct (sched !! i) as [[preset rule]|] eqn:Hs; [|now repeat split].
  destruct (Guardian.pcs st !! i) as [p|] eqn:Hp; [|now repeat split].
  pose proof (proj1 (Forall_lookup _ _) Hnone i _ Hs) as Hdel. cbn in Hdel.
  pose proof (proj1 (Forall_lookup _ _) Hpcs i _ Hp) as [Hp1 Hp2].
  assert (Hin : forall p' : Guardian.pc,
            p' <> Guardian.AtSend -> (forall v, p' <> Guardian.Sending v) ->
            Forall (fun p => p <> Guardian.AtSend /\ forall v, p <> Guardian.Sending v)
              (<[i := p']> (Guardian.pcs st))).
  { intros p' H1 H2. now apply Forall_insert. }
  unfold Guardian.goroutine, Guardian.quiet. destruct p.
  - rewrite Hdel. cbn [Guardian.err Guardian.errCh Guardian.pcs].
    split; [reflexivity|]. split; [exact Hch|]. apply Hin; [discriminate|]. now intros v.
  - rewrite Herr. cbn [Guardian.err Guardian.errCh Guardian.pcs].
    split; [reflexivity|]. split; [exact Hch|]. apply Hin; [discriminate|]. now intros v.
  - now destruct Hp1.
  - now destruct (Hp2 v).
  - cbn [Guardian.err Guardian.errCh Guardian.pcs].
    split; [exact Herr|]. split; [exact Hch|]. apply Hin; [discriminate|]. now intros v.
  - cbn [Guardian.err Guardian.errCh Guardian.pcs].
    split; [exact Herr|]. split; [exact Hch|]. apply Hin; [discriminate|]. now intros v.
Qed.

Lemma spawned_quiet (g : Guardian.Guardian) : Guardian.quiet (Guardian.spawned g sched).
Proof.
  repeat split. cbn. apply Forall_fmap, Forall_true. intros pr. now split.
Qed.

(** A step of the goroutine at [i], the places given as a list with [p] at
    [i]. *)
Lemma step_at (cap i : nat) (preset rule : string) (p : Guardian.pc)
    (g : Guardian.Guardian) (e : option error) (ch : list (option error))
    (l : list Guardian.pc) :
  sched !! i = Some (preset, rule) -> (i < length l)%nat ->
  Guardian.step u cap sched i (Guardian.mkFanout g e ch (<[i := p]> l))
  = Guardian.mkFanout
      (Guardian.state (Guardian.goroutine u cap preset p
                         (Guardian.mkFanout g e ch (<[i := p]> l))).2)
      (Guardian.err (Guardian.goroutine u cap preset p
                       (Guardian.mkFanout g e ch (<[i := p]> l))).2)
      (Guardian.errCh (Guardian.goroutine u cap preset p
                         (Guardian.mkFanout g e ch (<[i := p]> l))).2)
      (<[i := (Guardian.goroutine u cap preset p
                 (Guardian.mkFanout g e ch (<[i := p]> l))).1]> l).
Proof.
  intros Hs Hi. unfold Guardian.step. rewrite Hs. cbn [Guardian.pcs].
  rewrite list_lookup_insert_eq by exact Hi.
  pose proof (goroutine_pcs cap preset p (Guardian.mkFanout g e ch (<[i := p]> l))) as Hpcs.
  destruct (Guardian.goroutine u cap preset p _) as [p' st']. cbn [fst snd] in *.
  rewrite Hpcs. cbn [Guardian.pcs]. now rewrite list_insert_insert_eq.
Qed.

(** A goroutine that runs from its start to its end without another one
    moving deletes, sends the error of its deletion if there is one, and
    clears its key. *)
Lemma finish_alone (i : nat) (preset rule : string) (st : Guardian.fanout) :
  sched !! i = Some (preset, rule) ->
  Guardian.pcs st !! i = Some Guardian.AtDel ->
  (length (Guardian.errCh st) < length sched)%nat ->
  Guardian.errCh (Guardian.finish u (length sched) sched i st)
  = Guardian.errCh st ++ match s3_del_err ("/" +:+ preset +:+ Path u) with
                         | Some e => [Some e]
                         | None => []
                         end /\
  Guardian.pcs (Guardian.finish u (length sched) sched i st)
  = <[i := Guardian.Returned]> (Guardian.pcs st).
Proof.
  intros Hs Hp Hroom. destruct st as [g e ch l]. cbn [Guardian.errCh Guardian.pcs] in *.
  assert (Hi : (i < length l)%nat) by now apply lookup_lt_Some in Hp.
  apply Nat.ltb_lt in Hroom.
  unfold Guardian.finish, Nat.iter. cbn [nat_rect].
  replace (Guardian.mkFanout g e ch l)
    with (Guardian.mkFanout g e ch (<[i := Guardian.AtDel]> l))
    by (now rewrite list_insert_id).
  rewrite (step_at _ i preset rule _ _ _ _ _ Hs Hi). cbn [Guardian.goroutine Guardian.state
    Guardian.err Guardian.errCh Guardian.pcs fst snd].
  destruct (s3_del_err ("/" +:+ preset +:+ Path u)) as [e0|];
    cbn [Guardian.state Guardian.err Guardian.errCh Guardian.pcs fst snd].
  - rewrite (step_at _ i preset rule _ _ _ _ _ Hs Hi). cbn [Guardian.goroutine Guardian.state
      Guardian.err Guardian.errCh Guardian.pcs fst snd].
    rewrite (step_at _ i preset rule _ _ _ _ _ Hs Hi). cbn [Guardian.goroutine Guardian.state
      Guardian.err Guardian.errCh Guardian.pcs fst snd].
    rewrite (step_at _ i preset rule _ _ _ _ _ Hs Hi). cbn [Guardian.goroutine Guardian.state
      Guardian.err Guardian.errCh Guardian.pcs fst snd]. rewrite Hroom.
    cbn [Guardian.state Guardian.err Guardian.errCh Guardian.pcs fst snd].
    rewrite (step_at _ i preset rule _ _ _ _ _ Hs Hi). cbn [Guardian.goroutine Guardian.state
      Guardian.err Guardian.errCh Guardian.pcs fst snd].
    split; reflexivity.
  - rewrite (step_at _ i preset rule _ _ _ _ _ Hs Hi). cbn [Guardian.goroutine Guardian.state
      Guardian.err Guardian.errCh Guardian.pcs fst snd].
    rewrite (step_at _ i preset rule _ _ _ _ _ Hs Hi). cbn [Guardian.goroutine Guardian.state
      Guardian.err Guardian.errCh Guardian.pcs fst snd].
    rewrite (step_at _ i preset rule _ _ _ _ _ Hs Hi). cbn [Guardian.goroutine Guardian.state
      Guardian.err Guardian.errCh Guardian.pcs fst snd].
    rewrite (step_at _ i preset rule _ _ _ _ _ Hs Hi). cbn [Guardian.goroutine Guardian.state
      Guardian.err Guardian.errCh Guardian.pcs fst snd].
    rewrite app_nil_r. split; reflexivity.
Qed.

(** The goroutines run one after the other: the channel gets one error per
    failed deletion, in the order of the table. *)
Lemma Wait_alone (rest : list (string * string)) :
  forall (done : list (string * string)) (st : Guardian.fanout),
  sched = done ++ rest ->
  Guardian.pcs st = map (fun _ => Guardian.Returned) done
                    ++ map (fun _ => Guardian.AtDel) rest ->
  (length (Guardian.errCh st) <= length done)%nat ->
  Guardian.errCh
    (fold_left (fun st i => Guardian.finish u (length sched) sched i st)
       (seq (length done) (length rest)) st)
  = Guardian.errCh st
    ++ map Some (omap (fun pr : string * string => s3_del_err ("/" +:+ pr.1 +:+ Path u)) rest).
Proof.
  induction rest as [|[preset rule] rest IH]; intros done st Hsched Hpcs Hch.
  - cbn. now rewrite app_nil_r.
  - cbn [length seq fold_left].
    assert (Hs : sched !! length done = Some (preset, rule)).
    { rewrite Hsched. now apply list_lookup_middle. }
    assert (Hp : Guardian.pcs st !! length done = Some Guardian.AtDel).
    { rewrite Hpcs. apply list_lookup_middle. now rewrite length_map. }
    assert (Hroom : (length (Guardian.errCh st) < length sched)%nat).
    { rewrite Hsched, length_app. cbn. lia. }
    destruct (finish_alone (length done) preset rule st Hs Hp Hroom) as [Hch' Hpcs'].
    replace (S (length done)) with (length (done ++ [(preset, rule)]))
      by (rewrite length_app; cbn; lia).
    rewrite (IH (done ++ [(preset, rule)])).
    + rewrite Hch', omap_cons_eq. cbn [fst].
      destruct (s3_del_err ("/" +:+ preset +:+ Path u)); cbn [map];
        now rewrite <- app_assoc.
    + now rewrite <- app_assoc.
    + rewrite Hpcs', Hpcs, map_app, <- app_assoc. cbn [map app].
      rewrite insert_app_r_alt by (rewrite length_map; lia).
      rewrite length_map, Nat.sub_diag. reflexivity.
    + rewrite Hch', !length_app. destruct (s3_del_err _); cbn; lia.
Qed.

End DeleteAnswer.

(** X3: a DELETE with a usable [url], its goroutines interleaved in any way.
    The cache key of (preset, source) is cleared for every preset, whether
    the object could be deleted from the bucket or not, and no other key is
    touched.  The answer is less sure, since the goroutines share the [err]
    of the handler: it has at most one line per preset, each line shows nil
    or the error of a deletion that failed, and it is the elapsed-time
    header alone when no deletion failed; it has exactly one line for every
    failed deletion when the goroutines run one after the other. *)
Theorem HandleDelete_clears_keys {ext : Externals}
    (g : Guardian.Guardian) (sched : list (string * string)) (steps : list nat)
    (elapsed : string) (w : ResponseWriter) (r : Request) (u : URL) :
  String.eqb (FormValue r "url") "" = false ->
  url_Parse (FormValue r "url") = Ok u ->
  (forall k,
     Guardian.Cache (Guardian.HandleDelete g sched steps elapsed w r).2 !! k
       = if bool_decide (k ∈ map (fun pr => MakeCacheKey [pr.1; URL_String u]) sched)
         then None else Guardian.Cache g !! k) /\
  (exists sent : list (option error),
     (length sent <= length sched)%nat /\
     Forall (fun v => forall e, v = Some e ->
               exists preset rule,
                 (preset, rule) ∈ sched /\
                 s3_del_err ("/" +:+ preset +:+ Path u) = Some e) sent /\
     (Guardian.HandleDelete g sched steps elapsed w r).1
       = match sent with
         | [] => Header_Add "X-Peatix-Elapsed-Time" elapsed w
         | _ :: _ => http_Error w (err_lines (map Guardian.format_s sent)) 500
         end) /\
  (Forall (fun pr => s3_del_err ("/" +:+ pr.1 +:+ Path u) = None) sched ->
   (Guardian.HandleDelete g sched steps elapsed w r).1
     = Header_Add "X-Peatix-Elapsed-Time" elapsed w) /\
  (Guardian.HandleDelete g sched [] elapsed w r).1
    = match omap (fun pr => s3_del_err ("/" +:+ pr.1 +:+ Path u)) sched with
      | [] => Header_Add "X-Peatix-Elapsed-Time" elapsed w
      | e :: failed => http_Error w (err_lines (e :: failed)) 500
      end.
Proof.
  intros Hraw Hparse.
  rewrite !(HandleDelete_past_guard g sched elapsed w r u Hraw Hparse). cbv zeta.
  set (g1 := Guardian.mkGuardian _ _ _). cbn [fst snd].
  set (st := Guardian.Wait u (length sched) sched
               (Guardian.run u (length sched) sched steps (Guardian.spawned g1 sched))).
  destruct (goroutines_keep u sched (length sched) (Guardian.roomy sched)
              (fun i st0 => step_roomy u sched (length sched) i st0)
              steps _ (spawned_roomy sched g1)) as [_ Hroomy].
  destruct (goroutines_keep u sched (length sched)
              (Guardian.cleared u sched (Guardian.Cache g1))
              (step_cleared u sched (Guardian.Cache g1) (length sched))
              steps _ (spawned_cleared u sched g1)) as [_ Hcleared].
  destruct (goroutines_keep u sched (length sched) (Guardian.sound u sched)
              (step_sound u sched (length sched))
              steps _ (spawned_sound u sched g1)) as [_ Hsound].
  pose proof (Wait_returns u sched _
    (proj1 (goroutines_keep u sched (length sched) (Guardian.roomy sched)
              (fun i st0 => step_roomy u sched (length sched) i st0)
              steps _ (spawned_roomy sched g1)))) as Hret.
  fold st in Hroomy, Hcleared, Hsound, Hret.
  split; [|split; [|split]].
  - intros k. cbn [Guardian.UnmarkProcessing Guardian.Cache].
    destruct Hcleared as [Hkeys Hgone]. case_bool_decide as Hin.
    + apply list_elem_of_fmap in Hin as ([preset rule] & -> & Hin). cbn [fst].
      apply list_elem_of_lookup_1 in Hin as [i Hi].
      apply (Hgone i preset rule Hi).
      destruct Hroomy as [Hlen _].
      destruct (lookup_lt_is_Some_2 (Guardian.pcs st) i) as [p Hp].
      { rewrite Hlen. now apply lookup_lt_Some in Hi. }
      rewrite Hp. f_equal.
      pose proof (proj1 (forallb_forall _ _) Hret p) as Hall.
      destruct p; try reflexivity;
        (discriminate Hall; apply list_elem_of_In; now apply list_elem_of_lookup_2 in Hp).
    + destruct (Hkeys k) as [->|[_ Hk]]; [reflexivity|contradiction].
  - exists (Guardian.errCh st). destruct Hroomy as [_ Hroom], Hsound as (_ & Hch & _).
    split; [lia|]. split; [exact Hch|reflexivity].
  - intros Hnone.
    destruct (goroutines_keep u sched (length sched) Guardian.quiet
                (fun i st0 => step_quiet u sched (length sched) i st0 Hnone)
                steps _ (spawned_quiet sched g1)) as [_ (_ & Hch & _)].
    fold st in Hch. now rewrite Hch.
  - unfold Guardian.run, Guardian.Wait. cbn [fold_left].
    pose proof (Wait_alone u sched sched [] (Guardian.spawned g1 sched) eq_refl eq_refl
                  ltac:(cbn; lia)) as Halone.
    change (length (@nil (string * string))) with 0%nat in Halone. rewrite Halone.
    cbn [Guardian.spawned Guardian.errCh app].
    destruct (omap _ sched) as [|e failed]; [reflexivity|].
    cbn [map]. rewrite map_map. cbn [Guardian.format_s]. now rewrite map_id.
Qed.

Lemma HandleDelete_clears_keys_witness :
  Guardian.Cache
    (Guardian.HandleDelete (ext := Sample.world (fun _ => Ok 404) Sample.no_fault
                                     (fun _ => Some "AccessDenied"))
       (Guardian.mkGuardian ∅ {[ Sample.cacheKey ["thumb"; "https://x/a.jpg"] := "cached" ]} ∅)
       [("thumb", "100x100")] [0%nat] "0.01" newResponseWriter Sample.put).2
    !! Sample.cacheKey ["thumb"; "https://x/a.jpg"] = None.
Proof.
  rewrite (proj1 (HandleDelete_clears_keys
    (ext := Sample.world (fun _ => Ok 404) Sample.no_fault (fun _ => Some "AccessDenied"))
    (Guardian.mkGuardian ∅ {[ Sample.cacheKey ["thumb"; "https://x/a.jpg"] := "cached" ]} ∅)
    [("thumb", "100x100")] [0%nat] "0.01" newResponseWriter Sample.put
    Sample.source ltac:(vm_compute; reflexivity) ltac:(vm_compute; reflexivity))).
  vm_compute. reflexivity.
Defined.

(** A failed deletion that is not reported.  The deletion for [pc-thumb]
    fails and assigns its error to [err]; before its goroutine tests [err],
    the goroutine of [ticket-thumb] assigns the nil of its own deletion.
    The first goroutine then finds nothing to send, and the DELETE is
    answered as a success. *)
Example HandleDelete_loses_a_failure :
  let world := Sample.world (fun _ => Ok 404) Sample.no_fault
                 (fun path => if String.eqb path "/pc-thumb/a.jpg"
                              then Some "AccessDenied" else None) in
  s3_del_err (Externals := world) "/pc-thumb/a.jpg" = Some "AccessDenied" /\
  (Guardian.HandleDelete (ext := world) Sample.idle Guardian.presets [0; 1; 0]%nat
     "0.01" newResponseWriter Sample.put).1
  = Header_Add "X-Peatix-Elapsed-Time" "0.01" newResponseWriter /\
  (Guardian.HandleDelete (ext := world) Sample.idle Guardian.presets []
     "0.01" newResponseWriter Sample.put).1
  = http_Error newResponseWriter (err_lines ["AccessDenied"]) 500.
Proof. vm_compute. repeat split; reflexivity. Qed.

(** A nil error that is reported.  The goroutine of [pc-thumb] has seen its
    error in [err] and is about to send it when the goroutine of
    [ticket-thumb] assigns nil; what is sent and printed is that nil. *)
Example HandleDelete_sends_nil :
  let world := Sample.world (fun _ => Ok 404) Sample.no_fault
                 (fun path => if String.eqb path "/pc-thumb/a.jpg"
                              then Some "AccessDenied" else None) in
  (Guardian.HandleDelete (ext := world) Sample.idle Guardian.presets [0; 0; 1; 0]%nat
     "0.01" newResponseWriter Sample.put).1
  = http_Error newResponseWriter (err_lines ["%!s(<nil>)"]) 500.
Proof. vm_compute. reflexivity. Qed.

(** X6: no goroutine of [HandleDelete] waits at its send.  The channel is
    made with room for [len(presets)] errors and every goroutine sends at
    most once: however the goroutines have moved, one that is about to send
    finds the channel short of full, so every goroutine comes to its end
    and [wg.Wait()] returns. *)
Theorem error_channel_has_room {ext : Externals} (u : URL)
    (sched : list (string * string)) (g : Guardian.Guardian) (steps : list nat) :
  let st := Guardian.run u (length sched) sched steps (Guardian.spawned g sched) in
  (forall i v,
     Guardian.pcs st !! i = Some (Guardian.Sending v) ->
     (length (Guardian.errCh st) < length sched)%nat /\
     Guardian.pcs (Guardian.step u (length sched) sched i st) !! i
     = Some Guardian.AtCacheDelete /\
     Guardian.errCh (Guardian.step u (length sched) sched i st)
     = Guardian.errCh st ++ [v]) /\
  forallb Guardian.returned
    (Guardian.pcs (Guardian.Wait u (length sched) sched st)) = true.
Proof.
  intros st.
  destruct (goroutines_keep u sched (length sched) (Guardian.roomy sched)
              (fun i st0 => step_roomy u sched (length sched) i st0)
              steps _ (spawned_roomy sched g)) as [Hroomy _].
  fold st in Hroomy. split; [|now apply Wait_returns].
  intros i v Hp. pose proof (sender_finds_room sched st i v Hroomy Hp) as Hroom.
  split; [exact Hroom|].
  destruct (lookup_lt_is_Some_2 sched i) as [[preset rule] Hs].
  { destruct Hroomy as [<- _]. now apply lookup_lt_Some in Hp. }
  unfold Guardian.step. rewrite Hs, Hp. cbn [Guardian.goroutine].
  apply Nat.ltb_lt in Hroom. rewrite Hroom. cbn [Guardian.pcs Guardian.errCh].
  split; [|reflexivity]. apply list_lookup_insert_eq. now apply lookup_lt_Some in Hp.
Qed.

Lemma error_channel_has_room_witness :
  (length
     (Guardian.errCh
        (Guardian.run (ext := Sample.world (fun _ => Ok 404%Z) Sample.no_fault
                                 (fun _ => Some "AccessDenied"))
           Sample.source 4 Guardian.presets [0; 0; 0; 1; 1; 1; 0]
           (Guardian.spawned Sample.idle Guardian.presets))) < 4)%nat.
Proof.
  exact (proj1 (proj1 (error_channel_has_room
    (ext := Sample.world (fun _ => Ok 404) Sample.no_fault (fun _ => Some "AccessDenied"))
    Sample.source Guardian.presets Sample.idle [0; 0; 0; 1; 1; 1; 0]%nat)
    1%nat (Some "AccessDenied") ltac:(vm_compute; reflexivity))).
Defined.

(** The room is needed: were the channel made without a buffer, a goroutine
    whose deletion fails would wait at its send for a receiver that only
    comes after [wg.Wait()], and would never return. *)
Example unbuffered_channel_blocks :
  Guardian.pcs
    (Guardian.Wait (ext := Sample.world (fun _ => Ok 404) Sample.no_fault
                              (fun _ => Some "AccessDenied"))
       Sample.source 0 [("thumb", "100x100")]
       (Guardian.spawned Sample.idle [("thumb", "100x100")]))
  = [Guardian.Sending (Some "AccessDenied")].
Proof. vm_compute. reflexivity. Qed.

(** ** S3 backend: invalidation *)

Section AwsDeleteMore.
Context {ext : Externals}.
Variable u : URL.

Lemma aws_deleteBranch_spec (s : aws.S3Backend) (preset : string) :
  aws.deleteBranch u s preset
  = (aws.mkS3Backend (aws.bucketName s)
       (match s3_del_err ("/" +:+ preset +:+ Path u) with
        | Some _ => aws.bucket s
        | None => delete ("/" +:+ preset +:+ Path u) (aws.bucket s)
        end)
       (delete (MakeCacheKey [preset; URL_String u]) (aws.cache s))
       (aws.presets s),
     s3_del_err ("/" +:+ preset +:+ Path u)).
Proof. unfold aws.deleteBranch. now destruct (s3_del_err _). Qed.

Lemma aws_deleteAll_spec (sched : list (string * string)) (s : aws.S3Backend) :
  aws.bucketName (aws.deleteAll u sched s).1 = aws.bucketName s /\
  aws.presets (aws.deleteAll u sched s).1 = aws.presets s /\
  (aws.deleteAll u sched s).2
    = omap (fun pr => s3_del_err ("/" +:+ pr.1 +:+ Path u)) sched /\
  (forall k,
     aws.cache (aws.deleteAll u sched s).1 !! k
       = if bool_decide (k ∈ map (fun pr => MakeCacheKey [pr.1; URL_String u]) sched)
         then None else aws.cache s !! k) /\
  (forall k,
     aws.bucket (aws.deleteAll u sched s).1 !! k
       = if bool_decide
              (k ∈ omap (fun pr => match s3_del_err ("/" +:+ pr.1 +:+ Path u) with
                                   | None => Some ("/" +:+ pr.1 +:+ Path u)
                                   | Some _ => None
                                   end) sched)
         then None else aws.bucket s !! k).
Proof.
  revert s. induction sched as [|[preset rule] sched IH]; intros s.
  - cbn. repeat split; intros k; rewrite bool_decide_eq_false_2;
      reflexivity || apply not_elem_of_nil.
  - cbn [aws.deleteAll map omap fst]. rewrite aws_deleteBranch_spec.
    set (s1 := aws.mkS3Backend _ _ _ _).
    destruct (IH s1) as (Hn & Hp & He & Hc & Hb).
    destruct (aws.deleteAll u sched s1) as [s2 errs]. cbn [fst snd] in *.
    split; [exact Hn|]. split; [exact Hp|]. split; [|split].
    + rewrite He. cbn. destruct (s3_del_err _); reflexivity.
    + intros k. rewrite Hc. subst s1. cbn [aws.cache].
      destruct (decide (k = MakeCacheKey [preset; URL_String u])) as [->|Hne].
      * rewrite (bool_decide_eq_true_2 (_ ∈ _ :: _)) by (apply elem_of_cons; now left).
        rewrite lookup_delete_eq. now case_bool_decide.
      * rewrite lookup_delete_ne by congruence.
        case_bool_decide as H1; case_bool_decide as H2; try reflexivity.
        -- exfalso. apply H2. apply elem_of_cons. now right.
        -- exfalso. apply elem_of_cons in H2 as [H2|H2]; congruence.
    + intros k. rewrite Hb. subst s1. cbn [aws.bucket].
      rewrite omap_cons_eq. cbn [fst].
      destruct (s3_del_err ("/" +:+ preset +:+ Path u)) as [e|] eqn:Hd; [reflexivity|].
      destruct (decide (k = "/" +:+ preset +:+ Path u)) as [->|Hne].
      * rewrite (bool_decide_eq_true_2 (_ ∈ _ :: _)) by (apply elem_of_cons; now left).
        rewrite lookup_delete_eq. now case_bool_decide.
      * rewrite lookup_delete_ne by congruence.
        case_bool_decide as H1; case_bool_decide as H2; try reflexivity.
        -- exfalso. apply H2. apply elem_of_cons. now right.
        -- exfalso. apply elem_of_cons in H2 as [H2|H2]; congruence.
Qed.


End AwsDeleteMore.


(** X5: invalidating a source a second time changes nothing: the backend
    is left as the first invalidation left it. *)
Theorem s3_Delete_twice {ext : Externals} (s : aws.S3Backend) (u : URL) :
  (aws.Delete (aws.Delete s u).1 u).1 = (aws.Delete s u).1.
Proof.
  rewrite !aws_Delete_state.
  destruct (aws_deleteAll_spec u (aws.presets s) s) as (Hn & Hp & _ & Hc & Hb).
  set (s1 := (aws.deleteAll u (aws.presets s) s).1) in *.
  rewrite Hp.
  destruct (aws_deleteAll_spec u (aws.presets s) s1) as (Hn2 & Hp2 & _ & Hc2 & Hb2).
  set (s2 := (aws.deleteAll u (aws.presets s) s1).1) in *.
  destruct s1 as [n1 b1 c1 p1], s2 as [n2 b2 c2 p2]. cbn in *. f_equal.
  - congruence.
  - apply map_eq. intros k. rewrite Hb2, Hb. now case_bool_decide.
  - apply map_eq. intros k. rewrite Hc2, Hc. now case_bool_decide.
  - congruence.
Qed.

(** ** S3 backend: what a materialisation stores *)

Lemma append_inv_tail (s1 s2 t : string) : s1 +:+ t = s2 +:+ t -> s1 = s2.
Proof.
  revert s2. induction s1 as [|c s1 IH]; intros [|c' s2] H.
  - reflexivity.
  - apply (f_equal String.length) in H. rewrite !append_length in H. cbn in H. lia.
  - apply (f_equal String.length) in H. rewrite !append_length in H. cbn in H. lia.
  - rewrite !append_cons in H. injection H as -> H. now rewrite (IH s2 H).
Qed.

(** The object key of a preset determines the preset. *)
Lemma object_key_inj (p1 p2 path : string) :
  "/" +:+ p1 +:+ path = "/" +:+ p2 +:+ path -> p1 = p2.
Proof.
  intros H. change ("/" +:+ ?p +:+ path) with (String os.slash (p +:+ path)) in H.
  injection H as H. exact (append_inv_tail _ _ _ H).
Qed.

Section AwsStoreMore.
Context {ext : Externals}.
Variable u : URL.

Lemma aws_storeBranch_other (s : aws.S3Backend) (preset rule k : string) :
  "/" +:+ preset +:+ Path u <> k ->
  aws.bucket (aws.storeBranch u s preset rule).1 !! k = aws.bucket s !! k.
Proof.
  intros Hne. unfold aws.storeBranch. destruct (Transform rule (URL_String u)); [|easy].
  destruct (s3_put_err _); [easy|]. cbn. now rewrite lookup_insert_ne.
Qed.

Lemma aws_storeAll_other (sched : list (string * string)) (s : aws.S3Backend) (k : string) :
  Forall (fun pr => "/" +:+ pr.1 +:+ Path u <> k) sched ->
  aws.bucket (aws.storeAll u sched s).1 !! k = aws.bucket s !! k.
Proof.
  revert s. induction sched as [|[preset rule] sched IH]; intros s HF; cbn; [reflexivity|].
  inversion HF as [|? ? Hne HF']; subst. cbn in Hne.
  pose proof (aws_storeBranch_other s preset rule k Hne) as Hb.
  destruct (aws.storeBranch u s preset rule) as [s1 e].
  specialize (IH s1 HF'). destruct (aws.storeAll u sched s1) as [s2 errs]. cbn in *.
  congruence.
Qed.

Lemma aws_storeAll_exact (sched : list (string * string)) (s : aws.S3Backend)
    (preset rule : string) (res : TransformResult) :
  NoDup (map fst sched) ->
  (preset, rule) ∈ sched ->
  Transform rule (URL_String u) = Ok res ->
  s3_put_err ("/" +:+ preset +:+ Path u) = None ->
  aws.bucket (aws.storeAll u sched s).1 !! ("/" +:+ preset +:+ Path u) = Some res.
Proof.
  intros Hnd Hin Hres Hput. revert s.
  induction sched as [|[p0 r0] sched IH]; intros s; [now apply elem_of_nil in Hin|].
  cbn in Hnd. apply NoDup_cons in Hnd as [Hp0 Hnd].
  apply elem_of_cons in Hin as [Heq|Hin].
  - inversion Heq; subst p0 r0. cbn.
    destruct (aws.storeBranch u s preset rule) as [s1 e] eqn:Hb.
    pose proof (aws_storeAll_other sched s1 ("/" +:+ preset +:+ Path u)) as Hother.
    destruct (aws.storeAll u sched s1) as [s2 errs]. cbn in *.
    rewrite Hother.
    + unfold aws.storeBranch in Hb. rewrite Hres, Hput in Hb. inversion Hb; subst. cbn.
      apply lookup_insert_eq.
    + apply Forall_forall. intros [p1 r1] Hin1 Heq1. cbn in Heq1.
      apply object_key_inj in Heq1. subst p1. apply Hp0.
      apply list_elem_of_fmap. exists (preset, r1). split; [reflexivity|exact Hin1].
  - cbn. destruct (aws.storeBranch u s p0 r0) as [s1 e].
    specialize (IH Hnd Hin s1). now destruct (aws.storeAll u sched s1) as [s2 errs].
Qed.

Lemma aws_StoreTransformedContent_state (s : aws.S3Backend) :
  (aws.StoreTransformedContent s u).1 = (aws.storeAll u (aws.presets s) s).1.
Proof.
  unfold aws.StoreTransformedContent.
  destruct (aws.storeAll u (aws.presets s) s) as [s1 errCh].
  now destruct (negb (String.eqb (err_lines errCh) "")).
Qed.

End AwsStoreMore.

(** X7: what an S3 materialisation does to the bucket.  It never removes an
    object; it leaves every key alone that is not the key of one of its
    presets; and, the preset names being distinct, every preset whose
    transformation and upload succeed holds exactly the transformed result
    afterwards, whatever happened to the other presets. *)
Theorem s3_materialize_bucket {ext : Externals} (s : aws.S3Backend) (u : URL) :
  (forall k, is_Some (aws.bucket s !! k) ->
     is_Some (aws.bucket (aws.StoreTransformedContent s u).1 !! k)) /\
  (forall k, Forall (fun pr => "/" +:+ pr.1 +:+ Path u <> k) (aws.presets s) ->
     aws.bucket (aws.StoreTransformedContent s u).1 !! k = aws.bucket s !! k) /\
  (NoDup (map fst (aws.presets s)) ->
   forall preset rule res,
     (preset, rule) ∈ aws.presets s ->
     Transform rule (URL_String u) = Ok res ->
     s3_put_err ("/" +:+ preset +:+ Path u) = None ->
     aws.bucket (aws.StoreTransformedContent s u).1 !! ("/" +:+ preset +:+ Path u)
       = Some res).
Proof.
  rewrite aws_StoreTransformedContent_state. split; [|split].
  - intros k. apply aws_storeAll_keeps.
  - intros k. apply aws_storeAll_other.
  - intros Hnd preset rule res. now apply aws_storeAll_exact.
Qed.

Lemma s3_materialize_bucket_witness :
  aws.bucket
    (aws.StoreTransformedContent (ext := Sample.absent)
       (aws.mkS3Backend "ix.peatix.com" ∅ ∅ [("small", "bad-1"); ("thumb", "100x100")])
       Sample.source).1
    !! "/thumb/a.jpg"
  = Some (mkResult "100x100 of https://x/a.jpg" 26 "image/jpeg").
Proof.
  exact (proj2 (proj2 (s3_materialize_bucket (ext := Sample.absent)
    (aws.mkS3Backend "ix.peatix.com" ∅ ∅ [("small", "bad-1"); ("thumb", "100x100")])
    Sample.source))
    ltac:(refine (bool_decide_unpack _ _); vm_compute; exact I)
    "thumb" "100x100" (mkResult "100x100 of https://x/a.jpg" 26 "image/jpeg")
    ltac:(apply elem_of_cons; right; apply elem_of_cons; now left)
    ltac:(vm_compute; reflexivity) ltac:(vm_compute; reflexivity)).
Defined.

(** ** File system backend: what a branch writes *)

(** X8: a branch of the file system materialisation that returns no error
    has written the transformed content at the address of (preset, source).
    Where no file was, the file holds exactly that content.  Where a file
    was, the content is written over it from the start and the file is not
    truncated: a result shorter than the old file leaves a file of the old
    length.  The files at other addresses are as they were. *)
Theorem fs_branch_writes_at_address {ext : Externals}
    (f : fs.Backend) (u : URL) (now : Z) (disk disk' : os.node) (preset rule : string) :
  fs.storeBranch f u now disk preset rule = (disk', None) ->
  let path := fs.EncodeFilename f preset (URL_String u) in
  exists res, Transform rule (URL_String u) = Ok res /\
    (os.find path disk = None ->
     os.find path disk' = Some (os.File (os.fresh now) (Content res))) /\
    (forall i old,
       os.find path disk = Some (os.File i old) ->
       os.find path disk'
         = Some (os.File (os.mkInode now (os.stat_err i) (os.remove_err i))
                         (os.overwrite old (Content res))) /\
       ((String.length (Content res) <= String.length old)%nat ->
        String.length (os.overwrite old (Content res)) = String.length old)) /\
    (forall q i c, q <> path ->
       os.find q disk = Some (os.File i c) -> os.find q disk' = Some (os.File i c)).
Proof.
  intros Hb path.
  destruct (storeBranch_ok f u now disk disk' preset rule Hb)
    as (res & Ht & Hnew & Hold & Hother & _).
  exists res. split; [exact Ht|]. split; [exact Hnew|]. split; [|exact Hother].
  intros i old Hfound. split; [now apply Hold|apply overwrite_length].
Qed.

Lemma fs_branch_writes_at_address_witness :
  os.find Sample.derivative
    (fs.storeBranch (ext := Sample.absent) Sample.fsb Sample.source 5 Sample.stored_disk
       "thumb" "10x10").1
  = Some (os.File (os.mkInode 5 None None) "10x10 of https://x/a.jpgpg").
Proof.
  destruct (fs_branch_writes_at_address (ext := Sample.absent) Sample.fsb Sample.source 5
              Sample.stored_disk
              (fs.storeBranch (ext := Sample.absent) Sample.fsb Sample.source 5
                 Sample.stored_disk "thumb" "10x10").1
              "thumb" "10x10" ltac:(vm_compute; reflexivity))
    as (res & Ht & _ & Hold & _).
  injection Ht as <-.
  exact (proj1 (Hold (os.fresh 0) "100x100 of https://x/a.jpg" ltac:(vm_compute; reflexivity))).
Defined.

(** X9: when the file system materialisation returns no error, every preset
    of the table has a regular file at its address afterwards. *)
Theorem fs_materialize_then_found {ext : Externals}
    (f : fs.Backend) (u : URL) (now : Z) (disk : os.node) :
  (fs.StoreTransformedContent f u now disk).1.2 = None ->
  forall preset rule, (preset, rule) ∈ fs.presets f ->
  exists i c,
    os.find (fs.EncodeFilename f preset (URL_String u))
      (fs.StoreTransformedContent f u now disk).1.1.2 = Some (os.File i c).
Proof.
  unfold fs.StoreTransformedContent.
  pose proof (storeAll_ok_files f u now (fs.presets f) disk) as H.
  destruct (fs.storeAll f u now (fs.presets f) disk) as [disk1 returned]. cbn in *.
  exact H.
Qed.

Lemma fs_materialize_then_found_witness :
  exists i c,
    os.find Sample.derivative
      (fs.StoreTransformedContent (ext := Sample.absent) Sample.fsb Sample.source 5
         Sample.empty_disk).1.1.2 = Some (os.File i c).
Proof.
  exact (fs_materialize_then_found (ext := Sample.absent) Sample.fsb Sample.source 5
           Sample.empty_disk ltac:(vm_compute; reflexivity) "thumb" "100x100"
           ltac:(apply elem_of_cons; now left)).
Defined.

(** ** Read path: the second request, and a swept derivative *)

Lemma eqb_literal_append (c : Ascii.ascii) (s t : string) :
  String.eqb (String c s +:+ t) "" = false.
Proof. reflexivity. Qed.

(** X10: the GET that follows a probe hit.  Once the first GET has found the
    derivative and its cache update has run, the same GET is answered from
    the cache: the S3 backend redirects (301) to the same address without
    probing, the file system backend serves the same file without a
    [Stat]; neither spawns anything nor changes the cache again. *)
Theorem second_GET_is_cache_hit {ext : Externals}
    (w : ResponseWriter) (r : Request) (u : URL) (preset : string) :
  GetTargetURL r = Ok u ->
  GetPresetFromRequest r = Ok preset ->
  (forall s : aws.S3Backend,
     let specificURL :=
       "http://" +:+ aws.bucketName s +:+ ".s3.amazonaws.com/" +:+ preset +:+ Path u in
     urlcache.Lookup (aws.cache s) (MakeCacheKey ["s3"; preset; URL_String u]) = "" ->
     http_Head specificURL = Ok 200 ->
     aws.Serve (fold_left aws.run (aws.Serve s w r).2 s) w r
       = (WriteHeader 301 (Header_Add "Location" specificURL w), [])) /\
  (forall (f : fs.Backend) (disk : os.node) (i : os.inode),
     let path := fs.EncodeFilename f preset (URL_String u) in
     urlcache.Lookup (fs.cache f) (MakeCacheKey ["fs"; preset; URL_String u]) = "" ->
     os.Stat path disk = Ok i ->
     fs.Serve (fs.Serve f disk w r).1.2 disk w r
       = (http_ServeFile w (os.render path) disk, (fs.Serve f disk w r).1.2, [])).
Proof.
  intros Ht Hp. split.
  - intros s specificURL Hmiss Hhead.
    rewrite (aws_Serve_miss w r u preset Ht Hp s Hmiss). cbv zeta. fold specificURL.
    rewrite Hhead. cbn [Z.eqb Pos.eqb snd fold_left aws.run].
    unfold aws.Serve. rewrite Ht, Hp. cbn [aws.cache]. unfold urlcache.Lookup, urlcache.Set_.
    rewrite lookup_insert_eq. cbn [default from_option id]. unfold specificURL.
    now rewrite eqb_literal_append.
  - intros f disk i path Hmiss Hstat.
    rewrite (fs_Serve_miss w r u preset Ht Hp f disk Hmiss). cbv zeta. fold path.
    rewrite Hstat. cbn [fst snd].
    unfold fs.Serve. rewrite Ht, Hp. cbn [fs.cache]. unfold urlcache.Lookup, urlcache.Set_.
    rewrite lookup_insert_eq. cbn [default from_option id]. unfold os.render.
    now rewrite eqb_literal_append.
Qed.

Lemma second_GET_is_cache_hit_witness :
  aws.Serve (ext := Sample.present)
    (fold_left (aws.run (ext := Sample.present))
       (aws.Serve (ext := Sample.present) Sample.s3 newResponseWriter (Sample.get "thumb")).2
       Sample.s3)
    newResponseWriter (Sample.get "thumb")
  = (WriteHeader 301
       (Header_Add "Location" "http://ix.peatix.com.s3.amazonaws.com/thumb/a.jpg"
          newResponseWriter), []).
Proof.
  exact (proj1 (second_GET_is_cache_hit (ext := Sample.present) newResponseWriter
    (Sample.get "thumb") Sample.source "thumb"
    ltac:(vm_compute; reflexivity) ltac:(vm_compute; reflexivity))
    Sample.s3 ltac:(vm_compute; reflexivity) ltac:(vm_compute; reflexivity)).
Defined.

Section SweptDerivative.
Variables (f : fs.Backend) (now : Z).

(** An expired file the walk comes to, and can remove, is gone after the
    sweep. *)
Lemma CleanStorageRoot_removes (disk n : os.node) (p : list string)
    (i : os.inode) (c : string) :
  0 < fs.imageTTL f -> os.wf disk = true ->
  os.find (os.split (fs.root f)) disk = Some n ->
  os.entered p n = true -> os.split (fs.root f) ++ p <> [] ->
  os.find p n = Some (os.File i c) ->
  fs.expired f now i = true -> os.remove_err i = None ->
  os.find (os.split (fs.root f) ++ p) (fs.CleanStorageRoot f now disk) = None.
Proof.
  intros Httl Hwf Hroot Hent Hne Hfile Hexp Hrm.
  rewrite (CleanStorageRoot_graft f now disk n Httl Hwf Hroot).
  rewrite (find_graft_app _ p _ disk n Hwf Hroot).
  - rewrite (find_swept f now p n _ (wf_find _ _ _ Hwf Hroot) Hent Hfile).
    assert (Hs : os.stat_err i = None).
    { clear -Hent Hfile. revert n Hent Hfile. induction p as [|x p IH]; intros n Hent Hfile.
      - cbn in Hfile. injection Hfile as ->. cbn in Hent. now destruct (os.stat_err i).
      - cbn in Hent. destruct (os.stat_err (os.stat_of n)); [discriminate|].
        destruct n as [j c0|j es]; [discriminate|]. cbn in Hfile.
        destruct (os.lookup_entry x es) as [c0|]; [|discriminate]. exact (IH c0 Hent Hfile). }
    cbn [fs.swept os.stat_of]. rewrite Hs, Hexp. unfold os.removable, os.unremovable.
    cbn [os.stat_of]. now rewrite Hrm.
  - destruct (decide (os.split (fs.root f) = [])) as [Hr|Hr]; [right|now left].
    rewrite Hr in Hne. destruct p as [|y p]; [now cbn in Hne|].
    exact (swept_entered f now y p n Hent).
Qed.

End SweptDerivative.

(** X11: the sweep does not tell the cache.  When it has removed an expired
    derivative whose cache entry is still there, a GET for that derivative
    is a cache hit on a file that is gone: it is answered 404, and no
    materialisation is spawned to bring the derivative back. *)
Theorem swept_derivative_is_answered_404 {ext : Externals}
    (f : fs.Backend) (now : Z) (disk n : os.node)
    (w : ResponseWriter) (r : Request) (u : URL) (preset : string)
    (i : os.inode) (c : string) :
  let path := fs.EncodeFilename f preset (URL_String u) in
  GetTargetURL r = Ok u ->
  GetPresetFromRequest r = Ok preset ->
  urlcache.Lookup (fs.cache f) (MakeCacheKey ["fs"; preset; URL_String u]) = os.render path ->
  0 < fs.imageTTL f -> os.wf disk = true ->
  os.find (os.split (fs.root f)) disk = Some n ->
  os.entered (os.split (HashedPath preset (URL_String u))) n = true ->
  os.find (os.split (HashedPath preset (URL_String u))) n = Some (os.File i c) ->
  path <> [] ->
  fs.expired f now i = true -> os.remove_err i = None ->
  fs.Serve f (fs.CleanStorageRoot f now disk) w r
    = (http_Error w "404 page not found" 404, f, []).
Proof.
  intros path Ht Hp Hhit Httl Hwf Hroot Hent Hfile Hne Hexp Hrm.
  unfold fs.Serve. rewrite Ht, Hp, Hhit. unfold os.render at 1.
  rewrite eqb_literal_append. cbn [negb]. unfold http_ServeFile.
  rewrite (split_render path (Join_components _ _)).
  unfold path, fs.EncodeFilename, filepath.Join.
  now rewrite (CleanStorageRoot_removes f now disk n _ i c Httl Hwf Hroot Hent Hne Hfile Hexp Hrm).
Qed.

Lemma swept_derivative_is_answered_404_witness :
  fs.Serve (ext := Sample.absent) Sample.fs_cached
    (fs.CleanStorageRoot Sample.fs_cached (2 * Sample.hour) Sample.stored_disk)
    newResponseWriter (Sample.get "thumb")
  = (http_Error newResponseWriter "404 page not found" 404, Sample.fs_cached, []).
Proof.
  exact (swept_derivative_is_answered_404 (ext := Sample.absent) Sample.fs_cached
    (2 * Sample.hour) Sample.stored_disk
    (os.Dir (os.fresh 0)
       [("thumb", os.Dir (os.fresh 0)
          [("5100774299828810971", os.File (os.fresh 0) "100x100 of https://x/a.jpg")])])
    newResponseWriter (Sample.get "thumb") Sample.source "thumb"
    (os.fresh 0) "100x100 of https://x/a.jpg"
    ltac:(vm_compute; reflexivity) ltac:(vm_compute; reflexivity)
    ltac:(vm_compute; reflexivity) ltac:(vm_compute; reflexivity)
    ltac:(vm_compute; reflexivity) ltac:(vm_compute; reflexivity)
    ltac:(vm_compute; reflexivity) ltac:(vm_compute; reflexivity)
    ltac:(vm_compute; discriminate)
    ltac:(vm_compute; reflexivity) ltac:(vm_compute; reflexivity)).
Defined.

(** ** The TTL test *)

(** X12: with the TTL a [Duration] (an [int64]), an entry is expired
    exactly when the clock minus its modification time is greater than the
    TTL and the TTL is not [maxDuration] itself: the saturating subtraction
    makes a TTL of [maxDuration] expire nothing. *)
Theorem expired_iff (f : fs.Backend) (now : Z) (i : os.inode) :
  time.minDuration <= fs.imageTTL f <= time.maxDuration ->
  (fs.expired f now i = true <->
   now - os.ModTime i > fs.imageTTL f /\ fs.imageTTL f < time.maxDuration).
Proof.
  unfold fs.expired, time.Since, time.Sub, time.maxDuration, time.minDuration.
  change (2 ^ 63) with 9223372036854775808.
  intros Hrange. rewrite Z.gtb_ltb, Z.ltb_lt. lia.
Qed.

Lemma expired_iff_witness :
  fs.expired Sample.fsb (2 * Sample.hour) (os.fresh 0) = true <->
  2 * Sample.hour - os.ModTime (os.fresh 0) > fs.imageTTL Sample.fsb /\
  fs.imageTTL Sample.fsb < time.maxDuration.
Proof.
  apply (expired_iff Sample.fsb (2 * Sample.hour) (os.fresh 0)).
  vm_compute. split; discriminate.
Defined.

(** ** Building the dispatcher *)

Lemma compileAll_spec (Compile : string -> result Dispatcher.Regexp)
    (patterns : list string) :
  match Dispatcher.compileAll Compile patterns with
  | Ok whitelist => map Ok whitelist = map Compile patterns
  | Fail e =>
      exists before pat after,
        patterns = before ++ pat :: after /\ Compile pat = Fail e /\
        Forall (fun p => exists re, Compile p = Ok re) before
  end.
Proof.
  induction patterns as [|pat patterns IH]; cbn; [reflexivity|].
  destruct (Compile pat) as [re|e] eqn:Hc.
  - destruct (Dispatcher.compileAll Compile patterns) as [whitelist|e].
    + cbn. now rewrite IH.
    + destruct IH as (before & bad & after & -> & Hbad & Hall).
      exists (pat :: before), bad, after. repeat split; [exact Hbad|].
      constructor; eauto.
  - exists [], pat, patterns. repeat split; [exact Hc|constructor].
Qed.

(** X13: [NewDispatcher] compiles the configured patterns in order.  If
    all compile, the dispatcher's whitelist holds the compiled patterns, as
    many and in the same order, next to the guardian it was given; otherwise
    the error is that of the first pattern that does not compile. *)
Theorem NewDispatcher_compiles_whitelist
    (Compile : string -> result Dispatcher.Regexp) (patterns : list string)
    (g : Guardian.Guardian) :
  match Dispatcher.NewDispatcher Compile patterns g with
  | Ok d =>
      Dispatcher.guardian d = g /\
      map Ok (Dispatcher.whitelist d) = map Compile patterns /\
      length (Dispatcher.whitelist d) = length patterns
  | Fail e =>
      exists before pat after,
        patterns = before ++ pat :: after /\ Compile pat = Fail e /\
        Forall (fun p => exists re, Compile p = Ok re) before
  end.
Proof.
  unfold Dispatcher.NewDispatcher. pose proof (compileAll_spec Compile patterns) as H.
  destruct (Dispatcher.compileAll Compile patterns) as [whitelist|e]; [|exact H].
  cbn. repeat split; [exact H|].
  apply (f_equal length) in H. now rewrite !length_map in H.
Qed.

(** A dispatcher built from one pattern answers as that pattern says. *)
Example NewDispatcher_sample :
  match Dispatcher.NewDispatcher Sample.compile ["^https://x/"] Sample.idle with
  | Ok d =>
      (Dispatcher.HandleFetch (backend := Dispatcher.s3_backend (ext := Sample.absent))
         d Sample.s3 newResponseWriter
         (mkRequest "GET" [("url", "https://y/a.jpg"); ("preset", "thumb")])).1.1
      = http_Error newResponseWriter "Specified url not allowed" 403
  | Fail _ => False
  end /\
  Dispatcher.NewDispatcher Sample.compile ["^https://x/"; "x("] Sample.idle
    = Fail "error parsing regexp: x(".
Proof. vm_compute. split; reflexivity. Qed.

(** ** The reaper only removes *)

Section SweepOnlyRemoves.
Variables (f : fs.Backend) (now : Z).

Lemma lookup_keep_entries_None (g : os.node -> option os.node) (x : string)
    (es : list (string * os.node)) :
  os.lookup_entry x es = None -> os.lookup_entry x (os.keep_entries g es) = None.
Proof.
  induction es as [|[y d] es IH]; cbn; [reflexivity|].
  destruct (String.eqb_spec x y) as [->|Hne]; [discriminate|]. intros Hl.
  destruct (g d); cbn; [|now apply IH].
  destruct (String.eqb_spec x y); [congruence|now apply IH].
Qed.

Lemma find_swept_was (q : list string) (i : os.inode) (c : string) :
  forall n, os.wf n = true ->
  fs.swept f now n ≫= os.find q = Some (os.File i c) ->
  os.find q n = Some (os.File i c).
Proof.
  induction q as [|x q IH]; intros n Hwf Hs.
  - destruct n as [j c0|j es]; cbn [fs.swept os.stat_of] in Hs;
      (destruct (os.stat_err j); [exact Hs|]);
      (destruct (fs.expired f now j && os.removable _); [discriminate|]);
      [exact Hs|discriminate Hs].
  - destruct n as [j c0|j es]; cbn [fs.swept os.stat_of] in Hs;
      (destruct (os.stat_err j); [exact Hs|]);
      (destruct (fs.expired f now j && os.removable _); [discriminate|]);
      [exact Hs|].
    cbn in Hs |- *. apply wf_Dir in Hwf as [Hnd Hall].
    destruct (os.lookup_entry x es) as [c0|] eqn:Hl.
    + rewrite (lookup_keep_entries _ x c0 es Hnd Hl) in Hs.
      apply IH.
      * rewrite Forall_forall in Hall. exact (Hall _ (lookup_entry_elem _ _ _ Hl)).
      * now destruct (fs.swept f now c0).
    + now rewrite (lookup_keep_entries_None _ x es Hl) in Hs.
Qed.

(** A file found outside a replaced entry was there before. *)
Lemma find_graft_other_was (p q : list string) (o : option os.node) (d : os.node)
    (i : os.inode) (c : string) :
  ~ p `prefix_of` q ->
  os.find q (os.graft p o d) = Some (os.File i c) ->
  os.find q d = Some (os.File i c).
Proof.
  unfold os.graft. revert q d. induction p as [|x p IH]; intros q d Hpre Hq.
  - exfalso. apply Hpre. apply prefix_nil.
  - cbn in Hq. destruct d as [j c0|j es]; [exact Hq|].
    destruct (os.lookup_entry x es) as [c0|] eqn:Hl; [|exact Hq].
    destruct q as [|y q]; [now destruct (os.put p o c0)|]. cbn.
    destruct (decide (x = y)) as [->|Hxy].
    + assert (Hpq : ~ p `prefix_of` q).
      { intros Hp. apply Hpre. now apply prefix_cons. }
      rewrite Hl. apply (IH q c0 Hpq).
      destruct (os.put p o c0) as [c'|] eqn:Hput; cbn in Hq |- *.
      * now rewrite (lookup_replace_entry y c0 c' es Hl) in Hq.
      * destruct p as [|z p]; [exfalso; apply Hpq, prefix_nil|].
        destruct (put_cons_Some z p o c0) as [c' Hc']. congruence.
    + destruct (os.put p o c0) as [c'|]; cbn in Hq.
      * now rewrite lookup_replace_entry_ne in Hq.
      * now rewrite lookup_del_entry_ne in Hq.
Qed.

End SweepOnlyRemoves.

(** X14: the sweep only removes.  Every regular file found on a well-formed
    disk after a sweep was there before it, at the same path, with the same
    content and the same modification time. *)
Theorem sweep_only_removes (f : fs.Backend) (now : Z) (disk : os.node)
    (q : list string) (i : os.inode) (c : string) :
  os.wf disk = true ->
  os.find q (fs.CleanStorageRoot f now disk) = Some (os.File i c) ->
  os.find q disk = Some (os.File i c).
Proof.
  intros Hwf. destruct (Z.leb_spec (fs.imageTTL f) 0) as [Hle|Hlt].
  { unfold fs.CleanStorageRoot. destruct (Z.leb_spec (fs.imageTTL f) 0); [easy|lia]. }
  destruct (os.find (os.split (fs.root f)) disk) as [n|] eqn:Hroot;
    [|now rewrite (CleanStorageRoot_no_root f now disk Hroot)].
  rewrite (CleanStorageRoot_graft f now disk n Hlt Hwf Hroot).
  destruct (decide (os.split (fs.root f) `prefix_of` q)) as [[q' ->]|Hpre];
    [|now apply find_graft_other_was].
  destruct (fs.swept f now n) as [n'|] eqn:Hsw.
  - rewrite (find_graft_app _ q' (Some n') disk n Hwf Hroot) by eauto.
    intros Hq. rewrite find_app, Hroot. cbn.
    apply (find_swept_was f now q' i c n (wf_find _ _ _ Hwf Hroot)). now rewrite Hsw.
  - destruct (decide (os.split (fs.root f) = [])) as [Hr|Hr].
    + rewrite Hr. unfold os.graft. cbn. easy.
    + rewrite (find_graft_app _ q' None disk n Hwf Hroot) by now left. discriminate.
Qed.

Lemma sweep_only_removes_witness :
  os.find ["var"; "sharaq"; "thumb"; "2"] Sample.aged_disk
  = Some (os.File (os.fresh Sample.recent) "new").
Proof.
  apply (sweep_only_removes Sample.fsb (2 * Sample.hour) Sample.aged_disk);
    vm_compute; reflexivity.
Defined.

(** ** File system backend: a successful invalidation *)

Section DiskRemoves.

Lemma remove_at_ok (p : list string) :
  forall d d', os.remove_at p d = Ok d' ->
  d' = os.graft p None d /\ p <> [] /\ is_Some (os.find p d).
Proof.
  unfold os.graft. induction p as [|x p IH]; intros d d' Hr; [discriminate|].
  cbn in Hr. destruct d as [j c0|j es]; [discriminate|]. cbn.
  destruct (os.lookup_entry x es) as [c0|] eqn:Hl; [|discriminate].
  destruct p as [|y p].
  - destruct (os.unremovable c0); [discriminate|]. injection Hr as <-. cbn. eauto.
  - destruct (os.remove_at (y :: p) c0) as [c'|e] eqn:Hp; [|discriminate].
    injection Hr as <-. destruct (IH c0 c' Hp) as (Hc' & _ & Hsome).
    destruct (put_cons_Some y p None c0) as [c'' Hput]. rewrite Hput in *. cbn in Hc'.
    subst c''. repeat split; [discriminate|exact Hsome].
Qed.

Lemma replace_entry_names (x : string) (c : os.node) (es : list (string * os.node)) :
  map fst (os.replace_entry x c es) = map fst es.
Proof.
  induction es as [|[y d] es IH]; cbn; [reflexivity|].
  destruct (String.eqb x y); cbn; [reflexivity|now rewrite IH].
Qed.

Lemma replace_entry_Forall (P : os.node -> Prop) (x : string) (c : os.node)
    (es : list (string * os.node)) :
  P c -> Forall (fun e => P e.2) es -> Forall (fun e => P e.2) (os.replace_entry x c es).
Proof.
  intros Hc. induction 1 as [|[y d] es Hd Hes IH]; cbn; [constructor|].
  destruct (String.eqb x y); constructor; assumption.
Qed.

Lemma del_entry_names (x y : string) (es : list (string * os.node)) :
  y ∈ map fst (os.del_entry x es) -> y ∈ map fst es.
Proof.
  induction es as [|[z d] es IH]; cbn; [easy|].
  destruct (String.eqb x z); cbn; intros Hy; apply elem_of_cons.
  - now right.
  - apply elem_of_cons in Hy as [->|Hy]; auto.
Qed.

Lemma del_entry_NoDup (x : string) (es : list (string * os.node)) :
  NoDup (map fst es) -> NoDup (map fst (os.del_entry x es)).
Proof.
  induction es as [|[z d] es IH]; cbn; [easy|]. intros Hnd.
  apply NoDup_cons in Hnd as [Hz Hnd]. destruct (String.eqb x z); cbn; [exact Hnd|].
  apply NoDup_cons. split; [|now apply IH]. intros Hin. apply Hz.
  exact (del_entry_names x z es Hin).
Qed.

Lemma del_entry_Forall (P : os.node -> Prop) (x : string) (es : list (string * os.node)) :
  Forall (fun e => P e.2) es -> Forall (fun e => P e.2) (os.del_entry x es).
Proof.
  induction 1 as [|[y d] es Hd Hes IH]; cbn; [constructor|].
  destruct (String.eqb x y); [exact Hes|now constructor].
Qed.

Lemma wf_graft_None (p : list string) :
  forall d, os.wf d = true -> os.wf (os.graft p None d) = true.
Proof.
  unfold os.graft. induction p as [|x p IH]; intros d Hwf; [exact Hwf|].
  cbn. destruct d as [j c0|j es]; [exact Hwf|].
  destruct (os.lookup_entry x es) as [c0|] eqn:Hl; [|exact Hwf].
  apply wf_Dir in Hwf as [Hnd Hall].
  assert (Hwfc : os.wf c0 = true).
  { rewrite Forall_forall in Hall. exact (Hall _ (lookup_entry_elem _ _ _ Hl)). }
  specialize (IH c0 Hwfc).
  destruct (os.put p None c0) as [c'|]; cbn [default from_option id] in IH |- *; apply wf_Dir.
  - split; [now rewrite replace_entry_names|].
    now apply (replace_entry_Forall (fun n => os.wf n = true)).
  - split; [now apply del_entry_NoDup|].
    now apply (del_entry_Forall (fun n => os.wf n = true)).
Qed.

(** Removing an entry makes no other entry appear. *)
Lemma find_None_graft_None (p : list string) :
  forall q d, os.wf d = true -> os.find q d = None ->
  os.find q (os.graft p None d) = None.
Proof.
  unfold os.graft. induction p as [|x p IH]; intros q d Hwf Hq; [exact Hq|].
  cbn. destruct d as [j c0|j es]; [exact Hq|].
  destruct (os.lookup_entry x es) as [c0|] eqn:Hl; [|exact Hq].
  destruct q as [|y q]; [discriminate Hq|]. cbn in Hq.
  apply wf_Dir in Hwf as [Hnd Hall].
  assert (Hwfc : os.wf c0 = true).
  { rewrite Forall_forall in Hall. exact (Hall _ (lookup_entry_elem _ _ _ Hl)). }
  destruct (decide (x = y)) as [->|Hxy].
  - rewrite Hl in Hq. specialize (IH q c0 Hwfc Hq).
    destruct (os.put p None c0) as [c'|]; cbn in IH |- *.
    + now rewrite (lookup_replace_entry y c0 c' es Hl).
    + now rewrite lookup_del_entry.
  - destruct (os.put p None c0) as [c'|]; cbn.
    + now rewrite lookup_replace_entry_ne.
    + now rewrite lookup_del_entry_ne.
Qed.

End DiskRemoves.

Section FsDeleteMore.
Context {ext : Externals}.
Variable u : URL.

Lemma fs_deleteBranch_inv (f : fs.Backend) (disk : os.node) (preset : string) :
  os.wf disk = true ->
  fs.root (fs.deleteBranch f u disk preset).1.1 = fs.root f /\
  os.wf (fs.deleteBranch f u disk preset).1.2 = true /\
  (forall k, fs.cache f !! k = None ->
     fs.cache (fs.deleteBranch f u disk preset).1.1 !! k = None) /\
  (forall q, os.find q disk = None ->
     os.find q (fs.deleteBranch f u disk preset).1.2 = None) /\
  ((fs.deleteBranch f u disk preset).2 = None ->
   fs.cache (fs.deleteBranch f u disk preset).1.1
     !! MakeCacheKey ["fs"; preset; URL_String u] = None /\
   os.find (fs.EncodeFilename f preset (URL_String u))
     (fs.deleteBranch f u disk preset).1.2 = None).
Proof.
  intros Hwf. unfold fs.deleteBranch, os.Remove.
  set (path := fs.EncodeFilename f preset (URL_String u)).
  destruct (os.remove_at path disk) as [disk1|e] eqn:Hr; cbn [fst snd fs.root fs.cache].
  - destruct (remove_at_ok path disk disk1 Hr) as (-> & Hne & [n Hn]).
    split; [reflexivity|]. split; [now apply wf_graft_None|]. split; [|split].
    + intros k Hk. unfold urlcache.Delete.
      destruct (decide (MakeCacheKey ["fs"; preset; URL_String u] = k)) as [->|Hd];
        [apply lookup_delete_eq|now rewrite lookup_delete_ne].
    + intros q Hq. now apply find_None_graft_None.
    + intros _. split; [apply lookup_delete_eq|].
      rewrite <- (app_nil_r path) at 1.
      now rewrite (find_graft_app path [] None disk n Hwf Hn) by now left.
  - repeat split; try easy.
Qed.

Lemma fs_deleteAll_inv (sched : list (string * string)) :
  forall f disk, os.wf disk = true ->
  fs.root (fs.deleteAll u sched f disk).1.1 = fs.root f /\
  os.wf (fs.deleteAll u sched f disk).1.2 = true /\
  (forall k, fs.cache f !! k = None -> fs.cache (fs.deleteAll u sched f disk).1.1 !! k = None) /\
  (forall q, os.find q disk = None -> os.find q (fs.deleteAll u sched f disk).1.2 = None) /\
  (fs.Wait (fs.deleteAll u sched f disk).2 = None ->
   forall preset rule, (preset, rule) ∈ sched ->
   fs.cache (fs.deleteAll u sched f disk).1.1
     !! MakeCacheKey ["fs"; preset; URL_String u] = None /\
   os.find (fs.EncodeFilename f preset (URL_String u))
     (fs.deleteAll u sched f disk).1.2 = None).
Proof.
  induction sched as [|[p0 r0] sched IH]; intros f disk Hwf.
  - cbn. repeat split; easy.
  - cbn [fs.deleteAll].
    destruct (fs_deleteBranch_inv f disk p0 Hwf) as (Hr1 & Hwf1 & Hc1 & Hf1 & Hok1).
    destruct (fs.deleteBranch f u disk p0) as [[f1 disk1] e]. cbn [fst snd] in *.
    destruct (IH f1 disk1 Hwf1) as (Hr2 & Hwf2 & Hc2 & Hf2 & Hok2).
    destruct (fs.deleteAll u sched f1 disk1) as [[f2 disk2] es]. cbn [fst snd] in *.
    split; [congruence|]. split; [exact Hwf2|]. split; [auto|]. split; [auto|].
    cbn [fs.Wait]. destruct e as [e|]; [discriminate|]. intros HW preset rule Hin.
    apply elem_of_cons in Hin as [Heq|Hin].
    + inversion Heq; subst p0 r0. destruct (Hok1 eq_refl) as [Hk Hp]. auto.
    + destruct (Hok2 HW preset rule Hin) as [Hk Hp]. split; [exact Hk|].
      unfold fs.EncodeFilename in *. now rewrite <- Hr1.
Qed.

End FsDeleteMore.

(** X15: when the file system invalidation returns no error on a
    well-formed disk, every preset of the table has lost both its cache
    entry and the file at its address. *)
Theorem fs_Delete_ok_clears {ext : Externals} (f : fs.Backend) (u : URL) (disk : os.node) :
  os.wf disk = true ->
  (fs.Delete f u disk).2 = None ->
  forall preset rule, (preset, rule) ∈ fs.presets f ->
  fs.cache (fs.Delete f u disk).1.1 !! MakeCacheKey ["fs"; preset; URL_String u] = None /\
  os.find (fs.EncodeFilename f preset (URL_String u)) (fs.Delete f u disk).1.2 = None.
Proof.
  intros Hwf. unfold fs.Delete.
  destruct (fs_deleteAll_inv u (fs.presets f) f disk Hwf) as (_ & _ & _ & _ & Hok).
  destruct (fs.deleteAll u (fs.presets f) f disk) as [[f1 disk1] returned].
  cbn [fst snd] in *. intros HW. apply Hok. now destruct (fs.Wait returned).
Qed.

Lemma fs_Delete_ok_clears_witness :
  fs.cache (fs.Delete (ext := Sample.absent) Sample.fs_cached Sample.source
              Sample.stored_disk).1.1
    !! Sample.cacheKey ["fs"; "thumb"; "https://x/a.jpg"] = None /\
  os.find Sample.derivative
    (fs.Delete (ext := Sample.absent) Sample.fs_cached Sample.source Sample.stored_disk).1.2
  = None.
Proof.
  exact (fs_Delete_ok_clears (ext := Sample.absent) Sample.fs_cached Sample.source
    Sample.stored_disk ltac:(vm_compute; reflexivity) ltac:(vm_compute; reflexivity)
    "thumb" "100x100" ltac:(apply elem_of_cons; now left)).
Defined.

(** ** Every request gets its answer *)



(** A cached derivative that cannot be opened is answered 403 by
    [http.ServeFile]. *)
Example unreadable_cached_file_is_forbidden :
  let disk :=
    os.Dir (os.fresh 0)
      [("var", os.Dir (os.fresh 0)
         [("sharaq", os.Dir (os.fresh 0)
            [("thumb", os.Dir (os.fresh 0)
               [("5100774299828810971",
                 os.File (os.mkInode 0 (Some "permission denied") None)
                   "100x100 of https://x/a.jpg")])])])] in
  fs.Serve (ext := Sample.absent) Sample.fs_cached disk newResponseWriter (Sample.get "thumb")
  = (http_Error newResponseWriter "403 Forbidden" 403, Sample.fs_cached, []).
Proof. vm_compute. reflexivity. Qed.


(** X17: the dispatcher itself never touches the backend.  Whatever the
    request, it either hands it to the backend unchanged or answers 400, 500
    or 403 itself, and then the backend is as it was and nothing is
    spawned. *)
Theorem dispatcher_forwards_or_refuses {B T : Type} {backend : Dispatcher.Backend B T}
    (d : Dispatcher.Dispatcher) (b : B) (w : ResponseWriter) (r : Request) :
  status w = None ->
  Dispatcher.ServeHTTP d b w r = Dispatcher.Serve b w r \/
  ((Dispatcher.ServeHTTP d b w r).1.2 = b /\
   (Dispatcher.ServeHTTP d b w r).2 = [] /\
   (status (Dispatcher.ServeHTTP d b w r).1.1 = Some 400 \/
    status (Dispatcher.ServeHTTP d b w r).1.1 = Some 500 \/
    status (Dispatcher.ServeHTTP d b w r).1.1 = Some 403)).
Proof.
  intros Hw. unfold Dispatcher.ServeHTTP, Dispatcher.HandleFetch.
  destruct (String.eqb (Method r) "GET").
  - destruct (String.eqb (FormValue r "url") "").
    + right. cbn [fst snd]. rewrite http_Error_status by exact Hw. auto.
    + destruct (negb _); [right|now left].
      cbn [fst snd]. rewrite http_Error_status by exact Hw. auto.
  - right. cbn [fst snd]. rewrite http_Error_status by exact Hw. auto.
Qed.

Lemma dispatcher_forwards_or_refuses_witness :
  (Dispatcher.ServeHTTP (backend := Dispatcher.s3_backend (ext := Sample.absent))
     (Sample.strict_dispatcher Sample.idle) Sample.s3 newResponseWriter Sample.put).1.2
  = Sample.s3.
Proof.
  destruct (dispatcher_forwards_or_refuses
    (backend := Dispatcher.s3_backend (ext := Sample.absent))
    (Sample.strict_dispatcher Sample.idle) Sample.s3 newResponseWriter Sample.put
    ltac:(reflexivity)) as [H|[H _]]; [|exact H].
  vm_compute in H. discriminate H.
Defined.

(** ** S3 backend: materialising twice *)

Section AwsStoreTwice.
Context {ext : Externals}.
Variable u : URL.

Lemma aws_storeBranch_fields (s : aws.S3Backend) (preset rule : string) :
  aws.bucketName (aws.storeBranch u s preset rule).1 = aws.bucketName s /\
  aws.bucket (aws.storeBranch u s preset rule).1
    = match Transform rule (URL_String u), s3_put_err ("/" +:+ preset +:+ Path u) with
      | Ok res, None => <["/" +:+ preset +:+ Path u := res]> (aws.bucket s)
      | _, _ => aws.bucket s
      end.
Proof.
  unfold aws.storeBranch. destruct (Transform rule (URL_String u)); [|easy].
  now destruct (s3_put_err _).
Qed.

(** The bucket after the branches: the successful uploads, a later one over
    an earlier one, over the bucket before. *)
Lemma aws_storeAll_overlay (sched : list (string * string)) :
  forall s,
  aws.bucketName (aws.storeAll u sched s).1 = aws.bucketName s /\
  aws.bucket (aws.storeAll u sched s).1
    = list_to_map
        (reverse
           (omap (fun pr =>
                    match Transform pr.2 (URL_String u),
                          s3_put_err ("/" +:+ pr.1 +:+ Path u) with
                    | Ok res, None => Some ("/" +:+ pr.1 +:+ Path u, res)
                    | _, _ => None
                    end) sched))
      ∪ aws.bucket s.
Proof.
  induction sched as [|[preset rule] sched IH]; intros s.
  - cbn. split; [reflexivity|]. now rewrite (left_id ∅ (∪)).
  - cbn [aws.storeAll]. rewrite omap_cons_eq. cbn [fst snd].
    destruct (aws_storeBranch_fields s preset rule) as [Hn Hb].
    destruct (aws.storeBranch u s preset rule) as [s1 e]. cbn [fst] in Hn, Hb.
    destruct (IH s1) as [Hn2 Hb2].
    destruct (aws.storeAll u sched s1) as [s2 errs]. cbn [fst] in *.
    split; [congruence|]. rewrite Hb2, Hb.
    destruct (Transform rule (URL_String u)) as [res|e0]; [|reflexivity].
    destruct (s3_put_err ("/" +:+ preset +:+ Path u)); [reflexivity|].
    rewrite reverse_cons, list_to_map_app, <- (assoc_L (∪)). f_equal.
    cbn. now rewrite <- insert_union_l, (left_id ∅ (∪)).
Qed.

End AwsStoreTwice.

(** X18: materialising a source a second time, with the transformer and S3
    answering as before, leaves the S3 backend exactly as the first
    materialisation left it. *)
Theorem s3_materialize_twice {ext : Externals} (s : aws.S3Backend) (u : URL) :
  (aws.StoreTransformedContent (aws.StoreTransformedContent s u).1 u).1
  = (aws.StoreTransformedContent s u).1.
Proof.
  rewrite !aws_StoreTransformedContent_state.
  destruct (aws_storeAll_cache u (aws.presets s) s) as [Hc Hp].
  destruct (aws_storeAll_overlay u (aws.presets s) s) as [Hn Hb].
  set (s1 := (aws.storeAll u (aws.presets s) s).1) in *. rewrite Hp.
  destruct (aws_storeAll_cache u (aws.presets s) s1) as [Hc2 Hp2].
  destruct (aws_storeAll_overlay u (aws.presets s) s1) as [Hn2 Hb2].
  set (s2 := (aws.storeAll u (aws.presets s) s1).1) in *.
  destruct s1 as [n1 b1 c1 p1], s2 as [n2 b2 c2 p2]. cbn in *. f_equal.
  - congruence.
  - rewrite Hb2, Hb. now rewrite (assoc_L (∪)), (idemp_L (∪)).
  - congruence.
  - congruence.
Qed.
